(** * Backend dispatch of a tensor engine: CPU fast paths, GPU-less backend

    A shallow embedding of [mlx/backend/accelerate/primitives.cpp] and
    [mlx/backend/no_metal/primitives.cpp].

    - Tensors are handles ([array]) onto reference-counted buffers kept in a
      heap ([gmap positive Buffer]); aliasing is sharing of a buffer id.
    - float32 values are IEEE-754 binary32 numbers ([spec_float] at precision
      24 and maximal exponent 128); 32-bit integers are [Z] with the
      wrap-around written out.
    - An evaluation either returns the new output handle and heap, throws a
      C++ exception, or has no defined result (a failed [assert], an access
      outside a buffer). *)

From Stdlib Require Import ZArith String Bool Lia.
From Stdlib Require Import Floats.SpecFloat.
From stdpp Require Import gmap strings list.

Local Open Scope Z_scope.

(** ** Exceptions and results *)

Inductive exn :=
| runtime_error (msg : string)
| invalid_argument (msg : string).

(** The result of an entry point: a value, an exception together with the
    state [St] in which it was thrown, or no defined result. *)
Inductive Result (St A : Type) :=
| Ok (a : A)
| Throw (e : exn) (st : St)
| Undefined.
Arguments Ok {St A} a.
Arguments Throw {St A} e st.
Arguments Undefined {St A}.

#[global] Instance Result_ret {St} : MRet (Result St) := fun A a => Ok a.

#[global] Instance Result_bind {St} : MBind (Result St) := fun A B k r =>
  match r with
  | Ok a => k a
  | Throw e st => Throw e st
  | Undefined => Undefined
  end.

Definition of_option {St A} (o : option A) : Result St A :=
  match o with
  | Some a => Ok a
  | None => Undefined
  end.

(** ** Data model *)

(** Modelled from the spec: the dtype enumeration ([mlx/dtype.h]) is not part
    of the two translation units; the kinds are the ones the data model lists
    (bool, int8..64, uint8..64, float16/32/64, bfloat16, complex64). *)
Inductive Dtype :=
| bool_ | uint8 | uint16 | uint32 | uint64
| int8 | int16 | int32 | int64
| float16 | float32 | float64 | bfloat16 | complex64.

#[global] Instance Dtype_eq_dec : EqDecision Dtype.
Proof. solve_decision. Defined.

Definition dtype_eqb (a b : Dtype) : bool := bool_decide (a = b).

(** Modelled from the spec: [is_unsigned] holds of the unsigned-integer
    kinds. *)
Definition is_unsigned (d : Dtype) : bool :=
  match d with
  | uint8 | uint16 | uint32 | uint64 => true
  | _ => false
  end.

(** Modelled from the spec: [is_floating_point] holds of the floating-point
    kinds. *)
Definition is_floating_point (d : Dtype) : bool :=
  match d with
  | float16 | float32 | float64 | bfloat16 => true
  | _ => false
  end.

(** Modelled from the spec: the integral kinds ([std::is_integral_v] of the
    element type). *)
Definition is_integral (d : Dtype) : bool :=
  match d with
  | bool_ | uint8 | uint16 | uint32 | uint64
  | int8 | int16 | int32 | int64 => true
  | _ => false
  end.

(** Modelled from the spec: the size in bytes of one element. *)
Definition size_of (d : Dtype) : Z :=
  match d with
  | bool_ | uint8 | int8 => 1
  | uint16 | int16 | float16 | bfloat16 => 2
  | uint32 | int32 | float32 => 4
  | uint64 | int64 | float64 | complex64 => 8
  end.

Record Flags := {
  contiguous : bool;
  row_contiguous : bool;
  col_contiguous : bool
}.

(** A tensor handle.  [data] is the identity of the shared storage block
    ([None] for an output that has no storage yet). *)
Record array := {
  dtype : Dtype;
  shape : list Z;
  strides : list Z;
  flags : Flags;
  data_size : Z;
  data : option positive
}.

Definition size (a : array) : Z := fold_right Z.mul 1 (shape a).
Definition itemsize (a : array) : Z := size_of (dtype a).
Definition nbytes (a : array) : Z := size a * itemsize a.

(** ** Primitives *)

(** [Log::Base]. *)
Inductive Base := Base_e | Base_two | Base_ten.

(** Modelled from the spec: the reduce types of a scan ([Scan::ReduceType]);
    the translation unit names only [Scan::Sum]. *)
Inductive ReduceType :=
| Scan_Sum | Scan_Prod | Scan_Min | Scan_Max | Scan_LogAddExp.

#[global] Instance ReduceType_eq_dec : EqDecision ReduceType.
Proof. solve_decision. Defined.

(** The operation kinds named by the two backends, with the parameters the
    evaluation routines read ([base_], [recip_], and the four fields of a
    scan). *)
Inductive Primitive :=
| Abs | Add | AddMM | Arange | ArcCos | ArcCosh | ArcSin | ArcSinh | ArcTan
| ArcTanh | ArgPartition | ArgReduce | ArgSort | AsType | AsStrided
| Broadcast | Ceil | Compiled | Concatenate | Convolution | Copy | Cos | Cosh
| CustomVJP | Depends | Divide | DivMod | Remainder | Equal | Erf | ErfInv
| Exp | FFT | Floor | Full | Gather | Greater | GreaterEqual | Less
| LessEqual | Load | Log (base_ : Base) | Log1p | LogicalNot | LogicalAnd
| LogicalOr | LogAddExp | Matmul | Maximum | Minimum | Multiply | Negative
| NotEqual | Pad | Partition | Power | QRF | QuantizedMatmul | RandomBits
| Reduce | Reshape | Round
| Scan (reduce_type_ : ReduceType) (axis_ : Z) (reverse_ inclusive_ : bool)
| Scatter | Sigmoid | Sign | Sin | Sinh | Slice | Softmax | Sort | Split
| Square | Sqrt (recip_ : bool) | StopGradient | Subtract | Tan | Tanh
| Transpose.

(** The C++ class identifier of an operation kind. *)
Definition class_name (p : Primitive) : string :=
  match p with
  | Abs => "Abs" | Add => "Add" | AddMM => "AddMM" | Arange => "Arange"
  | ArcCos => "ArcCos" | ArcCosh => "ArcCosh" | ArcSin => "ArcSin"
  | ArcSinh => "ArcSinh" | ArcTan => "ArcTan" | ArcTanh => "ArcTanh"
  | ArgPartition => "ArgPartition" | ArgReduce => "ArgReduce"
  | ArgSort => "ArgSort" | AsType => "AsType" | AsStrided => "AsStrided"
  | Broadcast => "Broadcast" | Ceil => "Ceil" | Compiled => "Compiled"
  | Concatenate => "Concatenate" | Convolution => "Convolution"
  | Copy => "Copy" | Cos => "Cos" | Cosh => "Cosh" | CustomVJP => "CustomVJP"
  | Depends => "Depends" | Divide => "Divide" | DivMod => "DivMod"
  | Remainder => "Remainder" | Equal => "Equal" | Erf => "Erf"
  | ErfInv => "ErfInv" | Exp => "Exp" | FFT => "FFT" | Floor => "Floor"
  | Full => "Full" | Gather => "Gather" | Greater => "Greater"
  | GreaterEqual => "GreaterEqual" | Less => "Less"
  | LessEqual => "LessEqual" | Load => "Load" | Log _ => "Log"
  | Log1p => "Log1p" | LogicalNot => "LogicalNot"
  | LogicalAnd => "LogicalAnd" | LogicalOr => "LogicalOr"
  | LogAddExp => "LogAddExp" | Matmul => "Matmul" | Maximum => "Maximum"
  | Minimum => "Minimum" | Multiply => "Multiply" | Negative => "Negative"
  | NotEqual => "NotEqual" | Pad => "Pad" | Partition => "Partition"
  | Power => "Power" | QRF => "QRF" | QuantizedMatmul => "QuantizedMatmul"
  | RandomBits => "RandomBits" | Reduce => "Reduce" | Reshape => "Reshape"
  | Round => "Round" | Scan _ _ _ _ => "Scan" | Scatter => "Scatter"
  | Sigmoid => "Sigmoid" | Sign => "Sign" | Sin => "Sin" | Sinh => "Sinh"
  | Slice => "Slice" | Softmax => "Softmax" | Sort => "Sort"
  | Split => "Split" | Square => "Square" | Sqrt _ => "Sqrt"
  | StopGradient => "StopGradient" | Subtract => "Subtract" | Tan => "Tan"
  | Tanh => "Tanh" | Transpose => "Transpose"
  end.

(** ** The backend without accelerator ([no_metal/primitives.cpp]) *)

(** [NO_GPU(func)]: the single-output entry point of [func]. *)
Definition NO_GPU (func : string) (inputs : list array) (out : array)
  : Result unit array :=
  Throw (runtime_error (func +:+ " has no GPU implementation.")) tt.

(** [NO_GPU_MULTI(func)]: the multi-output entry point of [func]. *)
Definition NO_GPU_MULTI (func : string) (inputs : list array)
    (outputs : list array) : Result unit (list array) :=
  Throw (runtime_error (func +:+ " has no GPU implementation.")) tt.

(** An entry point has one of the two C++ signatures. *)
Inductive EntryPoint :=
| Single (f : list array -> array -> Result unit array)
| Multi (f : list array -> list array -> Result unit (list array)).

(** The entry points the translation unit defines, in its order. *)
Definition eval_gpu (p : Primitive) : EntryPoint :=
  match p with
  | Abs => Single (NO_GPU "Abs")
  | Add => Single (NO_GPU "Add")
  | AddMM => Single (NO_GPU "AddMM")
  | Arange => Single (NO_GPU "Arange")
  | ArcCos => Single (NO_GPU "ArcCos")
  | ArcCosh => Single (NO_GPU "ArcCosh")
  | ArcSin => Single (NO_GPU "ArcSin")
  | ArcSinh => Single (NO_GPU "ArcSinh")
  | ArcTan => Single (NO_GPU "ArcTan")
  | ArcTanh => Single (NO_GPU "ArcTanh")
  | ArgPartition => Single (NO_GPU "ArgPartition")
  | ArgReduce => Single (NO_GPU "ArgReduce")
  | ArgSort => Single (NO_GPU "ArgSort")
  | AsType => Single (NO_GPU "AsType")
  | AsStrided => Single (NO_GPU "AsStrided")
  | Broadcast => Single (NO_GPU "Broadcast")
  | Ceil => Single (NO_GPU "Ceil")
  | Compiled => Multi (NO_GPU_MULTI "Compiled")
  | Concatenate => Single (NO_GPU "Concatenate")
  | Convolution => Single (NO_GPU "Convolution")
  | Copy => Single (NO_GPU "Copy")
  | Cos => Single (NO_GPU "Cos")
  | Cosh => Single (NO_GPU "Cosh")
  | CustomVJP => Multi (NO_GPU_MULTI "CustomVJP")
  | Depends => Multi (NO_GPU_MULTI "Depends")
  | Divide => Single (NO_GPU "Divide")
  | DivMod => Multi (NO_GPU_MULTI "DivMod")
  | Remainder => Single (NO_GPU "Remainder")
  | Equal => Single (NO_GPU "Equal")
  | Erf => Single (NO_GPU "Erf")
  | ErfInv => Single (NO_GPU "ErfInv")
  | Exp => Single (NO_GPU "Exp")
  | FFT => Single (NO_GPU "FFT")
  | Floor => Single (NO_GPU "Floor")
  | Full => Single (NO_GPU "Full")
  | Gather => Single (NO_GPU "Gather")
  | Greater => Single (NO_GPU "Greater")
  | GreaterEqual => Single (NO_GPU "GreaterEqual")
  | Less => Single (NO_GPU "Less")
  | LessEqual => Single (NO_GPU "LessEqual")
  | Load => Single (NO_GPU "Load")
  | Log _ => Single (NO_GPU "Log")
  | Log1p => Single (NO_GPU "Log1p")
  | LogicalNot => Single (NO_GPU "LogicalNot")
  | LogicalAnd => Single (NO_GPU "LogicalAnd")
  | LogicalOr => Single (NO_GPU "LogicalOr")
  | LogAddExp => Single (NO_GPU "LogAddExp")
  | Matmul => Single (NO_GPU "Matmul")
  | Maximum => Single (NO_GPU "Maximum")
  | Minimum => Single (NO_GPU "Minimum")
  | Multiply => Single (NO_GPU "Multiply")
  | Negative => Single (NO_GPU "Negative")
  | NotEqual => Single (NO_GPU "NotEqual")
  | Pad => Single (NO_GPU "Pad")
  | Partition => Single (NO_GPU "Partition")
  | Power => Single (NO_GPU "Power")
  | QRF => Multi (NO_GPU_MULTI "QRF")
  | QuantizedMatmul => Single (NO_GPU "QuantizedMatmul")
  | RandomBits => Single (NO_GPU "RandomBits")
  | Reduce => Single (NO_GPU "Reduce")
  | Reshape => Single (NO_GPU "Reshape")
  | Round => Single (NO_GPU "Round")
  | Scan _ _ _ _ => Single (NO_GPU "Scan")
  | Scatter => Single (NO_GPU "Scatter")
  | Sigmoid => Single (NO_GPU "Sigmoid")
  | Sign => Single (NO_GPU "Sign")
  | Sin => Single (NO_GPU "Sin")
  | Sinh => Single (NO_GPU "Sinh")
  | Slice => Single (NO_GPU "Slice")
  | Softmax => Single (NO_GPU "Softmax")
  | Sort => Single (NO_GPU "Sort")
  | Split => Multi (NO_GPU_MULTI "Split")
  | Square => Single (NO_GPU "Square")
  | Sqrt _ => Single (NO_GPU "Sqrt")
  | StopGradient => Single (NO_GPU "StopGradient")
  | Subtract => Single (NO_GPU "Subtract")
  | Tan => Single (NO_GPU "Tan")
  | Tanh => Single (NO_GPU "Tanh")
  | Transpose => Single (NO_GPU "Transpose")
  end.

(** What a caller observes from an entry point: the exception it throws on
    the given arguments, if any. *)
Definition thrown {St A} (r : Result St A) : option exn :=
  match r with
  | Throw e _ => Some e
  | _ => None
  end.

Definition produced {St A} (r : Result St A) : option A :=
  match r with
  | Ok a => Some a
  | _ => None
  end.


(** ** float32 arithmetic

    A C++ [float] is an IEEE-754 binary32 number: [spec_float] at precision
    24 with maximal exponent 128, every operation rounding to nearest even. *)

Definition f32_valid (x : spec_float) : bool := valid_binary 24 128 x.
Definition f32_add : spec_float -> spec_float -> spec_float := SFadd 24 128.
Definition f32_sub : spec_float -> spec_float -> spec_float := SFsub 24 128.
Definition f32_mul : spec_float -> spec_float -> spec_float := SFmul 24 128.
Definition f32_div : spec_float -> spec_float -> spec_float := SFdiv 24 128.
Definition f32_sqrt : spec_float -> spec_float := SFsqrt 24 128.
Definition f32_neg : spec_float -> spec_float := SFopp.
Definition f32_abs : spec_float -> spec_float := SFabs.

(** The float32 nearest to [m * 2^e]. *)
Definition f32 (m e : Z) : spec_float := binary_normalize 24 128 m e false.
Definition f32_zero : spec_float := S754_zero false.
Definition f32_one : spec_float := f32 1 0.

(** [std::fmod] on floats: the exact remainder of the truncated quotient; it
    has the sign of the dividend and a magnitude below the divisor's. *)
Definition f32_fmod (x y : spec_float) : spec_float :=
  match x, y with
  | S754_nan, _ | _, S754_nan => S754_nan
  | S754_infinity _, _ => S754_nan
  | _, S754_zero _ => S754_nan
  | S754_zero _, _ => x
  | S754_finite _ _ _, S754_infinity _ => x
  | S754_finite sx mx ex, S754_finite sy my ey =>
      let ez := Z.min ex ey in
      let X := Zpos mx * 2 ^ (ex - ez) in
      let Y := Zpos my * 2 ^ (ey - ez) in
      binary_normalize 24 128 (cond_Zopp sx (X mod Y)) ez sx
  end.

(** The IEEE-754 remainder ([remainderf]): the exact remainder of the
    quotient rounded to the nearest integer, ties to even. *)
Definition f32_remainder (x y : spec_float) : spec_float :=
  match x, y with
  | S754_nan, _ | _, S754_nan => S754_nan
  | S754_infinity _, _ => S754_nan
  | _, S754_zero _ => S754_nan
  | S754_zero _, _ => x
  | S754_finite _ _ _, S754_infinity _ => x
  | S754_finite sx mx ex, S754_finite sy my ey =>
      let ez := Z.min ex ey in
      let X := Zpos mx * 2 ^ (ex - ez) in
      let Y := Zpos my * 2 ^ (ey - ez) in
      let q := X / Y in
      let r := X mod Y in
      let n :=
        match Z.compare (2 * r) Y with
        | Lt => q
        | Gt => q + 1
        | Eq => if Z.even q then q else q + 1
        end in
      binary_normalize 24 128 (cond_Zopp sx (X - n * Y)) ez sx
  end.

(** The integer part of a finite float, rounding toward zero. *)
Definition f32_trunc (x : spec_float) : option Z :=
  match x with
  | S754_zero _ => Some 0
  | S754_finite s m e =>
      Some (cond_Zopp s (if 0 <=? e then Zpos m * 2 ^ e
                         else Zpos m / 2 ^ (- e)))
  | _ => None
  end.

(** ** Fixed-width integers *)

Definition is_signed (d : Dtype) : bool :=
  match d with
  | int8 | int16 | int32 | int64 => true
  | _ => false
  end.

Definition bits (d : Dtype) : Z := 8 * size_of d.

(** The value of dtype [d] congruent to [n]: two's complement wrap-around
    for signed kinds, reduction modulo [2^bits] for unsigned ones, and
    non-zero-is-true for [bool_]. *)
Definition wrap (d : Dtype) (n : Z) : Z :=
  if bool_decide (d = bool_) then (if n =? 0 then 0 else 1)
  else if is_signed d
       then (n + 2 ^ (bits d - 1)) mod 2 ^ bits d - 2 ^ (bits d - 1)
       else n mod 2 ^ bits d.

(** A value stored into a C++ [int]. *)
Definition to_int (n : Z) : Z := wrap int32 n.

Definition INT_MIN : Z := - 2 ^ 31.
Definition INT_MAX : Z := 2 ^ 31 - 1.
Definition UINT_MAX : Z := 2 ^ 32 - 1.

(** ** Memory *)

(** One element of a buffer. *)
Inductive scalar :=
| VFloat (x : spec_float)
| VInt (d : Dtype) (n : Z)
| VOther (d : Dtype) (raw : Z)
| VUninit.

(** A storage block: the number of handles that own it and its elements. *)
Record Buffer := {
  owners : nat;
  cells : list scalar
}.

Abbreviation Heap := (gmap positive Buffer).

(** A typed pointer: into a storage block, or the address of a local
    variable of the evaluation routine that holds [v]. *)
Inductive ptr :=
| Mem (blk : positive) (off : Z)
| Stack (v : scalar) (off : Z).

Definition ptr_add (p : ptr) (k : Z) : ptr :=
  match p with
  | Mem b o => Mem b (o + k)
  | Stack v o => Stack v (o + k)
  end.

Definition load (h : Heap) (p : ptr) : option scalar :=
  match p with
  | Mem blk off =>
      b ← h !! blk;
      if 0 <=? off then cells b !! Z.to_nat off else None
  | Stack v off => if off =? 0 then Some v else None
  end.

Definition store (h : Heap) (p : ptr) (v : scalar) : option Heap :=
  match p with
  | Mem blk off =>
      b ← h !! blk;
      if (0 <=? off) && (off <? Z.of_nat (length (cells b)))
      then Some (<[blk := {| owners := owners b;
                             cells := <[Z.to_nat off := v]> (cells b) |}]> h)
      else None
  | Stack _ _ => None
  end.

(** Reading an element as a [float]: the element must hold a binary32
    number (a canonical mantissa and exponent). *)
Definition as_float (v : scalar) : option spec_float :=
  match v with
  | VFloat x => if f32_valid x then Some x else None
  | _ => None
  end.

Definition as_int (d : Dtype) (v : scalar) : option Z :=
  match v with
  | VInt d' n => if bool_decide (d' = d) then Some n else None
  | _ => None
  end.

Definition load_float (h : Heap) (p : ptr) : option spec_float :=
  load h p ≫= as_float.

Definition load_int (d : Dtype) (h : Heap) (p : ptr) : option Z :=
  load h p ≫= as_int d.

(** [a.data<T>()]: a pointer to the first element of the handle's storage. *)
Definition data_ptr (a : array) : option ptr :=
  p ← data a; Some (Mem p 0).

(** Modelled from the spec: [is_donatable] ([mlx/array.h]) holds iff the
    tensor's storage has exactly one owner. *)
Definition is_donatable (h : Heap) (a : array) : bool :=
  match data a with
  | Some p =>
      match h !! p with
      | Some b => Nat.eqb (owners b) 1
      | None => false
      end
  | None => false
  end.

(** Modelled from the spec: [allocator::malloc_or_wait] ([mlx/allocator.h])
    hands out a storage block that no handle owns yet; [n] is its capacity in
    elements.  The allocator's out-of-memory error is outside the model:
    the developments below are about runs in which the allocator has memory
    to give, and none of them speaks of that error. *)
Definition malloc_or_wait (n : Z) (h : Heap) : positive * Heap :=
  let p := fresh (dom h) in
  (p, <[p := {| owners := 0; cells := replicate (Z.to_nat n) VUninit |}]> h).

Definition add_owner (b : Buffer) : Buffer :=
  {| owners := S (owners b); cells := cells b |}.

(** Modelled from the spec: [array::set_data] ([mlx/array.h]) makes the
    handle the owner of a storage block. *)
Definition set_data (out : array) (p : positive) (h : Heap) : array * Heap :=
  ({| dtype := dtype out; shape := shape out; strides := strides out;
      flags := flags out; data_size := size out; data := Some p |},
   alter add_owner p h).

(** Modelled from the spec: [array::copy_shared_buffer] ([mlx/array.h]) makes
    the handle one more owner of [other]'s storage; layout and data size are
    taken from [other]. *)
Definition copy_shared_buffer (out other : array) (h : Heap) : array * Heap :=
  ({| dtype := dtype out; shape := shape out; strides := strides other;
      flags := flags other; data_size := data_size other;
      data := data other |},
   match data other with
   | Some p => alter add_owner p h
   | None => h
   end).

(** [out.set_data(allocator::malloc_or_wait(out.nbytes()))]. *)
Definition set_data_fresh (out : array) (h : Heap) : array * Heap :=
  let '(p, h1) := malloc_or_wait (nbytes out / itemsize out) h in
  set_data out p h1.

(** ** Element functions *)

Definition float1 (f : spec_float -> spec_float) (v : scalar)
  : option scalar :=
  x ← as_float v; Some (VFloat (f x)).

Definition float2 (f : spec_float -> spec_float -> spec_float)
    (v w : scalar) : option scalar :=
  x ← as_float v; y ← as_float w; Some (VFloat (f x y)).

Definition int1 (d : Dtype) (f : Z -> Z) (v : scalar) : option scalar :=
  x ← as_int d v; Some (VInt d (wrap d (f x))).

Definition int2 (d : Dtype) (f : Z -> Z -> Z) (v w : scalar)
  : option scalar :=
  x ← as_int d v; y ← as_int d w; Some (VInt d (wrap d (f x y))).

(** On a signed type no narrower than [int] the quotient of the least
    value by [-1] is not representable (narrower types are promoted to
    [int] first). *)
Definition quotient_overflows (d : Dtype) (x y : Z) : bool :=
  is_signed d && (32 <=? bits d) && (x =? - 2 ^ (bits d - 1)) && (y =? -1).

(** Integer [/] and [%]: no defined result on a zero divisor, nor when the
    quotient overflows. *)
Definition int_div2 (d : Dtype) (f : Z -> Z -> Z) (v w : scalar)
  : option scalar :=
  x ← as_int d v; y ← as_int d w;
  if (y =? 0) || quotient_overflows d x y then None
  else Some (VInt d (wrap d (f x y))).

(** ** Element-wise sweeps over memory *)

(** [for (i = 0; i < n; ++i) C[i*IC] = f(A[i*IA])], starting at [i]. *)
Fixpoint unary_loop (f : scalar -> option scalar)
    (A : ptr) (IA : Z) (C : ptr) (IC : Z) (i : Z) (n : nat) (h : Heap)
  : option Heap :=
  match n with
  | O => Some h
  | S n' =>
      x ← load h (ptr_add A (i * IA));
      y ← f x;
      h' ← store h (ptr_add C (i * IC)) y;
      unary_loop f A IA C IC (i + 1) n' h'
  end.

(** [for (i = 0; i < n; ++i) C[i*IC] = f(A[i*IA], B[i*IB])], starting at
    [i]; a stride of 0 reads a scalar operand. *)
Fixpoint binary_loop (f : scalar -> scalar -> option scalar)
    (A : ptr) (IA : Z) (B : ptr) (IB : Z) (C : ptr) (IC : Z)
    (i : Z) (n : nat) (h : Heap) : option Heap :=
  match n with
  | O => Some h
  | S n' =>
      x ← load h (ptr_add A (i * IA));
      y ← load h (ptr_add B (i * IB));
      z ← f x y;
      h' ← store h (ptr_add C (i * IC)) z;
      binary_loop f A IA B IB C IC (i + 1) n' h'
  end.

(** ** The platform's vector routines (vecLib: vDSP and vForce)

    Each routine is given by its documented element formula; [N] is the
    element count and [IA], [IB], [IC] are element strides. *)

(** [C[n] = |A[n]|]. *)
Definition vDSP_vabs (A : ptr) (IA : Z) (C : ptr) (IC : Z) (N : Z) :=
  unary_loop (float1 f32_abs) A IA C IC 0 (Z.to_nat N).

Definition vDSP_vabsi (A : ptr) (IA : Z) (C : ptr) (IC : Z) (N : Z) :=
  unary_loop (int1 int32 Z.abs) A IA C IC 0 (Z.to_nat N).

(** [C[n] = -A[n]]. *)
Definition vDSP_vneg (A : ptr) (IA : Z) (C : ptr) (IC : Z) (N : Z) :=
  unary_loop (float1 f32_neg) A IA C IC 0 (Z.to_nat N).

(** [C[n] = A[n] * A[n]]. *)
Definition vDSP_vsq (A : ptr) (IA : Z) (C : ptr) (IC : Z) (N : Z) :=
  unary_loop (float1 (fun x => f32_mul x x)) A IA C IC 0 (Z.to_nat N).

(** [C[n] = A[n] + B[0]]. *)
Definition vDSP_vsadd (A : ptr) (IA : Z) (B : ptr) (C : ptr) (IC : Z)
    (N : Z) :=
  binary_loop (float2 f32_add) A IA B 0 C IC 0 (Z.to_nat N).

(** [C[n] = A[n] + B[n]]. *)
Definition vDSP_vadd (A : ptr) (IA : Z) (B : ptr) (IB : Z) (C : ptr)
    (IC : Z) (N : Z) :=
  binary_loop (float2 f32_add) A IA B IB C IC 0 (Z.to_nat N).

Definition vDSP_vsaddi (A : ptr) (IA : Z) (B : ptr) (C : ptr) (IC : Z)
    (N : Z) :=
  binary_loop (int2 int32 Z.add) A IA B 0 C IC 0 (Z.to_nat N).

Definition vDSP_vaddi (A : ptr) (IA : Z) (B : ptr) (IB : Z) (C : ptr)
    (IC : Z) (N : Z) :=
  binary_loop (int2 int32 Z.add) A IA B IB C IC 0 (Z.to_nat N).

(** [C[n] = A[n] / B[0]], on integers. *)
Definition vDSP_vsdivi (A : ptr) (IA : Z) (B : ptr) (C : ptr) (IC : Z)
    (N : Z) :=
  binary_loop (int_div2 int32 Z.quot) A IA B 0 C IC 0 (Z.to_nat N).

(** [C[n] = B[n] / A[n]], on integers. *)
Definition vDSP_vdivi (A : ptr) (IA : Z) (B : ptr) (IB : Z) (C : ptr)
    (IC : Z) (N : Z) :=
  binary_loop (int_div2 int32 (fun a b => Z.quot a b)) B IB A IA C IC 0
    (Z.to_nat N).

(** [C[n] = A[0] / B[n]]. *)
Definition vDSP_svdiv (A : ptr) (B : ptr) (IB : Z) (C : ptr) (IC : Z)
    (N : Z) :=
  binary_loop (float2 f32_div) A 0 B IB C IC 0 (Z.to_nat N).

(** [C[n] = A[n] / B[0]]. *)
Definition vDSP_vsdiv (A : ptr) (IA : Z) (B : ptr) (C : ptr) (IC : Z)
    (N : Z) :=
  binary_loop (float2 f32_div) A IA B 0 C IC 0 (Z.to_nat N).

(** [C[n] = B[n] / A[n]]. *)
Definition vDSP_vdiv (A : ptr) (IA : Z) (B : ptr) (IB : Z) (C : ptr)
    (IC : Z) (N : Z) :=
  binary_loop (float2 f32_div) B IB A IA C IC 0 (Z.to_nat N).

(** [C[n] = A[n] * B[0]]. *)
Definition vDSP_vsmul (A : ptr) (IA : Z) (B : ptr) (C : ptr) (IC : Z)
    (N : Z) :=
  binary_loop (float2 f32_mul) A IA B 0 C IC 0 (Z.to_nat N).

(** [C[n] = A[n] * B[n]]. *)
Definition vDSP_vmul (A : ptr) (IA : Z) (B : ptr) (IB : Z) (C : ptr)
    (IC : Z) (N : Z) :=
  binary_loop (float2 f32_mul) A IA B IB C IC 0 (Z.to_nat N).

(** [D[n] = A[n] * B[0] + C[0]]. *)
Definition vDSP_vsmsa (A : ptr) (IA : Z) (B : ptr) (C : ptr)
    (D : ptr) (ID : Z) (N : Z) (h : Heap) : option Heap :=
  b ← load_float h B;
  binary_loop (float2 (fun a c => f32_add (f32_mul a b) c))
    A IA C 0 D ID 0 (Z.to_nat N) h.

(** [C[n] = B[n] - A[n]]. *)
Definition vDSP_vsub (A : ptr) (IA : Z) (B : ptr) (IB : Z) (C : ptr)
    (IC : Z) (N : Z) :=
  binary_loop (float2 f32_sub) B IB A IA C IC 0 (Z.to_nat N).

(** [C[n] = A[0]]. *)
Definition vDSP_vfill (A : ptr) (C : ptr) (IC : Z) (N : Z) :=
  unary_loop (float1 (fun x => x)) A 0 C IC 0 (Z.to_nat N).

(** [C[n] = float(A[n])], rounding to nearest. *)
Definition vDSP_vflt32 (A : ptr) (IA : Z) (C : ptr) (IC : Z) (N : Z) :=
  unary_loop (fun v => n ← as_int int32 v; Some (VFloat (f32 n 0)))
    A IA C IC 0 (Z.to_nat N).

Definition vDSP_vfltu32 (A : ptr) (IA : Z) (C : ptr) (IC : Z) (N : Z) :=
  unary_loop (fun v => n ← as_int uint32 v; Some (VFloat (f32 n 0)))
    A IA C IC 0 (Z.to_nat N).

(** The running sum [C[0] = 0; C[m] = C[m-1] + S * A[m]] for [0 < m < N]:
    [A[0]] is not read. *)
Fixpoint vrsum_loop (A : ptr) (IA : Z) (s : spec_float) (C : ptr) (IC : Z)
    (acc : spec_float) (m : Z) (n : nat) (h : Heap) : option Heap :=
  match n with
  | O => Some h
  | S n' =>
      a ← load_float h (ptr_add A (m * IA));
      let acc' := f32_add acc (f32_mul s a) in
      h' ← store h (ptr_add C (m * IC)) (VFloat acc');
      vrsum_loop A IA s C IC acc' (m + 1) n' h'
  end.

Definition vDSP_vrsum (A : ptr) (IA : Z) (S : ptr) (C : ptr)
    (IC : Z) (N : Z) (h : Heap) : option Heap :=
  match Z.to_nat N with
  | O => Some h
  | Datatypes.S n' =>
      s ← load_float h S;
      h0 ← store h C (VFloat f32_zero);
      vrsum_loop A IA s C IC f32_zero 1 n' h0
  end.

(** [C[n] = int(A[n])], rounding toward zero.  A value outside the target
    range (or not finite) has no defined result. *)
Definition fix_to (d : Dtype) (lo hi : Z) (v : scalar) : option scalar :=
  x ← as_float v;
  n ← f32_trunc x;
  if (lo <=? n) && (n <=? hi) then Some (VInt d n) else None.

Definition vDSP_vfix32 (A : ptr) (IA : Z) (C : ptr) (IC : Z) (N : Z) :=
  unary_loop (fix_to int32 INT_MIN INT_MAX) A IA C IC 0 (Z.to_nat N).

Definition vDSP_vfixu32 (A : ptr) (IA : Z) (C : ptr) (IC : Z) (N : Z) :=
  unary_loop (fix_to uint32 0 UINT_MAX) A IA C IC 0 (Z.to_nat N).

(** The scalar functions behind the vForce routines and behind the [std::]
    calls of the generic functors.  They are transcendental (or rounded in a
    way the platform does not document), so the development is parametric in
    them. *)
Class MathLib := {
  acosf : spec_float -> spec_float;
  acoshf : spec_float -> spec_float;
  asinf : spec_float -> spec_float;
  asinhf : spec_float -> spec_float;
  atanf : spec_float -> spec_float;
  atanhf : spec_float -> spec_float;
  cosf : spec_float -> spec_float;
  coshf : spec_float -> spec_float;
  expf : spec_float -> spec_float;
  logf : spec_float -> spec_float;
  log2f : spec_float -> spec_float;
  log10f : spec_float -> spec_float;
  log1pf : spec_float -> spec_float;
  powf : spec_float -> spec_float -> spec_float;
  rsqrtf : spec_float -> spec_float;
  sinf : spec_float -> spec_float;
  sinhf : spec_float -> spec_float;
  sqrtf : spec_float -> spec_float;
  tanf : spec_float -> spec_float;
  tanhf : spec_float -> spec_float;
  (** [std::exp] and [std::log1p] at an element type other than float *)
  std_exp : Dtype -> scalar -> option scalar;
  std_log1p : Dtype -> scalar -> option scalar
}.

Section Kernels.
Context `{MathLib}.

(** The one-argument vForce routines: [y[i] = f(x[i])] for [i < *n]. *)
Definition vForce1 (f : spec_float -> spec_float) (y x : ptr) (n : Z) :=
  unary_loop (float1 f) x 1 y 1 0 (Z.to_nat n).

Definition vvacosf := vForce1 acosf.
Definition vvacoshf := vForce1 acoshf.
Definition vvasinf := vForce1 asinf.
Definition vvasinhf := vForce1 asinhf.
Definition vvatanf := vForce1 atanf.
Definition vvatanhf := vForce1 atanhf.
Definition vvcosf := vForce1 cosf.
Definition vvcoshf := vForce1 coshf.
Definition vvexpf := vForce1 expf.
Definition vvlogf := vForce1 logf.
Definition vvlog2f := vForce1 log2f.
Definition vvlog10f := vForce1 log10f.
Definition vvlog1pf := vForce1 log1pf.
Definition vvrsqrtf := vForce1 rsqrtf.
Definition vvsinf := vForce1 sinf.
Definition vvsinhf := vForce1 sinhf.
Definition vvsqrtf := vForce1 sqrtf.
Definition vvtanf := vForce1 tanf.
Definition vvtanhf := vForce1 tanhf.

(** [z[i] = powf(x[i], y[i])]: the exponents come first. *)
Definition vvpowf (z y x : ptr) (n : Z) :=
  binary_loop (float2 powf) x 1 y 1 z 1 0 (Z.to_nat n).

(** [z[i] = remainderf(y[i], x[i])]: the IEEE-754 remainder. *)
Definition vvremainderf (z y x : ptr) (n : Z) :=
  binary_loop (float2 f32_remainder) y 1 x 1 z 1 0 (Z.to_nat n).
End Kernels.

(** ** The common backend

    [mlx/backend/common/unary.h], [binary.h] and the backend-agnostic
    [Primitive::eval] are not part of the translation units.  The storage
    rule and the two element-wise engines are modelled from the spec; what
    the spec leaves open is a parameter. *)

(** The structural cases the binary engine distinguishes. *)
Inductive BinaryOpType := ScalarVector | VectorScalar | VectorVector | General.

(** A functor instantiated at an element type. *)
Definition UnaryOp := Dtype -> scalar -> option scalar.
Definition BinaryOp := Dtype -> scalar -> scalar -> option scalar.

(** A specialised kernel [(const T* a, const T* b, T* o, n)]. *)
Definition Kernel := ptr -> ptr -> ptr -> Z -> Heap -> option Heap.

(** The sentinel that asks for the generic per-element path. *)
Definition UseDefaultBinaryOp : option Kernel := None.

Class CommonBackend := {
  (** [Primitive::eval], single-output and multi-output *)
  eval : Primitive -> list array -> array -> Heap -> Result Heap (array * Heap);
  eval_multi : Primitive -> list array -> list array -> Heap ->
               Result Heap (list array * Heap);
  (** the strided path of the unary engine, for a non-contiguous input *)
  unary_general : UnaryOp -> array -> array -> Heap -> option (array * Heap);
  (** the broadcasting path of the binary engine *)
  binary_general : BinaryOp -> array -> array -> array -> Heap ->
                   option (array * Heap);
  (** the functor [AbsOp] *)
  AbsOp : UnaryOp
}.

(** Modelled from the spec: [set_unary_output_data] ([common/unary.h]) is the
    donation rule for one source: the source qualifies iff it is donatable
    and its itemsize equals the output's; otherwise fresh storage for the
    source's elements is requested, in the source's layout. *)
Definition set_unary_output_data (in_ out : array) (h : Heap)
  : array * Heap :=
  if is_donatable h in_ && (itemsize in_ =? itemsize out)
  then copy_shared_buffer out in_ h
  else
    let '(p, h1) := malloc_or_wait (data_size in_) h in
    let '(out1, h2) := set_data out p h1 in
    ({| dtype := dtype out1; shape := shape out1; strides := strides in_;
        flags := flags in_; data_size := data_size in_;
        data := data out1 |}, h2).

Definition run (k : Heap -> option Heap) (out : array) (h : Heap)
  : Result Heap (array * Heap) :=
  h' ← of_option (k h); Ok (out, h').

Section Common.
Context `{CommonBackend}.

(** Modelled from the spec: [unary(in, out, op)] ([common/unary.h]) acquires
    the output storage by the donation rule and writes [op(in[i])] to
    every element; a contiguous input is swept densely. *)
Definition unary (in_ out : array) (op : UnaryOp) (h : Heap)
  : Result Heap (array * Heap) :=
  if contiguous (flags in_) then
    let '(out, h) := set_unary_output_data in_ out h in
    A ← of_option (data_ptr in_);
    C ← of_option (data_ptr out);
    run (unary_loop (op (dtype out)) A 1 C 1 0 (Z.to_nat (data_size in_)))
        out h
  else of_option (unary_general op in_ out h).

(** Modelled from the spec: [unary_fp] has the contract of [unary] but
    fails with an argument error when the output dtype is not a
    floating-point kind. *)
Definition unary_fp (in_ out : array) (op : UnaryOp) (h : Heap)
  : Result Heap (array * Heap) :=
  if is_floating_point (dtype out) then unary in_ out op h
  else Throw (invalid_argument "[unary_fp] Unsupported output type.") h.

(** Modelled from the spec: the structural case of a pair of operands.  A
    scalar operand has a single element; the vector-vector case needs
    matching contiguous layout and equal size. *)
Definition get_binary_op_type (a b : array) : BinaryOpType :=
  if (data_size a =? 1) && contiguous (flags b) then ScalarVector
  else if (data_size b =? 1) && contiguous (flags a) then VectorScalar
  else if ((row_contiguous (flags a) && row_contiguous (flags b))
           || (col_contiguous (flags a) && col_contiguous (flags b)))
          && (data_size a =? data_size b)
  then VectorVector
  else General.

(** Modelled from the spec: output storage of the binary engine, by the
    donation rule over the dense operands in the order [a], [b]. *)
Definition set_binary_op_output_data (a b out : array)
    (bopt : BinaryOpType) (h : Heap) : array * Heap :=
  match bopt with
  | ScalarVector => set_unary_output_data b out h
  | VectorScalar => set_unary_output_data a out h
  | _ =>
      if is_donatable h a && (itemsize a =? itemsize out)
      then copy_shared_buffer out a h
      else set_unary_output_data b out h
  end.

(** Modelled from the spec: [binary(a, b, out, op, opsv, opvs, opvv)]
    ([common/binary.h]) inspects the structural case first and, within
    it, uses the supplied kernel if present and the per-element
    application of [op] otherwise. *)
Definition binary (a b out : array) (op : BinaryOp)
    (opsv opvs opvv : option Kernel) (h : Heap) : Result Heap (array * Heap) :=
  match get_binary_op_type a b with
  | General => of_option (binary_general op a b out h)
  | bopt =>
      let '(out, h) := set_binary_op_output_data a b out bopt h in
      A ← of_option (data_ptr a);
      B ← of_option (data_ptr b);
      C ← of_option (data_ptr out);
      match bopt with
      | ScalarVector =>
          let n := data_size b in
          match opsv with
          | Some k => run (k A B C n) out h
          | None =>
              run (binary_loop (op (dtype out)) A 0 B 1 C 1 0 (Z.to_nat n))
                  out h
          end
      | VectorScalar =>
          let n := data_size a in
          match opvs with
          | Some k => run (k A B C n) out h
          | None =>
              run (binary_loop (op (dtype out)) A 1 B 0 C 1 0 (Z.to_nat n))
                  out h
          end
      | _ =>
          let n := data_size a in
          match opvv with
          | Some k => run (k A B C n) out h
          | None =>
              run (binary_loop (op (dtype out)) A 1 B 1 C 1 0 (Z.to_nat n))
                  out h
          end
      end
  end.
End Common.

(** ** Generic functors of the translation unit *)

(** A lambda over [auto] arguments, instantiated at the element type:
    float32 and the integral kinds are modelled. *)
Definition arith1 (ff : spec_float -> spec_float) (fi : Z -> Z) : UnaryOp :=
  fun d =>
    if bool_decide (d = float32) then float1 ff
    else if is_integral d then int1 d fi
    else fun _ => None.

Definition arith2 (ff : spec_float -> spec_float -> spec_float)
    (fi : Dtype -> scalar -> scalar -> option scalar) : BinaryOp :=
  fun d =>
    if bool_decide (d = float32) then float2 ff
    else if is_integral d then fi d
    else fun _ _ => None.

(** [[](auto x, auto y) { return x + y; }] and its siblings. *)
Definition plus : BinaryOp := arith2 f32_add (fun d => int2 d Z.add).
Definition minus : BinaryOp := arith2 f32_sub (fun d => int2 d Z.sub).
Definition times : BinaryOp := arith2 f32_mul (fun d => int2 d Z.mul).
Definition divides : BinaryOp :=
  arith2 f32_div (fun d => int_div2 d Z.quot).

(** [[](auto x) { return -x; }] and [[](auto x) { return x * x; }]. *)
Definition negate : UnaryOp := arith1 f32_neg Z.opp.
Definition square : UnaryOp := arith1 (fun x => f32_mul x x) (fun n => n * n).

(** [RemainderFn]: [std::fmod] when the element type is not integral,
    [numerator % denominator] when it is. *)
Definition RemainderFn : BinaryOp :=
  fun d =>
    if negb (is_integral d)
    then (if bool_decide (d = float32) then float2 f32_fmod
          else fun _ _ => None)
    else int_div2 d Z.rem.

(** ** The optimized CPU backend ([accelerate/primitives.cpp]) *)

(** [v[i]] of a [std::vector<int>]. *)
Definition index (l : list Z) (i : Z) : option Z :=
  if 0 <=? i then l !! Z.to_nat i else None.

Section Accelerate.
Context `{MathLib} `{CommonBackend}.

(** [DEFAULT(primitive)] and [DEFAULT_MULTI(primitive)]. *)
Definition DEFAULT (primitive : Primitive) (inputs : list array)
    (out : array) (h : Heap) : Result Heap (array * Heap) :=
  eval primitive inputs out h.

Definition DEFAULT_MULTI (primitive : Primitive) (inputs : list array)
    (outputs : list array) (h : Heap) : Result Heap (list array * Heap) :=
  eval_multi primitive inputs outputs h.

Definition Abs_eval_cpu (inputs : list array) (out : array) (h : Heap)
  : Result Heap (array * Heap) :=
  match inputs with
  | [in_] =>
      if dtype_eqb (dtype in_) float32 && contiguous (flags in_) then
        let '(out, h) := set_unary_output_data in_ out h in
        A ← of_option (data_ptr in_);
        C ← of_option (data_ptr out);
        run (vDSP_vabs A 1 C 1 (data_size in_)) out h
      else if dtype_eqb (dtype in_) int32 && contiguous (flags in_) then
        let '(out, h) := set_unary_output_data in_ out h in
        A ← of_option (data_ptr in_);
        C ← of_option (data_ptr out);
        run (vDSP_vabsi A 1 C 1 (data_size in_)) out h
      else if is_unsigned (dtype in_) then
        Ok (copy_shared_buffer out in_ h)
      else unary in_ out AbsOp h
  | _ => Undefined
  end.

Definition Add_eval_cpu (inputs : list array) (out : array) (h : Heap)
  : Result Heap (array * Heap) :=
  match inputs with
  | [a; b] =>
      if dtype_eqb (dtype a) float32 then
        binary a b out plus
          (Some (fun s vec o n => vDSP_vsadd vec 1 s o 1 n))
          (Some (fun vec s o n => vDSP_vsadd vec 1 s o 1 n))
          (Some (fun a b o n => vDSP_vadd a 1 b 1 o 1 n))
          h
      else if dtype_eqb (dtype a) int32 then
        binary a b out plus
          (Some (fun s vec o n => vDSP_vsaddi vec 1 s o 1 n))
          (Some (fun vec s o n => vDSP_vsaddi vec 1 s o 1 n))
          (Some (fun a b o n => vDSP_vaddi a 1 b 1 o 1 n))
          h
      else binary a b out plus None None None h
  | _ => Undefined
  end.

(** The body shared by the vForce-backed operations [ArcCos] ... [Tanh]:
    the routine [vv] runs over the input's [data_size] elements, stored in
    an [int]. *)
Definition vForce_eval_cpu (self : Primitive)
    (vv : ptr -> ptr -> Z -> Heap -> option Heap)
    (inputs : list array) (out : array) (h : Heap)
  : Result Heap (array * Heap) :=
  match inputs with
  | [in_] =>
      if dtype_eqb (dtype out) float32 && contiguous (flags in_) then
        let '(out, h) := set_unary_output_data in_ out h in
        let size := to_int (data_size in_) in
        y ← of_option (data_ptr out);
        x ← of_option (data_ptr in_);
        run (vv y x size) out h
      else eval self inputs out h
  | _ => Undefined
  end.

Definition ArcCos_eval_cpu := vForce_eval_cpu ArcCos vvacosf.
Definition ArcCosh_eval_cpu := vForce_eval_cpu ArcCosh vvacoshf.
Definition ArcSin_eval_cpu := vForce_eval_cpu ArcSin vvasinf.
Definition ArcSinh_eval_cpu := vForce_eval_cpu ArcSinh vvasinhf.
Definition ArcTan_eval_cpu := vForce_eval_cpu ArcTan vvatanf.
Definition ArcTanh_eval_cpu := vForce_eval_cpu ArcTanh vvatanhf.
Definition Cos_eval_cpu := vForce_eval_cpu Cos vvcosf.
Definition Cosh_eval_cpu := vForce_eval_cpu Cosh vvcoshf.
Definition Sin_eval_cpu := vForce_eval_cpu Sin vvsinf.
Definition Sinh_eval_cpu := vForce_eval_cpu Sinh vvsinhf.
Definition Tan_eval_cpu := vForce_eval_cpu Tan vvtanf.
Definition Tanh_eval_cpu := vForce_eval_cpu Tanh vvtanhf.

(** [switch (base_)] selects the routine of [Log]. *)
Definition Log_eval_cpu (base_ : Base) :=
  vForce_eval_cpu (Log base_)
    match base_ with
    | Base_e => vvlogf
    | Base_two => vvlog2f
    | Base_ten => vvlog10f
    end.

(** [if (recip_)] selects the routine of [Sqrt]; the fast path is guarded
    by the input's dtype. *)
Definition Sqrt_eval_cpu (recip_ : bool) (inputs : list array)
    (out : array) (h : Heap) : Result Heap (array * Heap) :=
  match inputs with
  | [in_] =>
      if dtype_eqb (dtype in_) float32 && contiguous (flags in_) then
        let '(out, h) := set_unary_output_data in_ out h in
        let size := to_int (data_size in_) in
        y ← of_option (data_ptr out);
        x ← of_option (data_ptr in_);
        if recip_ then run (vvrsqrtf y x size) out h
        else run (vvsqrtf y x size) out h
      else eval (Sqrt recip_) inputs out h
  | _ => Undefined
  end.

Definition AsType_eval_cpu (inputs : list array) (out : array) (h : Heap)
  : Result Heap (array * Heap) :=
  match inputs with
  | [in_] =>
      let fast (vDSP : ptr -> Z -> ptr -> Z -> Z -> Heap -> option Heap) :=
        let '(out, h) := set_unary_output_data in_ out h in
        A ← of_option (data_ptr in_);
        C ← of_option (data_ptr out);
        run (vDSP A 1 C 1 (data_size in_)) out h in
      if contiguous (flags in_) then
        if dtype_eqb (dtype in_) float32 && dtype_eqb (dtype out) uint32
        then fast vDSP_vfixu32
        else if dtype_eqb (dtype in_) float32 && dtype_eqb (dtype out) int32
        then fast vDSP_vfix32
        else if dtype_eqb (dtype in_) uint32 && dtype_eqb (dtype out) float32
        then fast vDSP_vfltu32
        else if dtype_eqb (dtype in_) int32 && dtype_eqb (dtype out) float32
        then fast vDSP_vflt32
        else eval AsType inputs out h
      else eval AsType inputs out h
  | _ => Undefined
  end.

Definition Divide_eval_cpu (inputs : list array) (out : array) (h : Heap)
  : Result Heap (array * Heap) :=
  match inputs with
  | [a; b] =>
      if dtype_eqb (dtype a) int32 then
        binary a b out divides
          UseDefaultBinaryOp
          (Some (fun vec s o n => vDSP_vsdivi vec 1 s o 1 n))
          (Some (fun a b o n => vDSP_vdivi b 1 a 1 o 1 n))
          h
      else if dtype_eqb (dtype a) float32 then
        binary a b out divides
          (Some (fun s vec o n => vDSP_svdiv s vec 1 o 1 n))
          (Some (fun vec s o n => vDSP_vsdiv vec 1 s o 1 n))
          (Some (fun a b o n => vDSP_vdiv b 1 a 1 o 1 n))
          h
      else binary a b out divides None None None h
  | _ => Undefined
  end.

Definition Remainder_eval_cpu (inputs : list array) (out : array)
    (h : Heap) : Result Heap (array * Heap) :=
  match inputs with
  | [a; b] =>
      if dtype_eqb (dtype a) float32 then
        binary a b out RemainderFn
          UseDefaultBinaryOp
          UseDefaultBinaryOp
          (Some (fun a b o n =>
                   let num_el := to_int n in
                   vvremainderf o a b num_el))
          h
      else binary a b out RemainderFn None None None h
  | _ => Undefined
  end.

Definition Exp_eval_cpu (inputs : list array) (out : array) (h : Heap)
  : Result Heap (array * Heap) :=
  match inputs with
  | [in_] =>
      if dtype_eqb (dtype out) float32 && contiguous (flags in_) then
        let '(out, h) := set_unary_output_data in_ out h in
        let size := data_size in_ in
        y ← of_option (data_ptr out);
        x ← of_option (data_ptr in_);
        run (vvexpf y x (to_int size)) out h
      else if is_floating_point (dtype out) then
        unary_fp in_ out std_exp h
      else
        Throw (invalid_argument
                 ("[exp] Cannot exponentiate elements in array"
                  +:+ " with non floating point type.")) h
  | _ => Undefined
  end.

Definition Full_eval_cpu (inputs : list array) (out : array) (h : Heap)
  : Result Heap (array * Heap) :=
  match inputs with
  | [in_] =>
      if dtype_eqb (dtype in_) (dtype out) then
        if (data_size in_ =? 1) && dtype_eqb (dtype out) float32 then
          let '(out, h) := set_data_fresh out h in
          A ← of_option (data_ptr in_);
          C ← of_option (data_ptr out);
          run (vDSP_vfill A C 1 (size out)) out h
        else eval Full inputs out h
      else Undefined
  | _ => Undefined
  end.

Definition Log1p_eval_cpu (inputs : list array) (out : array) (h : Heap)
  : Result Heap (array * Heap) :=
  match inputs with
  | [in_] =>
      if dtype_eqb (dtype out) float32 && contiguous (flags in_) then
        let '(out, h) := set_unary_output_data in_ out h in
        let size := data_size in_ in
        y ← of_option (data_ptr out);
        x ← of_option (data_ptr in_);
        run (vvlog1pf y x (to_int size)) out h
      else if is_floating_point (dtype out) then
        unary_fp in_ out std_log1p h
      else
        Throw (invalid_argument
                 ("[log1p] Cannot compute log of elements in array with"
                  +:+ " non floating point type.")) h
  | _ => Undefined
  end.

Definition Multiply_eval_cpu (inputs : list array) (out : array)
    (h : Heap) : Result Heap (array * Heap) :=
  match inputs with
  | [a; b] =>
      if dtype_eqb (dtype a) float32 then
        binary a b out times
          (Some (fun s vec o n => vDSP_vsmul vec 1 s o 1 n))
          (Some (fun vec s o n => vDSP_vsmul vec 1 s o 1 n))
          (Some (fun a b o n => vDSP_vmul a 1 b 1 o 1 n))
          h
      else binary a b out times None None None h
  | _ => Undefined
  end.

Definition Negative_eval_cpu (inputs : list array) (out : array)
    (h : Heap) : Result Heap (array * Heap) :=
  match inputs with
  | [in_] =>
      if dtype_eqb (dtype in_) float32 && contiguous (flags in_) then
        let '(out, h) := set_unary_output_data in_ out h in
        A ← of_option (data_ptr in_);
        C ← of_option (data_ptr out);
        run (vDSP_vneg A 1 C 1 (data_size in_)) out h
      else unary in_ out negate h
  | _ => Undefined
  end.

Definition Power_eval_cpu (inputs : list array) (out : array) (h : Heap)
  : Result Heap (array * Heap) :=
  match inputs with
  | [a; b] =>
      if dtype_eqb (dtype out) float32 && row_contiguous (flags a)
         && row_contiguous (flags b) then
        let size_ := to_int (size a) in
        let '(out, h) :=
          if is_donatable h a && (itemsize a =? itemsize out)
          then copy_shared_buffer out a h
          else if is_donatable h b && (itemsize b =? itemsize out)
          then copy_shared_buffer out b h
          else set_data_fresh out h in
        z ← of_option (data_ptr out);
        y ← of_option (data_ptr b);
        x ← of_option (data_ptr a);
        run (vvpowf z y x size_) out h
      else eval Power inputs out h
  | _ => Undefined
  end.

(** The forward loop of [Scan]: one running sum per row, reading from one
    element before the row. *)
Fixpoint scan_forward (count : nat) (input output : ptr) (s : ptr)
    (stride : Z) (h : Heap) : option Heap :=
  match count with
  | O => Some h
  | S count' =>
      h' ← vDSP_vrsum (ptr_add input (-1)) 1 s output 1 stride h;
      scan_forward count' (ptr_add input stride) (ptr_add output stride)
        s stride h'
  end.

(** The reverse loop of [Scan]: both pointers move to the last element of
    the row and the running sum walks backward. *)
Fixpoint scan_reverse (count : nat) (input output : ptr) (s : ptr)
    (stride : Z) (h : Heap) : option Heap :=
  match count with
  | O => Some h
  | S count' =>
      let input := ptr_add input (stride - 1) in
      let output := ptr_add output (stride - 1) in
      h' ← vDSP_vrsum (ptr_add input 1) (-1) s output (-1) stride h;
      scan_reverse count' (ptr_add input 1) (ptr_add output 1) s stride h'
  end.

Definition Scan_eval_cpu (reduce_type_ : ReduceType) (axis_ : Z)
    (reverse_ inclusive_ : bool) (inputs : list array) (out : array)
    (h : Heap) : Result Heap (array * Heap) :=
  match inputs with
  | [in_] =>
      let generic :=
        eval (Scan reduce_type_ axis_ reverse_ inclusive_) inputs out h in
      if bool_decide (reduce_type_ = Scan_Sum)
         && dtype_eqb (dtype out) float32
         && row_contiguous (flags in_) then
        st ← of_option (index (strides in_) axis_);
        if (st =? 1) && negb inclusive_ then
          let '(out, h) := set_data_fresh out h in
          stride ← of_option (index (shape in_) axis_);
          if stride =? 0 then Undefined else
          let count := to_int (size in_ / stride) in
          input ← of_option (data_ptr in_);
          output ← of_option (data_ptr out);
          let s := Stack (VFloat f32_one) 0 in
          if negb reverse_ then
            run (scan_forward (Z.to_nat count) input output s stride) out h
          else
            run (scan_reverse (Z.to_nat count) input output s stride) out h
        else generic
      else generic
  | _ => Undefined
  end.

Definition Square_eval_cpu (inputs : list array) (out : array) (h : Heap)
  : Result Heap (array * Heap) :=
  match inputs with
  | [in_] =>
      if dtype_eqb (dtype in_) float32 && contiguous (flags in_) then
        let '(out, h) := set_unary_output_data in_ out h in
        let size := data_size in_ in
        A ← of_option (data_ptr in_);
        C ← of_option (data_ptr out);
        run (vDSP_vsq A 1 C 1 size) out h
      else unary in_ out square h
  | _ => Undefined
  end.

Definition Subtract_eval_cpu (inputs : list array) (out : array)
    (h : Heap) : Result Heap (array * Heap) :=
  match inputs with
  | [a; b] =>
      if dtype_eqb (dtype a) float32 then
        binary a b out minus
          (Some (fun s vec o n =>
                   let minus_1 := Stack (VFloat (f32 (-1) 0)) 0 in
                   vDSP_vsmsa vec 1 minus_1 s o 1 n))
          (Some (fun vec s o n h =>
                   s0 ← load_float h s;
                   let val := Stack (VFloat (f32_neg s0)) 0 in
                   vDSP_vsadd vec 1 val o 1 n h))
          (Some (fun a b o n => vDSP_vsub b 1 a 1 o 1 n))
          h
      else if dtype_eqb (dtype a) int32 then
        binary a b out minus
          UseDefaultBinaryOp
          (Some (fun vec s o n h =>
                   s0 ← load_int int32 h s;
                   let val := Stack (VInt int32 (to_int (- s0))) 0 in
                   vDSP_vsaddi vec 1 val o 1 n h))
          UseDefaultBinaryOp
          h
      else binary a b out minus None None None h
  | _ => Undefined
  end.

(** The entry points the translation unit defines. *)
Inductive CpuEntryPoint :=
| Single_cpu (f : list array -> array -> Heap -> Result Heap (array * Heap))
| Multi_cpu (f : list array -> list array -> Heap ->
                 Result Heap (list array * Heap)).

Definition eval_cpu (p : Primitive) : option CpuEntryPoint :=
  match p with
  | Arange | ArgPartition | ArgReduce | ArgSort | AsStrided | Broadcast
  | Ceil | Concatenate | Copy | Equal | Erf | ErfInv | FFT | Floor | Gather
  | Greater | GreaterEqual | Less | LessEqual | Load | LogicalNot
  | LogicalAnd | LogicalOr | LogAddExp | Maximum | Minimum | NotEqual | Pad
  | Partition | RandomBits | Reshape | Round | Scatter | Sigmoid | Sign
  | Slice | Sort | StopGradient | Transpose => Some (Single_cpu (DEFAULT p))
  | Compiled | CustomVJP | Depends | DivMod | QRF | Split =>
      Some (Multi_cpu (DEFAULT_MULTI p))
  | Abs => Some (Single_cpu Abs_eval_cpu)
  | Add => Some (Single_cpu Add_eval_cpu)
  | ArcCos => Some (Single_cpu ArcCos_eval_cpu)
  | ArcCosh => Some (Single_cpu ArcCosh_eval_cpu)
  | ArcSin => Some (Single_cpu ArcSin_eval_cpu)
  | ArcSinh => Some (Single_cpu ArcSinh_eval_cpu)
  | ArcTan => Some (Single_cpu ArcTan_eval_cpu)
  | ArcTanh => Some (Single_cpu ArcTanh_eval_cpu)
  | AsType => Some (Single_cpu AsType_eval_cpu)
  | Cos => Some (Single_cpu Cos_eval_cpu)
  | Cosh => Some (Single_cpu Cosh_eval_cpu)
  | Divide => Some (Single_cpu Divide_eval_cpu)
  | Remainder => Some (Single_cpu Remainder_eval_cpu)
  | Exp => Some (Single_cpu Exp_eval_cpu)
  | Full => Some (Single_cpu Full_eval_cpu)
  | Log base_ => Some (Single_cpu (Log_eval_cpu base_))
  | Log1p => Some (Single_cpu Log1p_eval_cpu)
  | Multiply => Some (Single_cpu Multiply_eval_cpu)
  | Negative => Some (Single_cpu Negative_eval_cpu)
  | Power => Some (Single_cpu Power_eval_cpu)
  | Scan reduce_type_ axis_ reverse_ inclusive_ =>
      Some (Single_cpu (Scan_eval_cpu reduce_type_ axis_ reverse_ inclusive_))
  | Sin => Some (Single_cpu Sin_eval_cpu)
  | Sinh => Some (Single_cpu Sinh_eval_cpu)
  | Square => Some (Single_cpu Square_eval_cpu)
  | Sqrt recip_ => Some (Single_cpu (Sqrt_eval_cpu recip_))
  | Subtract => Some (Single_cpu Subtract_eval_cpu)
  | Tan => Some (Single_cpu Tan_eval_cpu)
  | Tanh => Some (Single_cpu Tanh_eval_cpu)
  | AddMM | Convolution | Matmul | QuantizedMatmul | Reduce | Softmax =>
      None
  end.
End Accelerate.

(** ** Test vectors *)

(** An instance of the parameters on which the model can be run: the
    transcendental functions and the parts of the common backend outside
    the translation units are left uninterpreted (NaN, no defined result);
    [sqrtf] is the correctly rounded square root. *)
Definition test_math : MathLib := {|
  acosf := fun _ => S754_nan; acoshf := fun _ => S754_nan;
  asinf := fun _ => S754_nan; asinhf := fun _ => S754_nan;
  atanf := fun _ => S754_nan; atanhf := fun _ => S754_nan;
  cosf := fun _ => S754_nan; coshf := fun _ => S754_nan;
  expf := fun _ => S754_nan; logf := fun _ => S754_nan;
  log2f := fun _ => S754_nan; log10f := fun _ => S754_nan;
  log1pf := fun _ => S754_nan; powf := fun _ _ => S754_nan;
  rsqrtf := fun x => f32_div f32_one (f32_sqrt x);
  sinf := fun _ => S754_nan; sinhf := fun _ => S754_nan;
  sqrtf := f32_sqrt;
  tanf := fun _ => S754_nan; tanhf := fun _ => S754_nan;
  std_exp := fun _ _ => None; std_log1p := fun _ _ => None
|}.

Definition test_common : CommonBackend := {|
  eval := fun _ _ _ _ => Undefined;
  eval_multi := fun _ _ _ _ => Undefined;
  unary_general := fun _ _ _ _ => None;
  binary_general := fun _ _ _ _ _ => None;
  AbsOp := arith1 f32_abs Z.abs
|}.

Definition dense : Flags :=
  {| contiguous := true; row_contiguous := true; col_contiguous := true |}.

(** A row-contiguous vector of [n] elements of dtype [d] on block [p]. *)
Definition vector (d : Dtype) (n : Z) (p : option positive) : array :=
  {| dtype := d; shape := [n]; strides := [1]; flags := dense;
     data_size := n; data := p |}.

(** A heap with one block, owned [k] times. *)
Definition heap1 (k : nat) (xs : list scalar) : Heap :=
  {[ 1%positive := {| owners := k; cells := xs |} ]}.

Definition floats (l : list (Z * Z)) : list scalar :=
  map (fun me => VFloat (f32 (fst me) (snd me))) l.

(** The elements of the output after an evaluation. *)
Definition result_cells (r : Result Heap (array * Heap))
  : option (list scalar) :=
  match r with
  | Ok (out, h) => p ← data out; b ← h !! p; Some (cells b)
  | _ => None
  end.

(** * Specification-side definitions *)

(** ** Outcomes *)

(** The evaluation raises no exception. *)
Definition no_throw {St A} (r : Result St A) : Prop :=
  forall e st, r <> Throw e st.

(** ** Storage and donation *)

(** A strided uint8 tensor whose storage has two owners. *)
Definition strided_u8 : array :=
  {| dtype := uint8; shape := [2]; strides := [2];
     flags := {| contiguous := false; row_contiguous := false;
                 col_contiguous := false |};
     data_size := 3; data := Some 1%positive |}.

(** The storage of tensor [a] is block [p], which holds exactly the
    elements [xs]. *)
Definition holds (h : Heap) (a : array) (p : positive) (xs : list scalar)
  : Prop :=
  data a = Some p
  /\ (exists b, h !! p = Some b /\ cells b = xs)
  /\ Z.of_nat (length xs) = data_size a.

(** The donation test of one source. *)
Definition donates (h : Heap) (src out : array) : bool :=
  is_donatable h src && (itemsize src =? itemsize out).

(** The operations of the donation property. *)
Definition donating_unary_ops `{MathLib} `{CommonBackend}
  : list (list array -> array -> Heap -> Result Heap (array * Heap)) :=
  [Abs_eval_cpu; Negative_eval_cpu; Square_eval_cpu;
   Sqrt_eval_cpu false; Sqrt_eval_cpu true].

(** A donatable float32 vector [3, -2] on block 1. *)
Definition heap_3_m2 : Heap := heap1 1 (map VFloat [f32 3 0; f32 (-2) 0]).

(** ** Conversions between float32 and 32-bit integers *)

(** The four dtype pairs with a vectorized conversion. *)
Definition AsType_fast_pair (i o : Dtype) : bool :=
  match i, o with
  | float32, uint32 | float32, int32 | uint32, float32 | int32, float32 =>
      true
  | _, _ => false
  end.

(** [k <= m * 2^e < k + 1]: [k] is the integer part of the magnitude. *)
Definition integer_part (m : positive) (e : Z) (k : Z) : Prop :=
  k * 2 ^ Z.max 0 (- e) <= Zpos m * 2 ^ Z.max 0 e
  < (k + 1) * 2 ^ Z.max 0 (- e).

(** [n] is the float [x] rounded toward zero. *)
Definition truncates_to (x : spec_float) (n : Z) : Prop :=
  match x with
  | S754_zero _ => n = 0
  | S754_finite s m e =>
      exists k, integer_part m e k /\ n = (if s then - k else k)
  | _ => False
  end.

(** The conversion of one element for a fast pair. *)
Inductive converts : Dtype -> Dtype -> scalar -> scalar -> Prop :=
| converts_f32_i32 x n :
    f32_valid x = true -> truncates_to x n -> INT_MIN <= n <= INT_MAX ->
    converts float32 int32 (VFloat x) (VInt int32 n)
| converts_f32_u32 x n :
    f32_valid x = true -> truncates_to x n -> 0 <= n <= UINT_MAX ->
    converts float32 uint32 (VFloat x) (VInt uint32 n)
| converts_i32_f32 n :
    converts int32 float32 (VInt int32 n) (VFloat (f32 n 0))
| converts_u32_f32 n :
    converts uint32 float32 (VInt uint32 n) (VFloat (f32 n 0)).

(** The float literals [1.9f] and [-2.9f]. *)
Definition f32_1_9 : spec_float := f32_div (f32 19 0) (f32 10 0).
Definition f32_m2_9 : spec_float := f32_div (f32 (-29) 0) (f32 10 0).

(** ** The power of two dense operands *)

(** The guard of the fast path of Power, in the words of the spec. *)
Definition Power_fast (a b out : array) : bool :=
  dtype_eqb (dtype out) float32
  && row_contiguous (flags a) && row_contiguous (flags b).

(** The storage the fast path of Power gives the output: [a]'s if [a]
    passes the donation test, else [b]'s if [b] passes it, else a block
    that did not exist before. *)
Definition Power_storage (h : Heap) (a b out : array) (pa pb q : positive)
  : Prop :=
  if donates h a out then q = pa
  else if donates h b out then q = pb
  else q = fresh (dom h) /\ q ∉ dom h.

(** Two row-contiguous float32 vectors [2, 3] and [3, 2] on blocks 1, 2. *)
Definition heap_pow : Heap :=
  <[2%positive := {| owners := 1; cells := map VFloat [f32 3 0; f32 2 0] |}]>
    (heap1 2 (map VFloat [f32 2 0; f32 3 0])).

(** ** Exclusive scans *)

(** The sums a running-sum sweep writes after its first element: each is
    the previous one plus the weighted input. *)
Fixpoint running_sums (s acc : spec_float) (xs : list spec_float)
  : list spec_float :=
  match xs with
  | [] => []
  | x :: xs' =>
      let acc' := f32_add acc (f32_mul s x) in
      acc' :: running_sums s acc' xs'
  end.

(** The exclusive prefix sums of a row: element [j] is the sum of the
    elements before [j], accumulated from the left. *)
Fixpoint prefix_sums (acc : spec_float) (xs : list spec_float)
  : list spec_float :=
  match xs with
  | [] => []
  | x :: xs' => acc :: prefix_sums (f32_add acc x) xs'
  end.

Definition exclusive_scan (xs : list spec_float) : list spec_float :=
  prefix_sums f32_zero xs.

(** The mirrored scan: element [j] is the sum of the elements after [j],
    accumulated from the right. *)
Definition exclusive_scan_reverse (xs : list spec_float)
  : list spec_float :=
  rev (exclusive_scan (rev xs)).

(** The first [count] rows of length [stride] of a dense buffer. *)
Fixpoint rows {A} (stride count : nat) (l : list A) : list (list A) :=
  match count with
  | O => []
  | S count' => take stride l :: rows stride count' (drop stride l)
  end.

(** The guard of the fast path of Scan, in the words of the spec: an
    exclusive Sum scan with float32 output over a row-contiguous input
    whose scanned axis has unit stride. *)
Definition Scan_fast (reduce_type_ : ReduceType) (axis_ : Z)
    (inclusive_ : bool) (in_ out : array) : bool :=
  negb inclusive_
  && bool_decide (reduce_type_ = Scan_Sum)
  && dtype_eqb (dtype out) float32
  && row_contiguous (flags in_)
  && bool_decide (index (strides in_) axis_ = Some 1).

(** The list [l] with the segment that starts at position [i] overwritten
    by [ys]. *)
Definition splice {A} (i : nat) (ys l : list A) : list A :=
  take i l ++ ys ++ drop (i + length ys) l.

(** The scan of one row, in the direction of [reverse_]. *)
Definition row_scan (reverse_ : bool) : list spec_float -> list spec_float :=
  if reverse_ then exclusive_scan_reverse else exclusive_scan.

(** The test vector of the scan: [1, 2, 3, 4]. *)
Definition v1234 : list spec_float := [f32 1 0; f32 2 0; f32 3 0; f32 4 0].

(** A row-contiguous 2x2 float32 matrix on block [p]. *)
Definition matrix22 (p : option positive) : array :=
  {| dtype := float32; shape := [2; 2]; strides := [2; 1]; flags := dense;
     data_size := 4; data := p |}.

(** ** Fast-path conditions and the generic evaluation *)

(** Two dense float32 vectors, [5.5, 5.5] on block 1 and [2, 2] on
    block 2. *)
Definition heap_rem : Heap :=
  <[2%positive := {| owners := 2; cells := map VFloat [f32 2 0; f32 2 0] |}]>
    (heap1 2 (map VFloat [f32 11 (-1); f32 11 (-1)])).

#[global] Instance BinaryOpType_eq_dec : EqDecision BinaryOpType.
Proof. solve_decision. Defined.

(** The structural cases for which an operation passes a specialised kernel
    to the binary engine, by operand dtype. *)
Definition kernel_cases (p : Primitive) (d : Dtype) : list BinaryOpType :=
  match p, d with
  | Add, float32 | Add, int32 | Divide, float32 | Multiply, float32
  | Subtract, float32 => [ScalarVector; VectorScalar; VectorVector]
  | Divide, int32 => [VectorScalar; VectorVector]
  | Subtract, int32 => [VectorScalar]
  | Remainder, float32 => [VectorVector]
  | _, _ => []
  end.

(** The fast-path condition of every operation, in the words of the spec:
    the dtype the backend accelerates for it and the layout it needs (for
    Abs, also the unsigned no-op). *)
Definition fast_path_guard (p : Primitive) (inputs : list array)
    (out : array) : bool :=
  match p, inputs with
  | Abs, [in_] =>
      (dtype_eqb (dtype in_) float32 || dtype_eqb (dtype in_) int32)
      && contiguous (flags in_)
      || is_unsigned (dtype in_)
  | (ArcCos | ArcCosh | ArcSin | ArcSinh | ArcTan | ArcTanh | Cos | Cosh
     | Exp | Log _ | Log1p | Sin | Sinh | Tan | Tanh), [in_] =>
      dtype_eqb (dtype out) float32 && contiguous (flags in_)
  | (Negative | Square | Sqrt _), [in_] =>
      dtype_eqb (dtype in_) float32 && contiguous (flags in_)
  | AsType, [in_] =>
      contiguous (flags in_) && AsType_fast_pair (dtype in_) (dtype out)
  | Full, [in_] => (data_size in_ =? 1) && dtype_eqb (dtype out) float32
  | Power, [a; b] => Power_fast a b out
  | Scan rt axis_ _ incl, [in_] => Scan_fast rt axis_ incl in_ out
  | (Add | Divide | Multiply | Subtract | Remainder), [a; b] =>
      bool_decide (get_binary_op_type a b ∈ kernel_cases p (dtype a))
  | _, _ => false
  end.

(** What the asserts of an entry point and its indexing demand of a call:
    the number of inputs, equal dtypes for Full, a valid axis for Scan. *)
Definition well_formed_call (p : Primitive) (inputs : list array)
    (out : array) : bool :=
  match p, inputs with
  | (Abs | ArcCos | ArcCosh | ArcSin | ArcSinh | ArcTan | ArcTanh | AsType
     | Cos | Cosh | Exp | Log _ | Log1p | Negative | Sin | Sinh | Square
     | Sqrt _ | Tan | Tanh), [_] => true
  | Full, [in_] => dtype_eqb (dtype in_) (dtype out)
  | Scan _ axis_ _ _, [in_] =>
      bool_decide (is_Some (index (strides in_) axis_))
  | (Add | Divide | Multiply | Power | Remainder | Subtract), [_; _] => true
  | (Abs | ArcCos | ArcCosh | ArcSin | ArcSinh | ArcTan | ArcTanh | AsType
     | Cos | Cosh | Exp | Log _ | Log1p | Negative | Sin | Sinh | Square
     | Sqrt _ | Tan | Tanh | Full | Scan _ _ _ _ | Add | Divide | Multiply
     | Power | Remainder | Subtract), _ => false
  | _, _ => true
  end.

(** The operations that refuse a non-floating output. *)
Definition floating_only (p : Primitive) : bool :=
  match p with
  | Exp | Log1p => true
  | _ => false
  end.

Section Generic.
Context `{MathLib} `{CommonBackend}.

(** The generic evaluation of every operation: the backend-agnostic
    [Primitive::eval], or the unary or binary engine with the operation's
    generic functor and no specialised kernel. *)
Definition generic_evaluation (p : Primitive) (inputs : list array)
    (out : array) (h : Heap) : Result Heap (array * Heap) :=
  match p, inputs with
  | Abs, [in_] => unary in_ out AbsOp h
  | Negative, [in_] => unary in_ out negate h
  | Square, [in_] => unary in_ out square h
  | Exp, [in_] => unary_fp in_ out std_exp h
  | Log1p, [in_] => unary_fp in_ out std_log1p h
  | Add, [a; b] => binary a b out plus None None None h
  | Divide, [a; b] => binary a b out divides None None None h
  | Multiply, [a; b] => binary a b out times None None None h
  | Subtract, [a; b] => binary a b out minus None None None h
  | Remainder, [a; b] => binary a b out RemainderFn None None None h
  | _, _ => eval p inputs out h
  end.

(** The claim of fallback selection, for one call: if the fast-path
    condition fails, the entry point is the generic evaluation. *)
Definition selects_fallback (p : Primitive) (inputs : list array)
    (out : array) (h : Heap) : Prop :=
  match eval_cpu p with
  | Some (Single_cpu f) => f inputs out h = generic_evaluation p inputs out h
  | Some (Multi_cpu f) =>
      forall outputs, f inputs outputs h = eval_multi p inputs outputs h
  | None => True
  end.

(** The same, for the operations that refuse a non-floating output: the
    entry point throws an invalid-argument error in the initial state. *)
Definition throws_invalid_argument (p : Primitive) (inputs : list array)
    (out : array) (h : Heap) : Prop :=
  match eval_cpu p with
  | Some (Single_cpu f) =>
      exists msg, f inputs out h = Throw (invalid_argument msg) h
  | _ => False
  end.
End Generic.

(** An int32 vector [0, 1] on block 1. *)
Definition heap_i01 : Heap := heap1 1 [VInt int32 0; VInt int32 1].

(** Two dense int8 vectors, [1, 2] on block 1 and [3, 4] on block 2. *)
Definition heap_i8_pair : Heap :=
  <[2%positive := {| owners := 1; cells := [VInt int8 3; VInt int8 4] |}]>
    (heap1 1 [VInt int8 1; VInt int8 2]).

(** ** Fast paths by element function *)

(** The operations with a vDSP or vForce fast path on a contiguous float32
    input, each with the element function of its routine. *)
Definition float_unary_ops `{MathLib} `{CommonBackend}
  : list ((list array -> array -> Heap -> Result Heap (array * Heap))
          * (spec_float -> spec_float)) :=
  [(Abs_eval_cpu, f32_abs); (Negative_eval_cpu, f32_neg);
   (Square_eval_cpu, fun x => f32_mul x x);
   (Sqrt_eval_cpu false, sqrtf); (Sqrt_eval_cpu true, rsqrtf)].

(** The operations whose fast path is one vForce routine over a contiguous
    input, guarded by a float32 output, each with the element function of
    its routine. *)
Definition vForce_ops `{MathLib} `{CommonBackend}
  : list ((list array -> array -> Heap -> Result Heap (array * Heap))
          * (spec_float -> spec_float)) :=
  [(ArcCos_eval_cpu, acosf); (ArcCosh_eval_cpu, acoshf);
   (ArcSin_eval_cpu, asinf); (ArcSinh_eval_cpu, asinhf);
   (ArcTan_eval_cpu, atanf); (ArcTanh_eval_cpu, atanhf);
   (Cos_eval_cpu, cosf); (Cosh_eval_cpu, coshf);
   (Exp_eval_cpu, expf);
   (Log_eval_cpu Base_e, logf); (Log_eval_cpu Base_two, log2f);
   (Log_eval_cpu Base_ten, log10f); (Log1p_eval_cpu, log1pf);
   (Sin_eval_cpu, sinf); (Sinh_eval_cpu, sinhf);
   (Tan_eval_cpu, tanf); (Tanh_eval_cpu, tanhf)].

(** Every block of [h] other than [q] is the same in [h']. *)
Definition unchanged_except (q : positive) (h h' : Heap) : Prop :=
  forall r, r ∈ dom h -> r <> q -> h' !! r = h !! r.

(** The integer dtypes with a vectorized conversion to and from float32. *)
Definition AsType_integer_dtypes : list Dtype := [int32; uint32].

(** The float32 operations of the binary engine with vDSP kernels, each
    with the element function its generic lambda computes. *)
Definition float_binary_ops `{CommonBackend}
  : list ((list array -> array -> Heap -> Result Heap (array * Heap))
          * (spec_float -> spec_float -> spec_float)) :=
  [(Add_eval_cpu, f32_add); (Subtract_eval_cpu, f32_sub);
   (Multiply_eval_cpu, f32_mul); (Divide_eval_cpu, f32_div)].

(** [x / y] and [x % y] on [int] are defined: the divisor is not zero and
    the quotient is not that of [INT_MIN] by [-1]. *)
Definition division_defined (x y : Z) : bool :=
  negb (y =? 0) && negb ((x =? INT_MIN) && (y =? -1)).

(** The binary operations on int32 operands, each with the integer
    function of its generic lambda and the operands on which it is
    defined. *)
Definition int32_binary_ops `{CommonBackend}
  : list ((list array -> array -> Heap -> Result Heap (array * Heap))
          * (Z -> Z -> Z) * (Z -> Z -> bool)) :=
  [(Add_eval_cpu, Z.add, fun _ _ => true);
   (Subtract_eval_cpu, Z.sub, fun _ _ => true);
   (Multiply_eval_cpu, Z.mul, fun _ _ => true);
   (Divide_eval_cpu, Z.quot, division_defined);
   (Remainder_eval_cpu, Z.rem, division_defined)].

(** The result [g x y] is defined and fits an [int]. *)
Definition int32_result (g : Z -> Z -> Z) (ok : Z -> Z -> bool) (x y : Z)
  : Prop :=
  ok x y = true /\ INT_MIN <= g x y <= INT_MAX.

(** The values of an integral dtype. *)
Definition representable (d : Dtype) (n : Z) : bool :=
  if bool_decide (d = bool_) then (0 <=? n) && (n <=? 1)
  else if is_signed d
       then (- 2 ^ (bits d - 1) <=? n) && (n <? 2 ^ (bits d - 1))
       else (0 <=? n) && (n <? 2 ^ bits d).

(** The exception an entry point of the backend without accelerator
    throws. *)
Definition gpu_thrown (p : Primitive) (inputs : list array) (out : array)
    (outputs : list array) : option exn :=
  match eval_gpu p with
  | Single f => thrown (f inputs out)
  | Multi f => thrown (f inputs outputs)
  end.

(** ** Further test vectors *)

(** A float32 vector [3, 5] on block 1 and a one-element float32 tensor
    [2] on block 2. *)
Definition heap_vec_scalar : Heap :=
  <[2%positive := {| owners := 1; cells := [VFloat (f32 2 0)] |}]>
    (heap1 1 (map VFloat [f32 3 0; f32 5 0])).

(** Two int32 vectors, [7, -7] on block 1 and [3, 3] on block 2. *)
Definition heap_int_pair : Heap :=
  <[2%positive := {| owners := 1;
                     cells := map (VInt int32) [3; 3] |}]>
    (heap1 1 (map (VInt int32) [7; -7])).

(** An int32 vector [7, -7] on block 1 and a one-element int32 tensor [3]
    on block 2. *)
Definition heap_int_scalar : Heap :=
  <[2%positive := {| owners := 1; cells := [VInt int32 3] |}]>
    (heap1 1 (map (VInt int32) [7; -7])).

(** * Properties *)

(** ** Results that are not exceptions *)

Lemma no_throw_of_option {St A} (o : option A) :
  no_throw (of_option (St := St) o).
Proof. destruct o; intros e st; discriminate. Qed.

Lemma no_throw_bind {St A B} (o : option A) (k : A -> Result St B) :
  (forall a, no_throw (k a)) -> no_throw (of_option o ≫= k).
Proof.
  intros Hk. destruct o as [a|]; cbn.
  - apply Hk.
  - intros e st; discriminate.
Qed.

Lemma no_throw_run (k : Heap -> option Heap) (out : array) (h : Heap) :
  no_throw (run k out h).
Proof.
  unfold run. apply no_throw_bind. intros a e st; discriminate.
Qed.

Lemma no_throw_unary `{CommonBackend} in_ out op h :
  no_throw (unary in_ out op h).
Proof.
  unfold unary. destruct (contiguous (flags in_)).
  - destruct (set_unary_output_data in_ out h) as [out1 h1].
    apply no_throw_bind; intros A. apply no_throw_bind; intros C.
    apply no_throw_run.
  - apply no_throw_of_option.
Qed.

(** ** The backend without accelerator *)

(** C2: every entry point of the backend without accelerator, Matmul and
    QuantizedMatmul included, throws on any arguments a runtime error whose
    message is the operation's name followed by " has no GPU
    implementation.", and produces no output. *)
Theorem no_gpu_entry_points_throw (p : Primitive) :
  match eval_gpu p with
  | Single f =>
      forall inputs out,
        f inputs out
        = Throw (runtime_error (class_name p +:+ " has no GPU implementation."))
                tt
        /\ produced (f inputs out) = None
  | Multi f =>
      forall inputs outputs,
        f inputs outputs
        = Throw (runtime_error (class_name p +:+ " has no GPU implementation."))
                tt
        /\ produced (f inputs outputs) = None
  end.
Proof. destruct p; cbn; intros; split; reflexivity. Qed.

(** ** Abs of an unsigned tensor *)

Lemma unsigned_not_float32 d : is_unsigned d = true -> dtype_eqb d float32 = false.
Proof. destruct d; cbn; intros; try discriminate; reflexivity. Qed.

Lemma unsigned_not_int32 d : is_unsigned d = true -> dtype_eqb d int32 = false.
Proof. destruct d; cbn; intros; try discriminate; reflexivity. Qed.

Lemma copy_shared_buffer_data out other h :
  data (copy_shared_buffer out other h).1 = data other.
Proof. reflexivity. Qed.

Lemma copy_shared_buffer_cells out other h p :
  cells <$> (copy_shared_buffer out other h).2 !! p = cells <$> h !! p.
Proof.
  unfold copy_shared_buffer; cbn. destruct (data other) as [q|]; [|done].
  rewrite lookup_alter. case_decide; [|done]. subst q.
  by destruct (h !! p).
Qed.

Lemma copy_shared_buffer_dom out other h :
  dom (copy_shared_buffer out other h).2 = dom h.
Proof.
  unfold copy_shared_buffer; cbn. destruct (data other) as [q|]; [|done].
  apply set_eq; intros p. rewrite !elem_of_dom, lookup_alter.
  case_decide; [|done]. subst q. by rewrite fmap_is_Some.
Qed.

(** C9: for every tensor [t] of unsigned-integer dtype, whatever its layout
    flags and whether or not it is donatable, [Abs] returns an output that
    shares [t]'s storage; no block is allocated and the contents of every
    block are unchanged. *)
Theorem Abs_unsigned_shares_storage `{MathLib} `{CommonBackend}
    (t out : array) (h : Heap) :
  is_unsigned (dtype t) = true ->
  exists out' h',
    Abs_eval_cpu [t] out h = Ok (out', h')
    /\ data out' = data t
    /\ dom h' = dom h
    /\ forall p, cells <$> h' !! p = cells <$> h !! p.
Proof.
  intros Hu. unfold Abs_eval_cpu.
  rewrite (unsigned_not_float32 _ Hu), (unsigned_not_int32 _ Hu), Hu. cbn.
  exists (copy_shared_buffer out t h).1, (copy_shared_buffer out t h).2.
  split; [by destruct (copy_shared_buffer out t h)|].
  split; [apply copy_shared_buffer_data|].
  split; [apply copy_shared_buffer_dom|].
  apply copy_shared_buffer_cells.
Qed.

Lemma Abs_unsigned_shares_storage_witness :
  is_unsigned (dtype strided_u8) = true
  /\ exists out' h',
       @Abs_eval_cpu test_common [strided_u8] (vector uint8 2 None)
         (heap1 2 [VInt uint8 7; VInt uint8 8; VInt uint8 9])
       = Ok (out', h')
       /\ data out' = data strided_u8
       /\ dom h' = dom (heap1 2 [VInt uint8 7; VInt uint8 8; VInt uint8 9])
       /\ forall p, cells <$> h' !! p
            = cells <$> heap1 2 [VInt uint8 7; VInt uint8 8; VInt uint8 9] !! p.
Proof.
  split; [reflexivity|].
  apply (@Abs_unsigned_shares_storage test_math test_common). reflexivity.
Defined.

(** ** Exp and Log1p on a non-floating output *)

(** C6: [Exp] and [Log1p] throw an invalid-argument error exactly when the
    output dtype is not a floating-point kind; the error is thrown in the
    initial state, before any allocation or computation; for a
    floating-point output dtype no exception is thrown. *)
Theorem Exp_Log1p_invalid_argument `{MathLib} `{CommonBackend}
    (in_ out : array) (h : Heap) :
  (is_floating_point (dtype out) = false ->
     Exp_eval_cpu [in_] out h
     = Throw (invalid_argument
                "[exp] Cannot exponentiate elements in array with non floating point type.")
             h
     /\ Log1p_eval_cpu [in_] out h
        = Throw (invalid_argument
                   "[log1p] Cannot compute log of elements in array with non floating point type.")
                h)
  /\ (is_floating_point (dtype out) = true ->
      no_throw (Exp_eval_cpu [in_] out h)
      /\ no_throw (Log1p_eval_cpu [in_] out h)).
Proof.
  split.
  - intros Hf. unfold Exp_eval_cpu, Log1p_eval_cpu. rewrite Hf.
    assert (dtype_eqb (dtype out) float32 = false) as ->
      by (destruct (dtype out); try discriminate; reflexivity).
    cbn. split; reflexivity.
  - intros Hf. unfold Exp_eval_cpu, Log1p_eval_cpu, unary_fp. rewrite Hf.
    split.
    + destruct (dtype_eqb (dtype out) float32 && contiguous (flags in_)).
      * destruct (set_unary_output_data in_ out h) as [out1 h1].
        apply no_throw_bind; intros y. apply no_throw_bind; intros x.
        apply no_throw_run.
      * apply no_throw_unary.
    + destruct (dtype_eqb (dtype out) float32 && contiguous (flags in_)).
      * destruct (set_unary_output_data in_ out h) as [out1 h1].
        apply no_throw_bind; intros y. apply no_throw_bind; intros x.
        apply no_throw_run.
      * apply no_throw_unary.
Qed.

Lemma Exp_Log1p_invalid_argument_witness :
  (is_floating_point int32 = false
   /\ @Exp_eval_cpu test_math test_common
        [vector int32 2 (Some 1%positive)] (vector int32 2 None)
        (heap1 1 [VInt int32 0; VInt int32 1])
      = Throw (invalid_argument
                 "[exp] Cannot exponentiate elements in array with non floating point type.")
              (heap1 1 [VInt int32 0; VInt int32 1]))
  /\ (is_floating_point float16 = true
      /\ no_throw (@Log1p_eval_cpu test_math test_common
                     [vector float16 1 (Some 1%positive)]
                     (vector float16 1 None)
                     (heap1 1 [VOther float16 0]))).
Proof.
  split; (split; [reflexivity|]).
  - exact (proj1 (proj1 (@Exp_Log1p_invalid_argument test_math test_common
                  (vector int32 2 (Some 1%positive)) (vector int32 2 None)
                  (heap1 1 [VInt int32 0; VInt int32 1])) eq_refl)).
  - exact (proj2 (proj2 (@Exp_Log1p_invalid_argument test_math test_common
                  (vector float16 1 (Some 1%positive)) (vector float16 1 None)
                  (heap1 1 [VOther float16 0])) eq_refl)).
Defined.

(** ** Memory lemmas *)

Lemma Buffer_eta (b : Buffer) : {| owners := owners b; cells := cells b |} = b.
Proof. by destruct b. Qed.

Lemma load_Mem (h : Heap) p (i : nat) b :
  h !! p = Some b -> load h (Mem p (Z.of_nat i)) = cells b !! i.
Proof.
  intros Hb. unfold load. rewrite Hb. cbn.
  destruct (Z.leb_spec 0 (Z.of_nat i)); [by rewrite Nat2Z.id | lia].
Qed.

Lemma store_Mem (h : Heap) p (i : nat) b v :
  h !! p = Some b -> (i < length (cells b))%nat ->
  store h (Mem p (Z.of_nat i)) v
  = Some (<[p := {| owners := owners b; cells := <[i := v]> (cells b) |}]> h).
Proof.
  intros Hb Hi. unfold store. rewrite Hb. cbn.
  destruct (Z.leb_spec 0 (Z.of_nat i)); [|lia].
  destruct (Z.ltb_spec (Z.of_nat i) (Z.of_nat (length (cells b)))); [|lia].
  cbn. by rewrite Nat2Z.id.
Qed.

Arguments load : simpl never.
Arguments store : simpl never.

(** A store at index [i] of block [pc] leaves every block looking the same
    beyond index [i]. *)
Lemma lookup_after_store (h : Heap) pc bc (i : nat) v p b :
  h !! pc = Some bc -> h !! p = Some b ->
  exists b1,
    <[pc := {| owners := owners bc; cells := <[i := v]> (cells bc) |}]> h
      !! p = Some b1
    /\ drop (S i) (cells b1) = drop (S i) (cells b).
Proof.
  intros Hc Hp. destruct (decide (pc = p)) as [->|Hne].
  - rewrite lookup_insert_eq. eexists; split; [done|]. cbn.
    rewrite Hc in Hp. injection Hp as <-.
    apply drop_insert_lt. lia.
  - rewrite lookup_insert_ne by done. eauto.
Qed.

Lemma take_drop_cons {A} (l : list A) (i n : nat) x xs :
  take (S n) (drop i l) = x :: xs ->
  l !! i = Some x /\ take n (drop (S i) l) = xs.
Proof.
  intros Hl. destruct (drop i l) as [|y l'] eqn:Hd; [discriminate|].
  cbn in Hl. injection Hl as -> <-.
  split.
  - pose proof (lookup_drop l i 0) as E. rewrite Nat.add_0_r in E.
    by rewrite <- E, Hd.
  - replace (S i) with (i + 1)%nat by lia.
    by rewrite <- drop_drop, Hd.
Qed.

Lemma loop_result_cells {A} (l : list A) (i n : nat) y ys :
  (i < length l)%nat ->
  take (S i) (<[i := y]> l) ++ ys ++ drop (S i + n) (<[i := y]> l)
  = take i l ++ (y :: ys) ++ drop (i + S n) l.
Proof.
  intros Hi.
  rewrite (take_S_r _ _ y) by (by apply list_lookup_insert_eq).
  rewrite take_insert_ge by lia.
  rewrite drop_insert_lt by lia.
  replace (S i + n)%nat with (i + S n)%nat by lia.
  by rewrite <- app_assoc.
Qed.

(** ** The element-wise sweeps, on (possibly aliased) blocks *)

Lemma unary_loop_spec f pa pc (n : nat) :
  forall (i : nat) (h : Heap) ba bc xs ys,
    h !! pa = Some ba -> h !! pc = Some bc ->
    take n (drop i (cells ba)) = xs ->
    Forall2 (fun x y => f x = Some y) xs ys ->
    (i + n <= length (cells bc))%nat ->
    length xs = n ->
    unary_loop f (Mem pa 0) 1 (Mem pc 0) 1 (Z.of_nat i) n h
    = Some (<[pc := {| owners := owners bc;
                       cells := take i (cells bc) ++ ys
                                ++ drop (i + n) (cells bc) |}]> h).
Proof.
  induction n as [|n IH]; intros i h ba bc xs ys Ha Hc Hxs Hf Hlen Hn.
  - destruct xs; [|discriminate]. inversion Hf; subst. cbn.
    rewrite Nat.add_0_r, take_drop, Buffer_eta, insert_id; done.
  - destruct Hf as [|x y xs ys Hxy Hf]; [discriminate|].
    apply take_drop_cons in Hxs as [Hx Hxs].
    cbn [unary_loop ptr_add].
    replace (0 + Z.of_nat i * 1) with (Z.of_nat i) by lia.
    rewrite (load_Mem _ _ _ _ Ha), Hx. cbn. rewrite Hxy. cbn.
    rewrite (store_Mem _ _ _ _ _ Hc) by lia. cbn.
    destruct (lookup_after_store h pc bc i y pa ba Hc Ha) as (ba1 & Ha1 & Hd1).
    replace (Z.of_nat i + 1) with (Z.of_nat (S i)) by lia.
    rewrite (IH (S i) _ ba1 _ xs ys Ha1 (lookup_insert_eq _ _ _)); cbn.
    + rewrite insert_insert_eq. do 3 f_equal.
      apply loop_result_cells. lia.
    + by rewrite Hd1.
    + done.
    + rewrite length_insert. lia.
    + cbn in Hn. lia.
Qed.

Lemma binary_loop_spec f pa pb pc (n : nat) :
  forall (i : nat) (h : Heap) ba bb bc xs ys zs,
    h !! pa = Some ba -> h !! pb = Some bb -> h !! pc = Some bc ->
    take n (drop i (cells ba)) = xs ->
    take n (drop i (cells bb)) = ys ->
    Forall3 (fun x y z => f x y = Some z) xs ys zs ->
    (i + n <= length (cells bc))%nat ->
    length xs = n ->
    binary_loop f (Mem pa 0) 1 (Mem pb 0) 1 (Mem pc 0) 1 (Z.of_nat i) n h
    = Some (<[pc := {| owners := owners bc;
                       cells := take i (cells bc) ++ zs
                                ++ drop (i + n) (cells bc) |}]> h).
Proof.
  induction n as [|n IH]; intros i h ba bb bc xs ys zs Ha Hb Hc Hxs Hys Hf Hlen Hn.
  - destruct xs; [|discriminate]. inversion Hf; subst. cbn.
    rewrite Nat.add_0_r, take_drop, Buffer_eta, insert_id; done.
  - destruct Hf as [|x y z xs ys zs Hxy Hf]; [discriminate|].
    apply take_drop_cons in Hxs as [Hx Hxs].
    apply take_drop_cons in Hys as [Hy Hys].
    cbn [binary_loop ptr_add].
    replace (0 + Z.of_nat i * 1) with (Z.of_nat i) by lia.
    rewrite (load_Mem _ _ _ _ Ha), Hx. cbn.
    rewrite (load_Mem _ _ _ _ Hb), Hy. cbn. rewrite Hxy. cbn.
    rewrite (store_Mem _ _ _ _ _ Hc) by lia. cbn.
    destruct (lookup_after_store h pc bc i z pa ba Hc Ha) as (ba1 & Ha1 & Hd1).
    destruct (lookup_after_store h pc bc i z pb bb Hc Hb) as (bb1 & Hb1 & Hd2).
    replace (Z.of_nat i + 1) with (Z.of_nat (S i)) by lia.
    rewrite (IH (S i) _ ba1 bb1 _ xs ys zs Ha1 Hb1 (lookup_insert_eq _ _ _));
      cbn.
    + rewrite insert_insert_eq. do 3 f_equal.
      apply loop_result_cells. lia.
    + by rewrite Hd1.
    + by rewrite Hd2.
    + done.
    + rewrite length_insert. lia.
    + cbn in Hn. lia.
Qed.

(** ** Output storage *)

Lemma fresh_block_new (h : Heap) p b :
  h !! p = Some b -> fresh (dom h) <> p /\ fresh (dom h) ∉ dom h.
Proof.
  intros Hp. split; [|apply is_fresh].
  intros E. apply (is_fresh (dom h)). rewrite E.
  apply elem_of_dom. eauto.
Qed.

Lemma set_unary_output_data_fresh in_ out h :
  donates h in_ out = false ->
  set_unary_output_data in_ out h
  = ({| dtype := dtype out; shape := shape out; strides := strides in_;
        flags := flags in_; data_size := data_size in_;
        data := Some (fresh (dom h)) |},
     <[fresh (dom h) :=
         {| owners := 1;
            cells := replicate (Z.to_nat (data_size in_)) VUninit |}]> h).
Proof.
  intros Hd. unfold set_unary_output_data. unfold donates in Hd.
  rewrite Hd. cbn. f_equal. by rewrite alter_insert_eq.
Qed.

Lemma set_unary_output_data_donate in_ out h :
  donates h in_ out = true ->
  set_unary_output_data in_ out h = copy_shared_buffer out in_ h.
Proof.
  intros Hd. unfold set_unary_output_data. unfold donates in Hd.
  by rewrite Hd.
Qed.

(** The fast path of a unary operation: storage by the donation rule, then
    one dense sweep of the element function [f].  The sweep succeeds, the
    output holds the images of the input's elements, and the output's block
    is the input's exactly when the input is donated; otherwise it is a new
    block and the input's block is untouched. *)
Lemma fast_unary_spec f in_ out h p xs ys :
  holds h in_ p xs ->
  Forall2 (fun x y => f x = Some y) xs ys ->
  exists out1 h1 h2 q,
    set_unary_output_data in_ out h = (out1, h1)
    /\ data out1 = Some q
    /\ unary_loop f (Mem p 0) 1 (Mem q 0) 1 0
         (Z.to_nat (data_size in_)) h1 = Some h2
    /\ cells <$> h2 !! q = Some ys
    /\ ((donates h in_ out = true /\ q = p)
        \/ (donates h in_ out = false /\ q = fresh (dom h)
            /\ q <> p /\ (q ∉ dom h)
            /\ cells <$> h2 !! p = Some xs)).
Proof.
  intros (Hdata & (b & Hb & Hcells) & Hlen) Hf.
  assert (Hn : Z.to_nat (data_size in_) = length xs) by lia.
  assert (Hys : length ys = length xs) by (symmetry; eapply Forall2_length, Hf).
  destruct (donates h in_ out) eqn:Hd.
  - rewrite (set_unary_output_data_donate _ _ _ Hd).
    unfold copy_shared_buffer. rewrite Hdata.
    assert (Hp : alter add_owner p h !! p = Some (add_owner b))
      by (by rewrite lookup_alter_eq, Hb).
    eexists _, _, _, p. split; [reflexivity|]. split; [done|].
    split.
    { rewrite Hn. apply (unary_loop_spec f p p (length xs) 0 _ _ _ xs ys Hp Hp).
      - cbn. rewrite Hcells, drop_0. by rewrite take_ge by lia.
      - done.
      - cbn. rewrite Hcells. lia.
      - done. }
    split; [|by left].
    rewrite lookup_insert_eq. cbn. rewrite Hcells.
    rewrite drop_ge by lia. by rewrite app_nil_r.
  - rewrite (set_unary_output_data_fresh _ _ _ Hd).
    destruct (fresh_block_new h p b Hb) as [Hne Hnew].
    set (q := fresh (dom h)) in *.
    set (bq := {| owners := 1;
                  cells := replicate (Z.to_nat (data_size in_)) VUninit |}).
    assert (Hp : <[q := bq]> h !! p = Some b)
      by (by rewrite lookup_insert_ne).
    assert (Hq : <[q := bq]> h !! q = Some bq) by apply lookup_insert_eq.
    eexists _, _, _, q. split; [reflexivity|]. split; [done|].
    split.
    { rewrite Hn. apply (unary_loop_spec f p q (length xs) 0 _ _ _ xs ys Hp Hq).
      - rewrite Hcells, drop_0. by rewrite take_ge by lia.
      - done.
      - cbn. rewrite length_replicate. lia.
      - done. }
    split.
    { rewrite lookup_insert_eq. cbn.
      rewrite drop_ge by (rewrite length_replicate; lia).
      by rewrite app_nil_r. }
    right. repeat split; try done.
    rewrite lookup_insert_ne by done. by rewrite Hp; cbn; rewrite Hcells.
Qed.

(** The images of float elements under a float function. *)
Lemma float1_images (g : spec_float -> spec_float) (fs : list spec_float) :
  Forall (fun x => f32_valid x = true) fs ->
  Forall2 (fun x y => float1 g x = Some y)
    (map VFloat fs) (map (fun x => VFloat (g x)) fs).
Proof.
  induction 1 as [|x fs Hx _ IH]; cbn; constructor; [|done].
  unfold float1, as_float. by rewrite Hx.
Qed.

Lemma to_int_small n : 0 <= n <= INT_MAX -> to_int n = n.
Proof.
  unfold to_int, wrap, INT_MAX. intros Hn.
  rewrite bool_decide_eq_false_2 by discriminate.
  change (is_signed int32) with true. cbv iota.
  change (bits int32) with 32. change (32 - 1) with 31.
  rewrite Z.mod_small; lia.
Qed.

(** The outcome of a fast unary path, once its guard holds. *)
Ltac fast_unary f out Hholds Himg :=
  let out1 := fresh "out1" in
  let h1 := fresh "h1" in
  let h2 := fresh "h2" in
  let q := fresh "q" in
  let Hs := fresh "Hs" in
  let Hq := fresh "Hq" in
  let Hloop := fresh "Hloop" in
  let Hcells := fresh "Hcells" in
  let Hst := fresh "Hst" in
  destruct (fast_unary_spec f _ out _ _ _ _ Hholds Himg)
    as (out1 & h1 & h2 & q & Hs & Hq & Hloop & Hcells & Hst);
  rewrite Hs; unfold data_ptr; rewrite (proj1 Hholds), Hq; cbn;
  unfold run; try rewrite Hloop; cbn.

Lemma donation_cases (h : Heap) in_ out (p q : positive) (P : Prop) :
  (donates h in_ out = true /\ q = p)
  \/ (donates h in_ out = false /\ q = fresh (dom h) /\ q <> p
      /\ (q ∉ dom h) /\ P) ->
  (q = p <-> is_donatable h in_ = true /\ itemsize in_ = itemsize out)
  /\ (q <> p -> q = fresh (dom h) /\ q ∉ dom h).
Proof.
  unfold donates. intros [[Hd ->]|(Hd & -> & Hne & Hnew & _)].
  - apply andb_true_iff in Hd as [Hd1 Hd2]. apply Z.eqb_eq in Hd2.
    split; [tauto|]. intros Hq. by destruct Hq.
  - split; [|tauto]. split; [tauto|].
    intros [Hd1 Hd2]. rewrite Hd1 in Hd. cbn in Hd.
    apply Z.eqb_neq in Hd. tauto.
Qed.

(** The block a fast unary path leaves under the output handle: it is in
    the returned heap with the images as cells, it has two owners when the
    input was donated and one when it is new, and the returned heap has the
    blocks of the initial one and the output's, the others unchanged. *)
Lemma fast_unary_block f in_ out (h : Heap) p xs ys out1 h1 h2 q :
  holds h in_ p xs ->
  Forall2 (fun x y => f x = Some y) xs ys ->
  set_unary_output_data in_ out h = (out1, h1) ->
  data out1 = Some q ->
  unary_loop f (Mem p 0) 1 (Mem q 0) 1 0
    (Z.to_nat (data_size in_)) h1 = Some h2 ->
  exists b,
    h2 !! q = Some b /\ cells b = ys
    /\ owners b = (if bool_decide (q = p) then 2%nat else 1%nat)
    /\ dom h2 = {[q]} ∪ dom h
    /\ (forall r, r <> q -> h2 !! r = h !! r).
Proof.
  intros (Hdata & (b & Hb & Hcells) & Hlen) Hf Hs Hq Hloop.
  assert (Hn : Z.to_nat (data_size in_) = length xs) by lia.
  assert (Hys : length ys = length xs) by (symmetry; eapply Forall2_length, Hf).
  destruct (donates h in_ out) eqn:Hd.
  - rewrite (set_unary_output_data_donate _ _ _ Hd) in Hs.
    unfold copy_shared_buffer in Hs. rewrite Hdata in Hs.
    injection Hs as <- <-. cbn in Hq. injection Hq as <-.
    assert (Hp : alter add_owner p h !! p = Some (add_owner b))
      by (by rewrite lookup_alter_eq, Hb).
    rewrite Hn in Hloop.
    change (unary_loop f ?a 1 ?c 1 0)
      with (unary_loop f a 1 c 1 (Z.of_nat 0)) in Hloop.
    rewrite (unary_loop_spec f p p (length xs) 0 _ _ _ xs ys Hp Hp) in Hloop.
    + injection Hloop as <-. eexists. split; [apply lookup_insert_eq|].
      cbn. split.
      { rewrite Hcells. rewrite drop_ge by lia. by rewrite app_nil_r. }
      split.
      { rewrite bool_decide_eq_true_2 by done.
        unfold donates, is_donatable in Hd. rewrite Hdata, Hb in Hd.
        apply andb_true_iff in Hd as [Hd _]. apply Nat.eqb_eq in Hd.
        by rewrite Hd. }
      split.
      { rewrite dom_insert_L, dom_alter_L. done. }
      intros r Hr. rewrite lookup_insert_ne by done.
      by rewrite lookup_alter_ne.
    + cbn. rewrite Hcells, drop_0. by rewrite take_ge by lia.
    + done.
    + cbn. rewrite Hcells. lia.
    + done.
  - rewrite (set_unary_output_data_fresh _ _ _ Hd) in Hs.
    destruct (fresh_block_new h p b Hb) as [Hne Hnew].
    injection Hs as <- <-. cbn in Hq. injection Hq as <-.
    set (q := fresh (dom h)) in *.
    set (bq := {| owners := 1;
                  cells := replicate (Z.to_nat (data_size in_)) VUninit |})
      in *.
    assert (Hp : <[q := bq]> h !! p = Some b)
      by (by rewrite lookup_insert_ne).
    assert (Hq : <[q := bq]> h !! q = Some bq) by apply lookup_insert_eq.
    rewrite Hn in Hloop.
    change (unary_loop f ?a 1 ?c 1 0)
      with (unary_loop f a 1 c 1 (Z.of_nat 0)) in Hloop.
    rewrite (unary_loop_spec f p q (length xs) 0 _ _ _ xs ys Hp Hq) in Hloop.
    + injection Hloop as <-. eexists. split; [apply lookup_insert_eq|].
      cbn. split.
      { rewrite drop_ge by (rewrite length_replicate; lia).
        by rewrite app_nil_r. }
      split; [by rewrite bool_decide_eq_false_2|].
      split.
      { rewrite !dom_insert_L. apply set_eq. intros r.
        rewrite !elem_of_union. tauto. }
      intros r Hr. by rewrite !lookup_insert_ne.
    + rewrite Hcells, drop_0. by rewrite take_ge by lia.
    + done.
    + cbn. rewrite length_replicate. lia.
    + done.
Qed.

(** C5: on the fast path of Abs, Negative, Square and Sqrt (a contiguous
    float32 input), the evaluation succeeds and the output's storage is the
    input's exactly when the input is donatable and its itemsize equals the
    output's; otherwise the output's storage is a block that did not exist
    before, distinct from the input's.  In both cases the block is in the
    returned heap under the output handle, with one cell per element of the
    input; it has two owners when it is the input's and one when it is new;
    the returned heap has the blocks of the initial one and the output's,
    and every other block is as it was. *)
Theorem unary_fast_path_donation `{MathLib} `{CommonBackend}
    ev (in_ out : array) (h : Heap) (p : positive) (fs : list spec_float) :
  ev ∈ donating_unary_ops ->
  dtype in_ = float32 -> contiguous (flags in_) = true ->
  holds h in_ p (map VFloat fs) ->
  Forall (fun x => f32_valid x = true) fs ->
  data_size in_ <= INT_MAX ->
  exists out' h' q b,
    ev [in_] out h = Ok (out', h')
    /\ data out' = Some q
    /\ (q = p <->
        is_donatable h in_ = true /\ itemsize in_ = itemsize out)
    /\ (q <> p -> q = fresh (dom h) /\ q ∉ dom h)
    /\ h' !! q = Some b
    /\ length (cells b) = length fs
    /\ owners b = (if bool_decide (q = p) then 2%nat else 1%nat)
    /\ dom h' = {[q]} ∪ dom h
    /\ (forall r, r <> q -> h' !! r = h !! r).
Proof.
  intros Hev Hdt Hc Hholds Hvalid Hmax.
  assert (Hsz : to_int (data_size in_) = data_size in_).
  { apply to_int_small. destruct Hholds as (_ & _ & Hlen). lia. }
  assert (Hfin : forall g out1 h1 h2 q,
    set_unary_output_data in_ out h = (out1, h1) ->
    data out1 = Some q ->
    unary_loop (float1 g) (Mem p 0) 1 (Mem q 0) 1 0
      (Z.to_nat (data_size in_)) h1 = Some h2 ->
    (donates h in_ out = true /\ q = p)
    \/ (donates h in_ out = false /\ q = fresh (dom h) /\ q <> p
        /\ (q ∉ dom h)
        /\ cells <$> h2 !! p = Some (map VFloat fs)) ->
    exists out' h' q' b,
      (Ok (out1, h2) : Result Heap (array * Heap)) = Ok (out', h')
      /\ data out' = Some q'
      /\ (q' = p <->
          is_donatable h in_ = true /\ itemsize in_ = itemsize out)
      /\ (q' <> p -> q' = fresh (dom h) /\ q' ∉ dom h)
      /\ h' !! q' = Some b
      /\ length (cells b) = length fs
      /\ owners b = (if bool_decide (q' = p) then 2%nat else 1%nat)
      /\ dom h' = {[q']} ∪ dom h
      /\ (forall r, r <> q' -> h' !! r = h !! r)).
  { intros g out1 h1 h2 q Hs Hq Hloop Hst.
    destruct (fast_unary_block (float1 g) in_ out h p _ _ out1 h1 h2 q
                Hholds (float1_images g fs Hvalid) Hs Hq Hloop)
      as (b & Hb & Hcb & Hob & Hdom & Hun).
    destruct (donation_cases _ _ _ _ _ _ Hst) as [Hiff Hnew].
    exists out1, h2, q, b.
    split; [done|]. split; [done|]. split; [done|]. split; [done|].
    split; [done|]. split; [by rewrite Hcb, length_map|]. done. }
  unfold donating_unary_ops in Hev.
  repeat (apply elem_of_cons in Hev as [->|Hev]);
    [ unfold Abs_eval_cpu | unfold Negative_eval_cpu | unfold Square_eval_cpu
    | unfold Sqrt_eval_cpu | unfold Sqrt_eval_cpu
    | by apply elem_of_nil in Hev ];
    unfold dtype_eqb; rewrite Hdt, Hc; cbn [bool_decide decide_rel andb];
    rewrite ?bool_decide_eq_true_2 by done; cbn [andb].
  - fast_unary (float1 f32_abs) out Hholds (float1_images f32_abs fs Hvalid).
    unfold vDSP_vabs. rewrite Hloop. cbn. eauto.
  - fast_unary (float1 f32_neg) out Hholds (float1_images f32_neg fs Hvalid).
    unfold vDSP_vneg. rewrite Hloop. cbn. eauto.
  - fast_unary (float1 (fun x => f32_mul x x)) out Hholds
      (float1_images (fun x => f32_mul x x) fs Hvalid).
    unfold vDSP_vsq. rewrite Hloop. cbn. eauto.
  - fast_unary (float1 sqrtf) out Hholds (float1_images sqrtf fs Hvalid).
    unfold vvsqrtf, vForce1. rewrite Hsz, Hloop. cbn. eauto.
  - fast_unary (float1 rsqrtf) out Hholds (float1_images rsqrtf fs Hvalid).
    unfold vvrsqrtf, vForce1. rewrite Hsz, Hloop. cbn. eauto.
Qed.

Lemma unary_fast_path_donation_witness :
  exists out' h' q b,
    @Negative_eval_cpu test_common [vector float32 2 (Some 1%positive)]
      (vector float32 2 None) heap_3_m2 = Ok (out', h')
    /\ data out' = Some q
    /\ (q = 1%positive <->
        is_donatable heap_3_m2 (vector float32 2 (Some 1%positive)) = true
        /\ itemsize (vector float32 2 (Some 1%positive))
           = itemsize (vector float32 2 None))
    /\ (q <> 1%positive ->
        q = fresh (dom heap_3_m2) /\ q ∉ dom heap_3_m2)
    /\ h' !! q = Some b
    /\ length (cells b) = length [f32 3 0; f32 (-2) 0]
    /\ owners b = (if bool_decide (q = 1%positive) then 2%nat else 1%nat)
    /\ dom h' = {[q]} ∪ dom heap_3_m2
    /\ (forall r, r <> q -> h' !! r = heap_3_m2 !! r).
Proof.
  apply (@unary_fast_path_donation test_math test_common Negative_eval_cpu
           (vector float32 2 (Some 1%positive)) (vector float32 2 None)
           heap_3_m2 1%positive [f32 3 0; f32 (-2) 0]).
  - unfold donating_unary_ops. set_solver.
  - reflexivity.
  - reflexivity.
  - split; [reflexivity|]. split; [|reflexivity].
    eexists. split; reflexivity.
  - repeat constructor.
  - vm_compute. discriminate.
Defined.

(** ** AsType *)

Lemma integer_part_unique m e k k' :
  integer_part m e k -> integer_part m e k' -> k = k'.
Proof.
  unfold integer_part. intros [H1 H2] [H3 H4].
  assert (0 < 2 ^ Z.max 0 (- e)) by (apply Z.pow_pos_nonneg; lia).
  nia.
Qed.

Lemma f32_trunc_integer_part s m e :
  exists k, integer_part m e k
    /\ f32_trunc (S754_finite s m e) = Some (if s then - k else k).
Proof.
  unfold f32_trunc, integer_part, cond_Zopp.
  destruct (Z.leb_spec 0 e) as [He|He].
  - exists (Zpos m * 2 ^ e). split; [|done].
    rewrite (Z.max_l 0 (- e)), (Z.max_r 0 e) by lia. cbn. lia.
  - exists (Zpos m / 2 ^ (- e)). split; [|done].
    rewrite (Z.max_r 0 (- e)), (Z.max_l 0 e) by lia.
    assert (0 < 2 ^ (- e)) by (apply Z.pow_pos_nonneg; lia).
    pose proof (Z.mul_div_le (Zpos m) (2 ^ (- e)) ltac:(lia)).
    pose proof (Z.mul_succ_div_gt (Zpos m) (2 ^ (- e)) ltac:(lia)).
    cbn [Z.pow]. lia.
Qed.

Lemma truncates_to_f32_trunc x n :
  truncates_to x n -> f32_trunc x = Some n.
Proof.
  destruct x as [s|s| |s m e]; cbn; try tauto.
  - by intros ->.
  - intros (k & Hk & ->).
    destruct (f32_trunc_integer_part s m e) as (k' & Hk' & Ht).
    unfold f32_trunc in Ht. rewrite Ht.
    by rewrite (integer_part_unique _ _ _ _ Hk Hk').
Qed.

Lemma converts_routine i o x y :
  converts i o x y ->
  match i, o with
  | float32, int32 => fix_to int32 INT_MIN INT_MAX x = Some y
  | float32, uint32 => fix_to uint32 0 UINT_MAX x = Some y
  | int32, float32 =>
      (n ← as_int int32 x; Some (VFloat (f32 n 0))) = Some y
  | uint32, float32 =>
      (n ← as_int uint32 x; Some (VFloat (f32 n 0))) = Some y
  | _, _ => False
  end.
Proof.
  destruct 1 as [x n Hv Ht Hr|x n Hv Ht Hr|n|n]; cbn; try done.
  - unfold fix_to, as_float. rewrite Hv. cbn.
    rewrite (truncates_to_f32_trunc _ _ Ht). cbn.
    destruct (Z.leb_spec INT_MIN n); [|lia].
    destruct (Z.leb_spec n INT_MAX); [done|lia].
  - unfold fix_to, as_float. rewrite Hv. cbn.
    rewrite (truncates_to_f32_trunc _ _ Ht). cbn.
    destruct (Z.leb_spec 0 n); [|lia].
    destruct (Z.leb_spec n UINT_MAX); [done|lia].
Qed.

Lemma AsType_fast `{MathLib} `{CommonBackend} (in_ out : array) (h : Heap)
    p xs ys :
  contiguous (flags in_) && AsType_fast_pair (dtype in_) (dtype out) = true ->
  holds h in_ p xs ->
  Forall2 (converts (dtype in_) (dtype out)) xs ys ->
  exists out' h' q,
    AsType_eval_cpu [in_] out h = Ok (out', h')
    /\ data out' = Some q
    /\ cells <$> h' !! q = Some ys.
Proof.
  intros Hc Hholds Hconv. apply andb_true_iff in Hc as [Hc Hpair].
  unfold AsType_eval_cpu. rewrite Hc.
  pose proof (fun f Hf => Forall2_impl _ (fun x y => f x = Some y) _ _ Hconv Hf)
    as Himg.
  destruct (dtype in_) eqn:Hi, (dtype out) eqn:Ho; try discriminate Hpair;
    cbn [dtype_eqb bool_decide decide_rel andb];
    rewrite ?bool_decide_eq_true_2, ?bool_decide_eq_false_2 by done;
    cbn [andb].
  - fast_unary (fun v => n ← as_int uint32 v; Some (VFloat (f32 n 0))) out
      Hholds (Himg _ (fun x y Hxy => converts_routine _ _ _ _ Hxy)).
    unfold vDSP_vfltu32. rewrite Hloop. cbn. eauto 10.
  - fast_unary (fun v => n ← as_int int32 v; Some (VFloat (f32 n 0))) out
      Hholds (Himg _ (fun x y Hxy => converts_routine _ _ _ _ Hxy)).
    unfold vDSP_vflt32. rewrite Hloop. cbn. eauto 10.
  - fast_unary (fix_to uint32 0 UINT_MAX) out
      Hholds (Himg _ (fun x y Hxy => converts_routine _ _ _ _ Hxy)).
    unfold vDSP_vfixu32. rewrite Hloop. cbn. eauto 10.
  - fast_unary (fix_to int32 INT_MIN INT_MAX) out
      Hholds (Himg _ (fun x y Hxy => converts_routine _ _ _ _ Hxy)).
    unfold vDSP_vfix32. rewrite Hloop. cbn. eauto 10.
Qed.

Lemma f32_1_9_truncates : converts float32 int32 (VFloat f32_1_9) (VInt int32 1).
Proof.
  constructor; [reflexivity| |vm_compute; split; discriminate].
  exists 1. split; [|reflexivity]. vm_compute. split; [discriminate|reflexivity].
Qed.

Lemma f32_m2_9_truncates :
  converts float32 int32 (VFloat f32_m2_9) (VInt int32 (-2)).
Proof.
  constructor; [reflexivity| |vm_compute; split; discriminate].
  exists 2. split; [|reflexivity]. vm_compute. split; [discriminate|reflexivity].
Qed.

Lemma example_converts :
  Forall2 (converts float32 int32)
    [VFloat f32_1_9; VFloat f32_m2_9] [VInt int32 1; VInt int32 (-2)].
Proof.
  constructor; [apply f32_1_9_truncates|].
  constructor; [apply f32_m2_9_truncates|]. constructor.
Qed.

Lemma AsType_slow `{MathLib} `{CommonBackend} (in_ out : array) (h : Heap) :
  contiguous (flags in_) && AsType_fast_pair (dtype in_) (dtype out) = false
  -> AsType_eval_cpu [in_] out h = eval AsType [in_] out h.
Proof.
  intros Hc. unfold AsType_eval_cpu.
  destruct (contiguous (flags in_)); [|reflexivity].
  destruct (dtype in_), (dtype out); try discriminate Hc; reflexivity.
Qed.

(** C8: AsType takes its vectorized path exactly for a contiguous input and
    one of the four pairs float32->uint32, float32->int32, uint32->float32,
    int32->float32; there the output holds the converted elements, a float
    converted to an integer being rounded toward zero, so that a contiguous
    float32 tensor [1.9, -2.9] cast to int32 gives [1, -2]; every other pair
    and every non-contiguous input is handed to the generic evaluation. *)
Theorem AsType_fast_path_pairs `{MathLib} `{CommonBackend}
    (in_ out : array) (h : Heap) :
  (contiguous (flags in_) && AsType_fast_pair (dtype in_) (dtype out) = false
   -> AsType_eval_cpu [in_] out h = eval AsType [in_] out h)
  /\ (contiguous (flags in_) && AsType_fast_pair (dtype in_) (dtype out) = true
      -> forall p xs ys,
        holds h in_ p xs ->
        Forall2 (converts (dtype in_) (dtype out)) xs ys ->
        exists out' h' q,
          AsType_eval_cpu [in_] out h = Ok (out', h')
          /\ data out' = Some q
          /\ cells <$> h' !! q = Some ys)
  /\ (forall k : nat,
        result_cells
          (AsType_eval_cpu [vector float32 2 (Some 1%positive)]
             (vector int32 2 None)
             (heap1 k [VFloat f32_1_9; VFloat f32_m2_9]))
        = Some [VInt int32 1; VInt int32 (-2)]).
Proof.
  split; [|split].
  - apply AsType_slow.
  - intros Hc p xs ys. by apply AsType_fast.
  - intros k.
    destruct (AsType_fast (vector float32 2 (Some 1%positive))
                (vector int32 2 None)
                (heap1 k [VFloat f32_1_9; VFloat f32_m2_9]) 1%positive
                [VFloat f32_1_9; VFloat f32_m2_9]
                [VInt int32 1; VInt int32 (-2)])
      as (out' & h' & q & -> & Hq & Hcells).
    + reflexivity.
    + split; [reflexivity|]. split; [|reflexivity].
      eexists. split; [apply lookup_singleton_eq|reflexivity].
    + apply example_converts.
    + cbn. rewrite Hq. cbn.
      destruct (h' !! q) as [b|]; [|discriminate]. cbn in *. congruence.
Qed.

Lemma AsType_fast_path_pairs_witness :
  (contiguous (flags strided_u8)
   && AsType_fast_pair (dtype strided_u8) (dtype (vector int32 2 None)) = false
   /\ @AsType_eval_cpu test_common [strided_u8] (vector int32 2 None)
        (heap1 1 [VInt uint8 7; VInt uint8 8; VInt uint8 9])
      = @eval test_common AsType [strided_u8] (vector int32 2 None)
          (heap1 1 [VInt uint8 7; VInt uint8 8; VInt uint8 9]))
  /\ (contiguous (flags (vector float32 2 (Some 1%positive)))
      && AsType_fast_pair float32 int32 = true
      /\ exists out' h' q,
        @AsType_eval_cpu test_common [vector float32 2 (Some 1%positive)]
          (vector int32 2 None) (heap1 1 [VFloat f32_1_9; VFloat f32_m2_9])
        = Ok (out', h')
        /\ data out' = Some q
        /\ cells <$> h' !! q = Some [VInt int32 1; VInt int32 (-2)]).
Proof.
  split; (split; [reflexivity|]).
  - exact (proj1 (@AsType_fast_path_pairs test_math test_common strided_u8
                    (vector int32 2 None)
                    (heap1 1 [VInt uint8 7; VInt uint8 8; VInt uint8 9]))
             eq_refl).
  - apply (proj1 (proj2 (@AsType_fast_path_pairs test_math test_common
                    (vector float32 2 (Some 1%positive))
                    (vector int32 2 None)
                    (heap1 1 [VFloat f32_1_9; VFloat f32_m2_9])))
             eq_refl 1%positive [VFloat f32_1_9; VFloat f32_m2_9]).
    + split; [reflexivity|]. split; [|reflexivity].
      eexists. split; reflexivity.
    + apply example_converts.
Defined.

(** ** Power *)

Lemma float2_images (g : spec_float -> spec_float -> spec_float) :
  forall xs ys : list spec_float,
    Forall (fun x => f32_valid x = true) xs ->
    Forall (fun x => f32_valid x = true) ys ->
    length xs = length ys ->
    Forall3 (fun x y z => float2 g x y = Some z)
      (map VFloat xs) (map VFloat ys)
      (zip_with (fun x y => VFloat (g x y)) xs ys).
Proof.
  induction xs as [|x xs IH]; intros [|y ys] Hx Hy Hlen; try discriminate.
  - constructor.
  - inversion Hx; inversion Hy; subst. cbn. constructor.
    + unfold float2, as_float. by rewrite H1, H5.
    + apply IH; auto.
Qed.

Lemma binary_sweep_ok f (h1 : Heap) pa pb q ba bb bq zs (n : nat) :
  h1 !! pa = Some ba -> h1 !! pb = Some bb -> h1 !! q = Some bq ->
  length (cells ba) = n -> length (cells bq) = n ->
  Forall3 (fun x y z => f x y = Some z) (cells ba) (cells bb) zs ->
  exists h2,
    binary_loop f (Mem pa 0) 1 (Mem pb 0) 1 (Mem q 0) 1 0 n h1 = Some h2
    /\ cells <$> h2 !! q = Some zs
    /\ forall r, r <> q -> h2 !! r = h1 !! r.
Proof.
  intros Ha Hb Hq Hna Hnq Hf.
  pose proof (Forall3_length_lr _ _ _ _ Hf) as Hlz.
  pose proof (Forall3_length_lm _ _ _ _ Hf) as Hlb.
  eexists. split; [|split].
  - apply (binary_loop_spec f pa pb q n 0 h1 ba bb bq (cells ba) (cells bb)
             zs Ha Hb Hq).
    + by rewrite drop_0, take_ge by lia.
    + by rewrite drop_0, take_ge by lia.
    + done.
    + lia.
    + done.
  - rewrite lookup_insert_eq. cbn.
    rewrite drop_ge by lia. by rewrite app_nil_r.
  - intros r Hr. by rewrite lookup_insert_ne.
Qed.

Lemma lookup_add_owner (h : Heap) p r b :
  h !! r = Some b ->
  exists b', alter add_owner p h !! r = Some b' /\ cells b' = cells b.
Proof.
  intros Hr. rewrite lookup_alter. case_decide.
  - subst. rewrite Hr. by eexists.
  - eauto.
Qed.

Lemma set_data_fresh_spec out (h : Heap) :
  0 <= size out ->
  set_data_fresh out h
  = ({| dtype := dtype out; shape := shape out; strides := strides out;
        flags := flags out; data_size := size out;
        data := Some (fresh (dom h)) |},
     <[fresh (dom h) :=
         {| owners := 1;
            cells := replicate (Z.to_nat (size out)) VUninit |}]> h).
Proof.
  intros Hsz. unfold set_data_fresh, malloc_or_wait, set_data, nbytes.
  assert (itemsize out <> 0) by (unfold itemsize; destruct (dtype out); done).
  rewrite Z.div_mul by done. cbn. f_equal. by rewrite alter_insert_eq.
Qed.

Lemma vvpowf_spec `{MathLib} (h1 : Heap) pa pb q xs ys (n : nat) :
  (exists ba, h1 !! pa = Some ba /\ cells ba = map VFloat xs) ->
  (exists bb, h1 !! pb = Some bb /\ cells bb = map VFloat ys) ->
  (exists bq, h1 !! q = Some bq /\ length (cells bq) = n) ->
  length xs = n -> length ys = n ->
  Forall (fun x => f32_valid x = true) xs ->
  Forall (fun x => f32_valid x = true) ys ->
  exists h2,
    vvpowf (Mem q 0) (Mem pb 0) (Mem pa 0) (Z.of_nat n) h1 = Some h2
    /\ cells <$> h2 !! q
       = Some (zip_with (fun x y => VFloat (powf x y)) xs ys).
Proof.
  intros (ba & Ha & Hca) (bb & Hb & Hcb) (bq & Hq & Hlq) Hlx Hly Hvx Hvy.
  unfold vvpowf. rewrite Nat2Z.id.
  destruct (binary_sweep_ok (float2 powf) h1 pa pb q ba bb bq
              (zip_with (fun x y => VFloat (powf x y)) xs ys) n Ha Hb Hq)
    as (h2 & Hloop & Hcells & _).
  - by rewrite Hca, length_map.
  - done.
  - rewrite Hca, Hcb. apply float2_images; auto. lia.
  - eauto.
Qed.

Lemma Power_slow `{MathLib} `{CommonBackend} (a b out : array) (h : Heap) :
  Power_fast a b out = false ->
  Power_eval_cpu [a; b] out h = eval Power [a; b] out h.
Proof.
  intros Hfast. unfold Power_eval_cpu. unfold Power_fast in Hfast.
  by rewrite Hfast.
Qed.

(** C4: the fast path of Power is taken exactly when the output dtype is
    float32 and both operands are row-contiguous.  On it the output takes
    [a]'s storage if [a] is donatable with the output's itemsize, else
    [b]'s under the same test, else a new block; the platform routine is
    called with the output, then the exponents [b], then the bases [a]; and
    the output holds [a[i] ^ b[i]]. *)
Theorem Power_fast_path `{MathLib} `{CommonBackend}
    (a b out : array) (h : Heap) :
  (Power_fast a b out = false ->
   Power_eval_cpu [a; b] out h = eval Power [a; b] out h)
  /\ (Power_fast a b out = true ->
      forall pa pb xs ys,
        holds h a pa (map VFloat xs) ->
        holds h b pb (map VFloat ys) ->
        Forall (fun x => f32_valid x = true) xs ->
        Forall (fun x => f32_valid x = true) ys ->
        size a = data_size a -> data_size b = data_size a ->
        size out = size a -> size a <= INT_MAX ->
        exists out1 h1 h' q,
          Power_eval_cpu [a; b] out h
          = run (vvpowf (Mem q 0) (Mem pb 0) (Mem pa 0) (size a)) out1 h1
          /\ Power_eval_cpu [a; b] out h = Ok (out1, h')
          /\ data out1 = Some q
          /\ Power_storage h a b out pa pb q
          /\ cells <$> h' !! q
             = Some (zip_with (fun x y => VFloat (powf x y)) xs ys)).
Proof.
  split.
  - apply Power_slow.
  - intros Hfast pa pb xs ys (Hda & (ba & Ha & Hca) & Hla)
      (Hdb & (bb & Hb & Hcb) & Hlb) Hvx Hvy Hsa Hsb Hso Hmax.
    rewrite length_map in Hla, Hlb.
    assert (Hint : to_int (size a) = size a) by (apply to_int_small; lia).
    assert (Hn : size a = Z.of_nat (length xs)) by lia.
    assert (Hlen : length ys = length xs) by lia.
    unfold Power_eval_cpu, Power_storage. unfold Power_fast in Hfast.
    rewrite Hfast, Hint.
    change (is_donatable h a && (itemsize a =? itemsize out))
      with (donates h a out).
    change (is_donatable h b && (itemsize b =? itemsize out))
      with (donates h b out).
    destruct (donates h a out); [|destruct (donates h b out)].
    + unfold copy_shared_buffer, data_ptr. rewrite Hda, Hdb. cbn.
      destruct (vvpowf_spec (alter add_owner pa h) pa pb pa xs ys (length xs))
        as (h2 & Hrun & Hcells); auto.
      * destruct (lookup_add_owner h pa pa ba Ha) as (b' & ? & ?).
        exists b'. split; [done|congruence].
      * destruct (lookup_add_owner h pa pb bb Hb) as (b' & ? & ?).
        exists b'. split; [done|congruence].
      * destruct (lookup_add_owner h pa pa ba Ha) as (b' & ? & Hc').
        exists b'. split; [done|]. by rewrite Hc', Hca, length_map.
      * eexists _, _, h2, pa. split; [reflexivity|].
        unfold run. rewrite Hn, Hrun. cbn. auto.
    + unfold copy_shared_buffer, data_ptr. rewrite Hda, Hdb. cbn.
      destruct (vvpowf_spec (alter add_owner pb h) pa pb pb xs ys (length xs))
        as (h2 & Hrun & Hcells); auto.
      * destruct (lookup_add_owner h pb pa ba Ha) as (b' & ? & ?).
        exists b'. split; [done|congruence].
      * destruct (lookup_add_owner h pb pb bb Hb) as (b' & ? & ?).
        exists b'. split; [done|congruence].
      * destruct (lookup_add_owner h pb pb bb Hb) as (b' & ? & Hc').
        exists b'. split; [done|]. rewrite Hc', Hcb, length_map. lia.
      * eexists _, _, h2, pb. split; [reflexivity|].
        unfold run. rewrite Hn, Hrun. cbn. auto.
    + rewrite set_data_fresh_spec by lia.
      destruct (fresh_block_new h pa ba Ha) as [Hnea Hnew].
      destruct (fresh_block_new h pb bb Hb) as [Hneb _].
      unfold data_ptr. rewrite Hda, Hdb. cbn.
      destruct (vvpowf_spec
                  (<[fresh (dom h) :=
                       {| owners := 1;
                          cells := replicate (Z.to_nat (size out)) VUninit |}]>
                     h)
                  pa pb (fresh (dom h)) xs ys (length xs))
        as (h2 & Hrun & Hcells); auto.
      * exists ba. by rewrite lookup_insert_ne.
      * exists bb. by rewrite lookup_insert_ne.
      * eexists. rewrite lookup_insert_eq. split; [done|]. cbn.
        rewrite length_replicate. lia.
      * eexists _, _, h2, (fresh (dom h)). split; [reflexivity|].
        unfold run. rewrite Hn, Hrun. cbn. auto.
Qed.

Lemma Power_fast_path_witness :
  Power_fast (vector float32 2 (Some 1%positive))
    (vector float32 2 (Some 2%positive)) (vector float32 2 None) = true
  /\ exists out1 h1 h' q,
      @Power_eval_cpu test_math test_common
        [vector float32 2 (Some 1%positive);
         vector float32 2 (Some 2%positive)] (vector float32 2 None) heap_pow
      = run (@vvpowf test_math (Mem q 0) (Mem 2%positive 0) (Mem 1%positive 0)
               (size (vector float32 2 (Some 1%positive)))) out1 h1
      /\ @Power_eval_cpu test_math test_common
           [vector float32 2 (Some 1%positive);
            vector float32 2 (Some 2%positive)] (vector float32 2 None)
           heap_pow
         = Ok (out1, h')
      /\ data out1 = Some q
      /\ Power_storage heap_pow (vector float32 2 (Some 1%positive))
           (vector float32 2 (Some 2%positive)) (vector float32 2 None)
           1%positive 2%positive q
      /\ cells <$> h' !! q
         = Some (zip_with (fun x y => VFloat (@powf test_math x y))
                   [f32 2 0; f32 3 0] [f32 3 0; f32 2 0]).
Proof.
  split; [reflexivity|].
  apply (proj2 (@Power_fast_path test_math test_common
                  (vector float32 2 (Some 1%positive))
                  (vector float32 2 (Some 2%positive))
                  (vector float32 2 None) heap_pow) eq_refl).
  - split; [reflexivity|]. split; [|reflexivity].
    eexists. split; reflexivity.
  - split; [reflexivity|]. split; [|reflexivity].
    eexists. split; reflexivity.
  - repeat constructor.
  - repeat constructor.
  - reflexivity.
  - reflexivity.
  - reflexivity.
  - vm_compute. discriminate.
Defined.

(** ** Scan *)

Lemma store_frame (h h' : Heap) q i v :
  store h (Mem q i) v = Some h' -> forall r, r <> q -> h' !! r = h !! r.
Proof.
  unfold store. destruct (h !! q) as [b|]; cbn; [|discriminate].
  destruct (_ && _); [|discriminate].
  intros [= <-] r Hr. by rewrite lookup_insert_ne.
Qed.

Lemma vrsum_loop_frame A IA s q c0 IC (n : nat) :
  forall acc m (h h' : Heap),
    vrsum_loop A IA s (Mem q c0) IC acc m n h = Some h' ->
    forall r, r <> q -> h' !! r = h !! r.
Proof.
  induction n as [|n IH]; intros acc m h h' Hrun r Hr; cbn in Hrun.
  - by injection Hrun as <-.
  - destruct (load_float h _) as [a|]; cbn in Hrun; [|discriminate].
    destruct (store h _ _) as [h1|] eqn:Hst; cbn in Hrun; [|discriminate].
    rewrite (IH _ _ _ _ Hrun r Hr). by eapply store_frame.
Qed.

Lemma vDSP_vrsum_frame A IA S q c0 IC N (h h' : Heap) :
  vDSP_vrsum A IA S (Mem q c0) IC N h = Some h' ->
  forall r, r <> q -> h' !! r = h !! r.
Proof.
  unfold vDSP_vrsum. destruct (Z.to_nat N) as [|n].
  - by intros [= <-].
  - destruct (load_float h S) as [s|]; cbn; [|discriminate].
    destruct (store h _ _) as [h1|] eqn:Hst; cbn; [|discriminate].
    intros Hrun r Hr.
    rewrite (vrsum_loop_frame _ _ _ _ _ _ _ _ _ _ _ Hrun r Hr).
    by eapply store_frame.
Qed.

Lemma scan_forward_frame s stride q (count : nat) :
  forall input c0 (h h' : Heap),
    scan_forward count input (Mem q c0) s stride h = Some h' ->
    forall r, r <> q -> h' !! r = h !! r.
Proof.
  induction count as [|count IH]; intros input c0 h h' Hrun r Hr;
    cbn in Hrun.
  - by injection Hrun as <-.
  - destruct (vDSP_vrsum _ _ _ _ _ _ h) as [h1|] eqn:Hv; cbn in Hrun;
      [|discriminate].
    rewrite (IH _ _ _ _ Hrun r Hr). by eapply vDSP_vrsum_frame.
Qed.

Lemma scan_reverse_frame s stride q (count : nat) :
  forall input c0 (h h' : Heap),
    scan_reverse count input (Mem q c0) s stride h = Some h' ->
    forall r, r <> q -> h' !! r = h !! r.
Proof.
  induction count as [|count IH]; intros input c0 h h' Hrun r Hr;
    cbn in Hrun.
  - by injection Hrun as <-.
  - destruct (vDSP_vrsum _ _ _ _ _ _ h) as [h1|] eqn:Hv; cbn in Hrun;
      [|discriminate].
    rewrite (IH _ _ _ _ Hrun r Hr). by eapply vDSP_vrsum_frame.
Qed.

(** A store keeps the heap's blocks, and the block written to keeps its
    owners and its capacity; so do the running sum and the two loops. *)
Lemma store_block (h h' : Heap) q i v b :
  store h (Mem q i) v = Some h' -> h !! q = Some b ->
  dom h' = dom h
  /\ exists b', h' !! q = Some b' /\ owners b' = owners b
       /\ length (cells b') = length (cells b).
Proof.
  unfold store. intros Hst Hb. rewrite Hb in Hst. cbn in Hst.
  destruct (_ && _); [|discriminate]. injection Hst as <-. split.
  - rewrite dom_insert_L.
    apply subseteq_union_1_L, singleton_subseteq_l, elem_of_dom. eauto.
  - eexists. split; [apply lookup_insert_eq|]. cbn.
    split; [done|]. by rewrite length_insert.
Qed.

Lemma vrsum_loop_block A IA s q c0 IC (n : nat) :
  forall acc m (h h' : Heap) b,
    vrsum_loop A IA s (Mem q c0) IC acc m n h = Some h' ->
    h !! q = Some b ->
    dom h' = dom h
    /\ exists b', h' !! q = Some b' /\ owners b' = owners b
         /\ length (cells b') = length (cells b).
Proof.
  induction n as [|n IH]; intros acc m h h' b Hrun Hb; cbn in Hrun.
  - injection Hrun as <-. eauto.
  - destruct (load_float h _) as [a|]; cbn in Hrun; [|discriminate].
    destruct (store h _ _) as [h1|] eqn:Hst; cbn in Hrun; [|discriminate].
    destruct (store_block _ _ _ _ _ _ Hst Hb)
      as (Hd1 & b1 & Hb1 & Ho1 & Hl1).
    destruct (IH _ _ _ _ _ Hrun Hb1) as (Hd2 & b2 & Hb2 & Ho2 & Hl2).
    split; [congruence|]. exists b2. split; [done|]. split; congruence.
Qed.

Lemma vDSP_vrsum_block A IA S q c0 IC N (h h' : Heap) b :
  vDSP_vrsum A IA S (Mem q c0) IC N h = Some h' ->
  h !! q = Some b ->
  dom h' = dom h
  /\ exists b', h' !! q = Some b' /\ owners b' = owners b
       /\ length (cells b') = length (cells b).
Proof.
  unfold vDSP_vrsum. destruct (Z.to_nat N) as [|n].
  - intros [= <-] Hb. eauto.
  - destruct (load_float h S) as [s|]; cbn; [|discriminate].
    destruct (store h _ _) as [h1|] eqn:Hst; cbn; [|discriminate].
    intros Hrun Hb.
    destruct (store_block _ _ _ _ _ _ Hst Hb)
      as (Hd1 & b1 & Hb1 & Ho1 & Hl1).
    destruct (vrsum_loop_block _ _ _ _ _ _ _ _ _ _ _ _ Hrun Hb1)
      as (Hd2 & b2 & Hb2 & Ho2 & Hl2).
    split; [congruence|]. exists b2. split; [done|]. split; congruence.
Qed.

Lemma scan_forward_block s stride q (count : nat) :
  forall input c0 (h h' : Heap) b,
    scan_forward count input (Mem q c0) s stride h = Some h' ->
    h !! q = Some b ->
    dom h' = dom h
    /\ exists b', h' !! q = Some b' /\ owners b' = owners b
         /\ length (cells b') = length (cells b).
Proof.
  induction count as [|count IH]; intros input c0 h h' b Hrun Hb;
    cbn in Hrun.
  - injection Hrun as <-. eauto.
  - destruct (vDSP_vrsum _ _ _ _ _ _ h) as [h1|] eqn:Hv; cbn in Hrun;
      [|discriminate].
    destruct (vDSP_vrsum_block _ _ _ _ _ _ _ _ _ _ Hv Hb)
      as (Hd1 & b1 & Hb1 & Ho1 & Hl1).
    destruct (IH _ _ _ _ _ Hrun Hb1) as (Hd2 & b2 & Hb2 & Ho2 & Hl2).
    split; [congruence|]. exists b2. split; [done|]. split; congruence.
Qed.

Lemma scan_reverse_block s stride q (count : nat) :
  forall input c0 (h h' : Heap) b,
    scan_reverse count input (Mem q c0) s stride h = Some h' ->
    h !! q = Some b ->
    dom h' = dom h
    /\ exists b', h' !! q = Some b' /\ owners b' = owners b
         /\ length (cells b') = length (cells b).
Proof.
  induction count as [|count IH]; intros input c0 h h' b Hrun Hb;
    cbn in Hrun.
  - injection Hrun as <-. eauto.
  - destruct (vDSP_vrsum _ _ _ _ _ _ h) as [h1|] eqn:Hv; cbn in Hrun;
      [|discriminate].
    destruct (vDSP_vrsum_block _ _ _ _ _ _ _ _ _ _ Hv Hb)
      as (Hd1 & b1 & Hb1 & Ho1 & Hl1).
    destruct (IH _ _ _ _ _ Hrun Hb1) as (Hd2 & b2 & Hb2 & Ho2 & Hl2).
    split; [congruence|]. exists b2. split; [done|]. split; congruence.
Qed.

(** *** Multiplying by the weight 1.0 is exact *)

Lemma digits_shift23 m :
  digits2_pos (8388608 * m) = (digits2_pos m + 23)%positive.
Proof. cbv [Pos.mul]. cbn [digits2_pos]. lia. Qed.

Lemma shr_shift23 m :
  SpecFloat.iter_pos shr_1 23
    (Build_shr_record (Zpos (8388608 * m)) false false)
  = Build_shr_record (Zpos m) false false.
Proof. reflexivity. Qed.

Lemma shr_exact23 m e :
  shr (shr_record_of_loc (Zpos (8388608 * m)) loc_Exact) (-23 + e) 23
  = (Build_shr_record (Zpos m) false false, e).
Proof.
  unfold shr, shr_record_of_loc. rewrite shr_shift23. f_equal. lia.
Qed.

Lemma round_shifted s m e :
  f32_valid (S754_finite s m e) = true ->
  binary_round_aux 24 128 s (Zpos (8388608 * m)) (-23 + e) loc_Exact
  = S754_finite s m e.
Proof.
  unfold f32_valid, valid_binary, bounded, canonical_mantissa.
  intros Hv. apply andb_true_iff in Hv as [Hc Hb].
  apply Z.eqb_eq in Hc.
  unfold binary_round_aux, shr_fexp, Zdigits2.
  rewrite digits_shift23.
  replace (Z.pos (digits2_pos m + 23) + (-23 + e))
    with (Z.pos (digits2_pos m) + e) by lia.
  rewrite Hc.
  replace (e - (-23 + e)) with 23 by lia.
  rewrite shr_exact23.
  cbn [shr_m loc_of_shr_record round_nearest_even].
  rewrite Hc, Z.sub_diag. cbn [shr shr_record_of_loc shr_m].
  by rewrite Hb.
Qed.

Lemma f32_mul_one_l x : f32_valid x = true -> f32_mul f32_one x = x.
Proof.
  destruct x as [s|s| |s m e]; try reflexivity.
  intros Hv.
  change (f32_mul f32_one (S754_finite s m e))
    with (binary_round_aux 24 128 s (Zpos (8388608 * m)) (-23 + e) loc_Exact).
  by apply round_shifted.
Qed.

Lemma running_sums_length s acc xs :
  length (running_sums s acc xs) = length xs.
Proof. revert acc; induction xs as [|x xs IH]; intros acc; cbn; auto. Qed.

Lemma prefix_sums_length acc xs : length (prefix_sums acc xs) = length xs.
Proof. revert acc; induction xs as [|x xs IH]; intros acc; cbn; auto. Qed.

(** A sweep with weight 1.0 over all but the last element, after the
    initial 0, writes the exclusive prefix sums. *)
Lemma running_sums_prefix_sums acc xs :
  Forall (fun x => f32_valid x = true) xs ->
  xs <> [] ->
  acc :: running_sums f32_one acc (take (length xs - 1) xs)
  = prefix_sums acc xs.
Proof.
  intros Hv. revert acc. induction Hv as [|x xs Hx Hv IH]; intros acc Hne.
  - done.
  - destruct xs as [|y ys].
    + reflexivity.
    + change (prefix_sums acc (x :: y :: ys))
        with (acc :: prefix_sums (f32_add acc x) (y :: ys)).
      rewrite <- IH by done.
      replace (length (x :: y :: ys) - 1)%nat
        with (S (length (y :: ys) - 1)) by (cbn; lia).
      cbn [take running_sums]. by rewrite (f32_mul_one_l x Hx).
Qed.

(** *** Writing a segment of a buffer *)

Lemma splice_length {A} i (ys l : list A) :
  (i + length ys <= length l)%nat -> length (splice i ys l) = length l.
Proof.
  intros Hi. unfold splice.
  rewrite !length_app, length_take, length_drop. lia.
Qed.

Lemma splice_adjacent {A} i (ys zs l : list A) :
  (i + length ys <= length l)%nat ->
  splice (i + length ys) zs (splice i ys l) = splice i (ys ++ zs) l.
Proof.
  intros Hi. unfold splice.
  assert (Hl : length (take i l ++ ys) = (i + length ys)%nat)
    by (rewrite length_app, length_take; lia).
  rewrite (app_assoc (take i l) ys).
  rewrite take_app_length' by done.
  rewrite drop_app_add' by done.
  rewrite drop_drop, length_app, <- !app_assoc.
  by rewrite Nat.add_assoc.
Qed.

Lemma splice_nil {A} i (l : list A) : splice i [] l = l.
Proof. unfold splice. cbn. by rewrite Nat.add_0_r, take_drop. Qed.

Lemma splice_all {A} (ys l : list A) :
  length ys = length l -> splice 0 ys l = ys.
Proof.
  intros Hl. unfold splice. cbn. rewrite drop_ge by lia. apply app_nil_r.
Qed.

Lemma drop_insert_here {A} (l : list A) i v :
  (i < length l)%nat -> drop i (<[i := v]> l) = v :: drop (S i) l.
Proof.
  revert i. induction l as [|x l IH]; intros [|i] Hi; cbn in *; try lia.
  - done.
  - apply IH. lia.
Qed.

Lemma rev_take_cons {A} (l : list A) (n : nat) x xs :
  rev (take (S n) l) = x :: xs -> length xs = n ->
  l !! n = Some x /\ rev (take n l) = xs.
Proof.
  intros Hr Hlen. destruct (l !! n) as [y|] eqn:Hn.
  - rewrite (take_S_r _ _ _ Hn), rev_unit in Hr. by injection Hr as -> ->.
  - apply lookup_ge_None in Hn.
    apply (f_equal length) in Hr.
    rewrite length_rev, length_take in Hr. cbn [length] in Hr. lia.
Qed.

Lemma splice_cons {A} (l : list A) i v ys :
  (i < length l)%nat ->
  splice (S i) ys (<[i := v]> l) = splice i (v :: ys) l.
Proof. intros Hi. unfold splice. by apply loop_result_cells. Qed.

Lemma splice_snoc {A} (l : list A) i v ys :
  (i + length ys < length l)%nat ->
  splice i ys (<[(i + length ys)%nat := v]> l) = splice i (ys ++ [v]) l.
Proof.
  intros Hi. unfold splice.
  rewrite take_insert_ge by lia.
  rewrite drop_insert_here by lia.
  rewrite length_app, <- app_assoc. cbn.
  by replace (i + (length ys + 1))%nat with (S (i + length ys)) by lia.
Qed.

(** *** The running-sum routine on distinct blocks *)

Lemma load_float_Mem (h : Heap) p (i : nat) b x :
  h !! p = Some b -> cells b !! i = Some (VFloat x) ->
  f32_valid x = true ->
  load_float h (Mem p (Z.of_nat i)) = Some x.
Proof.
  intros Hb Hi Hv. unfold load_float.
  rewrite (load_Mem _ _ _ _ Hb), Hi. cbn. by rewrite Hv.
Qed.

Lemma vrsum_loop_forward p q a0 c0 s bp (n : nat) :
  p <> q ->
  forall (m : Z) (ia ic : nat) (h : Heap) acc bq xs,
    h !! p = Some bp -> h !! q = Some bq ->
    a0 + m = Z.of_nat ia -> c0 + m = Z.of_nat ic ->
    take n (drop ia (cells bp)) = map VFloat xs ->
    Forall (fun x => f32_valid x = true) xs ->
    length xs = n ->
    (ic + n <= length (cells bq))%nat ->
    vrsum_loop (Mem p a0) 1 s (Mem q c0) 1 acc m n h
    = Some (<[q := {| owners := owners bq;
                      cells := splice ic
                                 (map VFloat (running_sums s acc xs))
                                 (cells bq) |}]> h).
Proof.
  intros Hpq. induction n as [|n IH];
    intros m ia ic h acc bq xs Hp Hq Ha Hc Hxs Hv Hlen Hic.
  - destruct xs; [|discriminate]. cbn.
    by rewrite splice_nil, Buffer_eta, insert_id.
  - destruct xs as [|x xs]; [discriminate|].
    cbn [map] in Hxs. apply take_drop_cons in Hxs as [Hx Hxs].
    inversion Hv as [|? ? Hvx Hvxs]; subst.
    cbn [vrsum_loop ptr_add].
    replace (a0 + m * 1) with (Z.of_nat ia) by lia.
    rewrite (load_float_Mem _ _ _ _ _ Hp Hx Hvx). cbn.
    replace (c0 + m * 1) with (Z.of_nat ic) by lia.
    rewrite (store_Mem _ _ _ _ _ Hq) by lia. cbn.
    set (acc' := f32_add acc (f32_mul s x)).
    set (b1 := {| owners := owners bq;
                  cells := <[ic := VFloat acc']> (cells bq) |}).
    rewrite (IH (m + 1) (S ia) (S ic) (<[q := b1]> h) acc' b1 xs); cbn.
    + rewrite insert_insert_eq. do 3 f_equal.
      apply splice_cons. lia.
    + by rewrite lookup_insert_ne.
    + apply lookup_insert_eq.
    + lia.
    + lia.
    + done.
    + done.
    + cbn in Hlen. lia.
    + rewrite length_insert. lia.
Qed.

Lemma vrsum_loop_reverse p q a0 c0 s bp (n : nat) :
  p <> q ->
  forall (m : Z) (la lc : nat) (h : Heap) acc bq xs,
    h !! p = Some bp -> h !! q = Some bq ->
    a0 - m = Z.of_nat la + Z.of_nat n - 1 ->
    c0 - m = Z.of_nat lc + Z.of_nat n - 1 ->
    rev (take n (drop la (cells bp))) = map VFloat xs ->
    Forall (fun x => f32_valid x = true) xs ->
    length xs = n ->
    (lc + n <= length (cells bq))%nat ->
    vrsum_loop (Mem p a0) (-1) s (Mem q c0) (-1) acc m n h
    = Some (<[q := {| owners := owners bq;
                      cells := splice lc
                                 (rev (map VFloat (running_sums s acc xs)))
                                 (cells bq) |}]> h).
Proof.
  intros Hpq. induction n as [|n IH];
    intros m la lc h acc bq xs Hp Hq Ha Hc Hxs Hv Hlen Hlc.
  - destruct xs; [|discriminate]. cbn.
    by rewrite splice_nil, Buffer_eta, insert_id.
  - destruct xs as [|x xs]; [discriminate|].
    cbn [map] in Hxs. cbn in Hlen.
    apply rev_take_cons in Hxs as [Hx Hxs]; [|rewrite length_map; lia].
    rewrite lookup_drop in Hx.
    inversion Hv as [|? ? Hvx Hvxs]; subst.
    cbn [vrsum_loop ptr_add].
    assert (Hn : length xs = n) by lia.
    replace (a0 + m * -1) with (Z.of_nat (la + n)) by lia.
    rewrite (load_float_Mem _ _ _ _ _ Hp Hx Hvx). cbn.
    replace (c0 + m * -1) with (Z.of_nat (lc + n)) by lia.
    rewrite (store_Mem _ _ _ _ _ Hq) by lia. cbn.
    set (acc' := f32_add acc (f32_mul s x)).
    set (b1 := {| owners := owners bq;
                  cells := <[(lc + n)%nat := VFloat acc']> (cells bq) |}).
    rewrite (IH (m + 1) la lc (<[q := b1]> h) acc' b1 xs); cbn.
    + rewrite insert_insert_eq. do 3 f_equal.
      set (R := rev (map VFloat (running_sums s acc' xs))).
      assert (HR : length R = n)
        by (unfold R; rewrite length_rev, length_map, running_sums_length;
            done).
      rewrite <- HR. apply splice_snoc. lia.
    + by rewrite lookup_insert_ne.
    + apply lookup_insert_eq.
    + lia.
    + lia.
    + done.
    + done.
    + done.
    + rewrite length_insert. lia.
Qed.

Lemma take_rev_init {A} (l : list A) :
  take (length l - 1) (rev l) = rev (drop 1 l).
Proof.
  destruct l as [|x l]; [done|]. cbn [rev drop length].
  replace (S (length l) - 1)%nat with (length (rev l))
    by (rewrite length_rev; lia).
  by rewrite take_app_length.
Qed.

(** One forward row: the routine is handed the address one element before
    the row and writes the exclusive prefix sums of the row. *)
Lemma vDSP_vrsum_forward_row p q bp (h : Heap) bq (base st : nat) ain cout
    row :
  p <> q -> h !! p = Some bp -> h !! q = Some bq ->
  ain = Z.of_nat base + -1 -> cout = Z.of_nat base ->
  take st (drop base (cells bp)) = map VFloat row ->
  Forall (fun x => f32_valid x = true) row ->
  length row = st -> (0 < st)%nat ->
  (base + st <= length (cells bq))%nat ->
  vDSP_vrsum (Mem p ain) 1 (Stack (VFloat f32_one) 0) (Mem q cout) 1
    (Z.of_nat st) h
  = Some (<[q := {| owners := owners bq;
                    cells := splice base (map VFloat (exclusive_scan row))
                               (cells bq) |}]> h).
Proof.
  intros Hpq Hp Hq -> -> Hrow Hv Hlen Hst Hfit.
  unfold vDSP_vrsum. rewrite Nat2Z.id.
  destruct st as [|n]; [lia|].
  change (load_float h (Stack (VFloat f32_one) 0)) with (Some f32_one).
  cbn [mbind option_bind].
  rewrite (store_Mem _ _ _ _ _ Hq) by lia. cbn [mbind option_bind].
  set (b1 := {| owners := owners bq;
                cells := <[base := VFloat f32_zero]> (cells bq) |}).
  rewrite (vrsum_loop_forward p q _ _ f32_one bp n Hpq 1 base (S base)
             (<[q := b1]> h) f32_zero b1 (take n row)).
  - rewrite insert_insert_eq. do 3 f_equal. cbn [cells b1].
    rewrite splice_cons by lia. f_equal.
    change (VFloat f32_zero :: map VFloat (running_sums f32_one f32_zero (take n row)))
      with (map VFloat (f32_zero :: running_sums f32_one f32_zero (take n row))).
    f_equal. unfold exclusive_scan.
    replace n with (length row - 1)%nat by lia.
    apply running_sums_prefix_sums; [done|].
    intros ->. discriminate.
  - by rewrite lookup_insert_ne.
  - apply lookup_insert_eq.
  - lia.
  - lia.
  - rewrite <- firstn_map, <- Hrow, take_take.
    by replace (n `min` S n)%nat with n by lia.
  - by apply Forall_take.
  - rewrite length_take. lia.
  - cbn. rewrite length_insert. lia.
Qed.

(** One reverse row: the routine is handed the address one element after
    the row, walks backward, and writes the mirrored exclusive sums. *)
Lemma vDSP_vrsum_reverse_row p q bp (h : Heap) bq (base st : nat) ain cout
    row :
  p <> q -> h !! p = Some bp -> h !! q = Some bq ->
  ain = Z.of_nat (base + st) -> cout = Z.of_nat (base + st) - 1 ->
  take st (drop base (cells bp)) = map VFloat row ->
  Forall (fun x => f32_valid x = true) row ->
  length row = st -> (0 < st)%nat ->
  (base + st <= length (cells bq))%nat ->
  vDSP_vrsum (Mem p ain) (-1) (Stack (VFloat f32_one) 0) (Mem q cout) (-1)
    (Z.of_nat st) h
  = Some (<[q := {| owners := owners bq;
                    cells := splice base
                               (map VFloat (exclusive_scan_reverse row))
                               (cells bq) |}]> h).
Proof.
  intros Hpq Hp Hq -> -> Hrow Hv Hlen Hst Hfit.
  unfold vDSP_vrsum. rewrite Nat2Z.id.
  destruct st as [|n]; [lia|].
  change (load_float h (Stack (VFloat f32_one) 0)) with (Some f32_one).
  cbn [mbind option_bind].
  replace (Z.of_nat (base + S n) - 1) with (Z.of_nat (base + n)) by lia.
  rewrite (store_Mem _ _ _ _ _ Hq) by lia. cbn [mbind option_bind].
  set (b1 := {| owners := owners bq;
                cells := <[(base + n)%nat := VFloat f32_zero]> (cells bq) |}).
  rewrite (vrsum_loop_reverse p q _ _ f32_one bp n Hpq 1 (S base) base
             (<[q := b1]> h) f32_zero b1 (rev (drop 1 row))).
  - rewrite insert_insert_eq. do 3 f_equal. cbn [cells b1].
    set (sums := running_sums f32_one f32_zero (rev (drop 1 row))).
    assert (Hs : length (rev (map VFloat sums)) = n).
    { unfold sums.
      rewrite length_rev, length_map, running_sums_length, length_rev,
        length_drop. lia. }
    rewrite <- Hs at 1. rewrite splice_snoc by lia. f_equal.
    unfold exclusive_scan_reverse, exclusive_scan.
    rewrite <- (running_sums_prefix_sums f32_zero (rev row)).
    + rewrite length_rev, take_rev_init.
      fold sums. cbn [rev]. by rewrite map_app, map_rev.
    + by apply Forall_rev.
    + intros E. apply (f_equal length) in E.
      rewrite length_rev in E. cbn in E. lia.
  - by rewrite lookup_insert_ne.
  - apply lookup_insert_eq.
  - lia.
  - lia.
  - rewrite map_rev. f_equal. rewrite <- skipn_map, <- Hrow.
    replace (S base) with (base + 1)%nat by lia.
    by rewrite <- drop_drop, (take_drop_commute _ n 1).
  - apply Forall_rev. by apply Forall_drop.
  - rewrite length_rev, length_drop. lia.
  - cbn. rewrite length_insert. lia.
Qed.

(** *** The two loops over the rows *)

Lemma rows_concat_length {A B} (f : list A -> list B) (st count : nat) :
  (forall l, length (f l) = length l) ->
  forall xs, length xs = (count * st)%nat ->
    length (concat (map f (rows st count xs))) = (count * st)%nat.
Proof.
  intros Hf. induction count as [|count IH]; intros xs Hlen; [done|].
  cbn [rows map concat]. rewrite length_app, Hf, length_take, IH.
  - cbn in Hlen. lia.
  - rewrite length_drop. cbn in Hlen. lia.
Qed.

Lemma scan_forward_spec p q bp (st count : nat) :
  p <> q -> (0 < st)%nat ->
  forall (base : nat) (ain cout : Z) (h : Heap) bq xs,
    h !! p = Some bp -> h !! q = Some bq ->
    ain = Z.of_nat base -> cout = Z.of_nat base ->
    take (count * st) (drop base (cells bp)) = map VFloat xs ->
    Forall (fun x => f32_valid x = true) xs ->
    length xs = (count * st)%nat ->
    (base + count * st <= length (cells bq))%nat ->
    scan_forward count (Mem p ain) (Mem q cout)
      (Stack (VFloat f32_one) 0) (Z.of_nat st) h
    = Some (<[q := {| owners := owners bq;
                      cells := splice base
                        (map VFloat
                           (concat (map exclusive_scan (rows st count xs))))
                        (cells bq) |}]> h).
Proof.
  intros Hpq Hst. induction count as [|count IH];
    intros base ain cout h bq xs Hp Hq -> -> Hxs Hv Hlen Hfit.
  - cbn. by rewrite splice_nil, Buffer_eta, insert_id.
  - cbn [scan_forward ptr_add]. cbn in Hlen, Hfit, Hxs.
    set (row := take st xs).
    assert (Hrow : length row = st) by (unfold row; rewrite length_take; lia).
    rewrite (vDSP_vrsum_forward_row p q bp h bq base st _ _ row Hpq Hp Hq);
      try done; try lia.
    + cbn [mbind option_bind].
      set (b1 := {| owners := owners bq;
                    cells := splice base (map VFloat (exclusive_scan row))
                               (cells bq) |}).
      rewrite (IH (base + st)%nat _ _ (<[q := b1]> h) b1 (drop st xs)).
      * rewrite insert_insert_eq. do 3 f_equal. cbn [cells b1 rows map concat].
        fold row. rewrite map_app.
        assert (Hl : length (map VFloat (exclusive_scan row)) = st).
        { unfold exclusive_scan.
          by rewrite length_map, prefix_sums_length. }
        rewrite <- Hl at 1. apply splice_adjacent. lia.
      * by rewrite lookup_insert_ne.
      * apply lookup_insert_eq.
      * lia.
      * lia.
      * rewrite <- skipn_map, <- Hxs.
        by rewrite <- take_drop_commute, drop_drop.
      * by apply Forall_drop.
      * rewrite length_drop. lia.
      * cbn [cells b1]. rewrite splice_length.
        -- lia.
        -- unfold exclusive_scan.
           rewrite length_map, prefix_sums_length. lia.
    + unfold row. rewrite <- firstn_map, <- Hxs, take_take.
      by replace (st `min` (st + count * st))%nat with st by lia.
    + by apply Forall_take.
Qed.

Lemma exclusive_scan_reverse_length xs :
  length (exclusive_scan_reverse xs) = length xs.
Proof.
  unfold exclusive_scan_reverse, exclusive_scan.
  by rewrite length_rev, prefix_sums_length, length_rev.
Qed.

Lemma scan_reverse_spec p q bp (st count : nat) :
  p <> q -> (0 < st)%nat ->
  forall (base : nat) (ain cout : Z) (h : Heap) bq xs,
    h !! p = Some bp -> h !! q = Some bq ->
    ain = Z.of_nat base -> cout = Z.of_nat base ->
    take (count * st) (drop base (cells bp)) = map VFloat xs ->
    Forall (fun x => f32_valid x = true) xs ->
    length xs = (count * st)%nat ->
    (base + count * st <= length (cells bq))%nat ->
    scan_reverse count (Mem p ain) (Mem q cout)
      (Stack (VFloat f32_one) 0) (Z.of_nat st) h
    = Some (<[q := {| owners := owners bq;
                      cells := splice base
                        (map VFloat
                           (concat (map exclusive_scan_reverse
                                      (rows st count xs))))
                        (cells bq) |}]> h).
Proof.
  intros Hpq Hst. induction count as [|count IH];
    intros base ain cout h bq xs Hp Hq -> -> Hxs Hv Hlen Hfit.
  - cbn. by rewrite splice_nil, Buffer_eta, insert_id.
  - cbn [scan_reverse ptr_add]. cbn in Hlen, Hfit, Hxs.
    set (row := take st xs).
    assert (Hrow : length row = st) by (unfold row; rewrite length_take; lia).
    rewrite (vDSP_vrsum_reverse_row p q bp h bq base st _ _ row Hpq Hp Hq);
      try done; try lia.
    + cbn [mbind option_bind].
      set (b1 := {| owners := owners bq;
                    cells := splice base
                               (map VFloat (exclusive_scan_reverse row))
                               (cells bq) |}).
      rewrite (IH (base + st)%nat _ _ (<[q := b1]> h) b1 (drop st xs)).
      * rewrite insert_insert_eq. do 3 f_equal. cbn [cells b1 rows map concat].
        fold row. rewrite map_app.
        assert (Hl : length (map VFloat (exclusive_scan_reverse row)) = st)
          by (by rewrite length_map, exclusive_scan_reverse_length).
        rewrite <- Hl at 1. apply splice_adjacent. lia.
      * by rewrite lookup_insert_ne.
      * apply lookup_insert_eq.
      * lia.
      * lia.
      * rewrite <- skipn_map, <- Hxs.
        by rewrite <- take_drop_commute, drop_drop.
      * by apply Forall_drop.
      * rewrite length_drop. lia.
      * cbn [cells b1]. rewrite splice_length.
        -- lia.
        -- rewrite length_map, exclusive_scan_reverse_length. lia.
    + unfold row. rewrite <- firstn_map, <- Hxs, take_take.
      by replace (st `min` (st + count * st))%nat with st by lia.
    + by apply Forall_take.
Qed.

(** *** The fast path of Scan *)

Lemma Scan_fast_true rt axis_ incl in_ out :
  Scan_fast rt axis_ incl in_ out = true ->
  incl = false /\ rt = Scan_Sum /\ dtype_eqb (dtype out) float32 = true
  /\ row_contiguous (flags in_) = true /\ index (strides in_) axis_ = Some 1.
Proof.
  unfold Scan_fast. rewrite !andb_true_iff, !bool_decide_eq_true.
  intros ((((Hi & ?) & ?) & ?) & ?). by destruct incl.
Qed.

(** On well-formed inputs the fast path runs to completion: one running sum
    per row into a block that did not exist before. *)
Lemma Scan_fast_run `{MathLib} `{CommonBackend} rt axis_ reverse_ incl
    in_ out (h : Heap) p xs (st count : nat) :
  Scan_fast rt axis_ incl in_ out = true ->
  holds h in_ p (map VFloat xs) ->
  Forall (fun x => f32_valid x = true) xs ->
  index (shape in_) axis_ = Some (Z.of_nat st) -> (0 < st)%nat ->
  size in_ = Z.of_nat (count * st) ->
  data_size in_ = size in_ -> size out = size in_ ->
  Z.of_nat count <= INT_MAX ->
  exists out' h',
    Scan_eval_cpu rt axis_ reverse_ incl [in_] out h = Ok (out', h')
    /\ Scan_eval_cpu rt axis_ reverse_ incl [in_] out h
       = run ((if reverse_ then scan_reverse else scan_forward)
                (Z.to_nat (size in_ / Z.of_nat st)) (Mem p 0)
                (Mem (fresh (dom h)) 0) (Stack (VFloat f32_one) 0)
                (Z.of_nat st))
           out' (set_data_fresh out h).2
    /\ data out' = Some (fresh (dom h))
    /\ cells <$> h' !! fresh (dom h)
       = Some (map VFloat
                 (concat (map (row_scan reverse_) (rows st count xs)))).
Proof.
  intros Hfast (Hdata & (bp & Hp & Hcells) & Hlen) Hv Hshape Hst Hsize Hds
    Hso Hcount.
  destruct (Scan_fast_true _ _ _ _ _ Hfast) as (-> & -> & Hdt & Hrc & Hidx).
  rewrite length_map in Hlen.
  unfold Scan_eval_cpu.
  rewrite Hdt, Hrc, Hidx, bool_decide_eq_true_2 by done.
  cbn [andb of_option mbind Result_bind negb Z.eqb Pos.eqb].
  rewrite set_data_fresh_spec by lia. rewrite Hshape.
  cbn [of_option mbind Result_bind snd].
  destruct (Z.eqb_spec (Z.of_nat st) 0) as [|_]; [lia|].
  assert (Hq : size in_ / Z.of_nat st = Z.of_nat count).
  { rewrite Hsize, Nat2Z.inj_mul. apply Z.div_mul. lia. }
  rewrite Hq, to_int_small, Nat2Z.id by lia.
  unfold data_ptr. rewrite Hdata. cbn [data mbind option_bind of_option Result_bind].
  destruct (fresh_block_new h p bp Hp) as [Hne _].
  set (q := fresh (dom h)) in *.
  set (bq := {| owners := 1;
                cells := replicate (Z.to_nat (size out)) VUninit |}).
  assert (Hlq : length (cells bq) = (count * st)%nat)
    by (cbn; rewrite length_replicate; lia).
  assert (Hxs : take (count * st) (drop 0 (cells bp)) = map VFloat xs).
  { rewrite drop_0, Hcells. apply take_ge. rewrite length_map. lia. }
  assert (Hall : forall f, (forall l, length (f l) = length l) ->
            splice 0 (map VFloat (concat (map f (rows st count xs))))
              (cells bq)
            = map VFloat (concat (map f (rows st count xs)))).
  { intros f Hf. apply splice_all.
    rewrite length_map, (rows_concat_length f st count Hf) by lia.
    done. }
  destruct reverse_; cbn [negb row_scan].
  - pose proof (scan_reverse_spec p q bp st count (not_eq_sym Hne) Hst 0 0 0
                  (<[q := bq]> h) bq xs) as Hrun.
    rewrite lookup_insert_ne, lookup_insert_eq in Hrun by done.
    specialize (Hrun Hp eq_refl eq_refl eq_refl Hxs Hv ltac:(lia) ltac:(lia)).
    eexists _, _. split; [unfold run; rewrite Hrun; reflexivity|].
    split; [reflexivity|]. split; [reflexivity|].
    rewrite lookup_insert_eq. cbn. f_equal.
    apply Hall, exclusive_scan_reverse_length.
  - pose proof (scan_forward_spec p q bp st count (not_eq_sym Hne) Hst 0 0 0
                  (<[q := bq]> h) bq xs) as Hrun.
    rewrite lookup_insert_ne, lookup_insert_eq in Hrun by done.
    specialize (Hrun Hp eq_refl eq_refl eq_refl Hxs Hv ltac:(lia) ltac:(lia)).
    eexists _, _. split; [unfold run; rewrite Hrun; reflexivity|].
    split; [reflexivity|]. split; [reflexivity|].
    rewrite lookup_insert_eq. cbn. f_equal.
    apply Hall. intros l. apply prefix_sums_length.
Qed.

Lemma Scan_example `{MathLib} `{CommonBackend} (reverse_ : bool) (k : nat) :
  result_cells
    (Scan_eval_cpu Scan_Sum 0 reverse_ false
       [vector float32 4 (Some 1%positive)] (vector float32 4 None)
       (heap1 k (map VFloat v1234)))
  = Some (map VFloat (row_scan reverse_ v1234)).
Proof.
  destruct (Scan_fast_run Scan_Sum 0 reverse_ false
              (vector float32 4 (Some 1%positive)) (vector float32 4 None)
              (heap1 k (map VFloat v1234)) 1%positive v1234 4 1)
    as (out' & h' & -> & _ & Hq & Hcells); try reflexivity.
  - split; [reflexivity|]. split; [|reflexivity].
    eexists. split; [apply lookup_singleton_eq|reflexivity].
  - repeat constructor.
  - lia.
  - vm_compute. discriminate.
  - cbn [result_cells]. rewrite Hq. cbn [mbind option_bind].
    set (q := fresh (dom (heap1 k (map VFloat v1234)))) in *.
    destruct (h' !! q) as [b|]; [|discriminate].
    cbn [fmap option_fmap option_map] in Hcells.
    cbn [mbind option_bind]. rewrite Hcells. do 2 f_equal.
    cbn [rows map concat]. by rewrite app_nil_r.
Qed.

Lemma Scan_slow `{MathLib} `{CommonBackend}
    rt axis_ reverse_ incl (in_ out : array) (h : Heap) :
  is_Some (index (strides in_) axis_) ->
  Scan_fast rt axis_ incl in_ out = false ->
  Scan_eval_cpu rt axis_ reverse_ incl [in_] out h
  = eval (Scan rt axis_ reverse_ incl) [in_] out h.
Proof.
  intros [s Hs] Hslow. unfold Scan_eval_cpu. unfold Scan_fast in Hslow.
  rewrite Hs in *.
  destruct (bool_decide (rt = Scan_Sum)); [|reflexivity].
  destruct (dtype_eqb (dtype out) float32); [|reflexivity].
  destruct (row_contiguous (flags in_)); [|reflexivity].
  cbn [andb of_option mbind Result_bind].
  destruct (Z.eqb_spec s 1) as [->|Hne].
  - destruct incl; [reflexivity|].
    rewrite bool_decide_eq_true_2 in Hslow by done. discriminate.
  - reflexivity.
Qed.

(** C3: the fast path of Scan is taken exactly for an exclusive Sum scan
    with float32 output over a row-contiguous input whose scanned axis has
    unit stride, and every other combination is handed to the generic
    evaluation.  On the fast path the tensor is swept as
    [count = total_size / axis_length] rows, each by one running sum
    called with the scalar 1.0; forward, every row receives its exclusive
    prefix sums ([1,2,3,4] gives [0,1,3,6]); in reverse, every row
    receives the mirrored exclusive sums ([1,2,3,4] gives [9,7,4,0]). *)
Theorem Scan_fast_path `{MathLib} `{CommonBackend}
    rt axis_ reverse_ incl (in_ out : array) (h : Heap) :
  (is_Some (index (strides in_) axis_) ->
   Scan_fast rt axis_ incl in_ out = false ->
   Scan_eval_cpu rt axis_ reverse_ incl [in_] out h
   = eval (Scan rt axis_ reverse_ incl) [in_] out h)
  /\ (Scan_fast rt axis_ incl in_ out = true ->
      forall p xs (st count : nat),
        holds h in_ p (map VFloat xs) ->
        Forall (fun x => f32_valid x = true) xs ->
        index (shape in_) axis_ = Some (Z.of_nat st) -> (0 < st)%nat ->
        size in_ = Z.of_nat (count * st) ->
        data_size in_ = size in_ -> size out = size in_ ->
        Z.of_nat count <= INT_MAX ->
        exists out' h',
          Scan_eval_cpu rt axis_ reverse_ incl [in_] out h = Ok (out', h')
          /\ Scan_eval_cpu rt axis_ reverse_ incl [in_] out h
             = run ((if reverse_ then scan_reverse else scan_forward)
                      (Z.to_nat (size in_ / Z.of_nat st)) (Mem p 0)
                      (Mem (fresh (dom h)) 0) (Stack (VFloat f32_one) 0)
                      (Z.of_nat st))
                 out' (set_data_fresh out h).2
          /\ data out' = Some (fresh (dom h))
          /\ cells <$> h' !! fresh (dom h)
             = Some (map VFloat
                       (concat (map (if reverse_ then exclusive_scan_reverse
                                     else exclusive_scan)
                                  (rows st count xs)))))
  /\ (forall k : nat,
        result_cells
          (Scan_eval_cpu Scan_Sum 0 false false
             [vector float32 4 (Some 1%positive)] (vector float32 4 None)
             (heap1 k (map VFloat [f32 1 0; f32 2 0; f32 3 0; f32 4 0])))
        = Some (map VFloat [f32 0 0; f32 1 0; f32 3 0; f32 6 0]))
  /\ (forall k : nat,
        result_cells
          (Scan_eval_cpu Scan_Sum 0 true false
             [vector float32 4 (Some 1%positive)] (vector float32 4 None)
             (heap1 k (map VFloat [f32 1 0; f32 2 0; f32 3 0; f32 4 0])))
        = Some (map VFloat [f32 9 0; f32 7 0; f32 4 0; f32 0 0])).
Proof.
  split; [|split; [|split]].
  - apply Scan_slow.
  - intros Hfast p xs st count. apply Scan_fast_run. exact Hfast.
  - intros k. apply (Scan_example false k).
  - intros k. apply (Scan_example true k).
Qed.

Lemma Scan_fast_path_witness :
  (is_Some (index (strides (matrix22 (Some 1%positive))) 1)
   /\ Scan_fast Scan_Sum 1 true (matrix22 (Some 1%positive))
        (matrix22 None) = false
   /\ @Scan_eval_cpu test_common Scan_Sum 1 false true
        [matrix22 (Some 1%positive)] (matrix22 None)
        (heap1 1 (map VFloat v1234))
      = @eval test_common (Scan Scan_Sum 1 false true)
          [matrix22 (Some 1%positive)] (matrix22 None)
          (heap1 1 (map VFloat v1234)))
  /\ (Scan_fast Scan_Sum 1 false (matrix22 (Some 1%positive))
        (matrix22 None) = true
      /\ exists out' h',
        @Scan_eval_cpu test_common Scan_Sum 1 true false
          [matrix22 (Some 1%positive)] (matrix22 None)
          (heap1 1 (map VFloat v1234)) = Ok (out', h')
        /\ @Scan_eval_cpu test_common Scan_Sum 1 true false
             [matrix22 (Some 1%positive)] (matrix22 None)
             (heap1 1 (map VFloat v1234))
           = run (scan_reverse
                    (Z.to_nat (size (matrix22 (Some 1%positive))
                               / Z.of_nat 2))
                    (Mem 1%positive 0)
                    (Mem (fresh (dom (heap1 1 (map VFloat v1234)))) 0)
                    (Stack (VFloat f32_one) 0) (Z.of_nat 2))
               out'
               (set_data_fresh (matrix22 None)
                  (heap1 1 (map VFloat v1234))).2
        /\ data out' = Some (fresh (dom (heap1 1 (map VFloat v1234))))
        /\ cells <$> h' !! fresh (dom (heap1 1 (map VFloat v1234)))
           = Some (map VFloat
                     (concat (map exclusive_scan_reverse
                                (rows 2 2 v1234))))).
Proof.
  split.
  - split; [by eexists|]. split; [reflexivity|].
    apply (proj1 (@Scan_fast_path test_math test_common Scan_Sum 1 false true
                    (matrix22 (Some 1%positive)) (matrix22 None)
                    (heap1 1 (map VFloat v1234)))).
    + by eexists.
    + reflexivity.
  - split; [reflexivity|].
    apply (proj1 (proj2 (@Scan_fast_path test_math test_common Scan_Sum 1
                           true false (matrix22 (Some 1%positive))
                           (matrix22 None) (heap1 1 (map VFloat v1234))))
             eq_refl 1%positive v1234 2%nat 2%nat).
    + split; [reflexivity|]. split; [|reflexivity].
      eexists. split; reflexivity.
    + repeat constructor.
    + reflexivity.
    + lia.
    + reflexivity.
    + reflexivity.
    + reflexivity.
    + vm_compute. discriminate.
Defined.

(** C10: on its fast path Scan never donates: whenever it returns, the
    output's storage is a block that did not exist before (so it is not the
    input's), and every block that existed, the input's included, is
    unchanged in contents and ownership, even if the input was donatable
    with the output's itemsize.  The new block is in the returned heap, the
    only block added to it, owned by the output alone and with one cell per
    element of the output.  On well-formed inputs the fast path does
    return. *)
Theorem Scan_fast_path_allocates `{MathLib} `{CommonBackend}
    rt axis_ reverse_ incl (in_ out : array) (h : Heap) :
  Scan_fast rt axis_ incl in_ out = true ->
  (forall out' h',
     Scan_eval_cpu rt axis_ reverse_ incl [in_] out h = Ok (out', h') ->
     data out' = Some (fresh (dom h))
     /\ (fresh (dom h) ∉ dom h)
     /\ (forall p, data in_ = Some p -> p ∈ dom h -> data out' <> data in_)
     /\ (forall r, r ∈ dom h -> h' !! r = h !! r)
     /\ dom h' = {[fresh (dom h)]} ∪ dom h
     /\ (exists b, h' !! fresh (dom h) = Some b
           /\ owners b = 1%nat
           /\ length (cells b) = Z.to_nat (size out)))
  /\ (forall p xs (st count : nat),
        holds h in_ p (map VFloat xs) ->
        Forall (fun x => f32_valid x = true) xs ->
        index (shape in_) axis_ = Some (Z.of_nat st) -> (0 < st)%nat ->
        size in_ = Z.of_nat (count * st) ->
        data_size in_ = size in_ -> size out = size in_ ->
        Z.of_nat count <= INT_MAX ->
        exists out' h',
          Scan_eval_cpu rt axis_ reverse_ incl [in_] out h = Ok (out', h')).
Proof.
  intros Hfast. split.
  - intros out' h' Hrun.
    destruct (Scan_fast_true _ _ _ _ _ Hfast) as (-> & -> & Hdt & Hrc & Hidx).
    unfold Scan_eval_cpu in Hrun.
    rewrite Hdt, Hrc, Hidx, bool_decide_eq_true_2 in Hrun by done.
    cbn [andb of_option mbind Result_bind negb Z.eqb Pos.eqb] in Hrun.
    unfold set_data_fresh, malloc_or_wait, set_data in Hrun.
    rewrite alter_insert_eq in Hrun.
    destruct (index (shape in_) axis_) as [stride|];
      cbn [of_option mbind Result_bind] in Hrun; [|discriminate].
    destruct (stride =? 0); [discriminate|].
    destruct (data_ptr in_) as [input|];
      cbn [of_option mbind Result_bind] in Hrun; [|discriminate].
    cbn [data_ptr data mbind option_bind of_option Result_bind] in Hrun.
    set (q := fresh (dom h)) in *.
    assert (Hnew : q ∉ dom h) by apply is_fresh.
    assert (Hframe : forall r, r ∈ dom h -> h' !! r = h !! r /\ r <> q).
    { intros r Hr. assert (r <> q) by (intros ->; done). split; [|done].
      unfold run in Hrun.
      destruct reverse_; cbn [negb] in Hrun.
      - destruct (scan_reverse _ _ _ _ _ _) as [h2|] eqn:Hs;
          cbn [of_option mbind Result_bind] in Hrun; [|discriminate].
        injection Hrun as _ <-.
        rewrite (scan_reverse_frame _ _ _ _ _ _ _ _ Hs r) by done.
        by rewrite lookup_insert_ne.
      - destruct (scan_forward _ _ _ _ _ _) as [h2|] eqn:Hs;
          cbn [of_option mbind Result_bind] in Hrun; [|discriminate].
        injection Hrun as _ <-.
        rewrite (scan_forward_frame _ _ _ _ _ _ _ _ Hs r) by done.
        by rewrite lookup_insert_ne. }
    assert (Hblock : dom h' = {[q]} ∪ dom h
              /\ exists b, h' !! q = Some b /\ owners b = 1%nat
                   /\ length (cells b) = Z.to_nat (size out)).
    { assert (Hlen : Z.to_nat (nbytes out / itemsize out)
                     = Z.to_nat (size out)).
      { unfold nbytes. rewrite Z.div_mul; [done|].
        unfold itemsize. by destruct (dtype out). }
      unfold run in Hrun.
      destruct reverse_; cbn [negb] in Hrun.
      - destruct (scan_reverse _ _ _ _ _ _) as [h2|] eqn:Hs;
          cbn [of_option mbind Result_bind] in Hrun; [|discriminate].
        injection Hrun as _ <-.
        destruct (scan_reverse_block _ _ _ _ _ _ _ _ _ Hs
                    (lookup_insert_eq _ _ _))
          as (Hd & b & Hb & Ho & Hl).
        rewrite Hd, dom_insert_L. split; [done|]. exists b.
        split; [done|]. split; [done|].
        by rewrite Hl; cbn; rewrite length_replicate.
      - destruct (scan_forward _ _ _ _ _ _) as [h2|] eqn:Hs;
          cbn [of_option mbind Result_bind] in Hrun; [|discriminate].
        injection Hrun as _ <-.
        destruct (scan_forward_block _ _ _ _ _ _ _ _ _ Hs
                    (lookup_insert_eq _ _ _))
          as (Hd & b & Hb & Ho & Hl).
        rewrite Hd, dom_insert_L. split; [done|]. exists b.
        split; [done|]. split; [done|].
        by rewrite Hl; cbn; rewrite length_replicate. }
    assert (Hout : data out' = Some q).
    { unfold run in Hrun.
      destruct reverse_; cbn [negb] in Hrun;
        destruct (_ : option Heap) as [h2|];
        cbn [of_option mbind Result_bind] in Hrun; try discriminate;
        by injection Hrun as <- _. }
    split; [done|]. split; [done|]. split; [|split; [|done]].
    + intros p Hp Hin. rewrite Hout, Hp. intros [= E].
      destruct (Hframe p Hin) as [_ Hne]. by apply Hne.
    + intros r Hr. by apply Hframe.
  - intros p xs st count Hholds Hv Hshape Hst Hsize Hds Hso Hcount.
    destruct (Scan_fast_run rt axis_ reverse_ incl in_ out h p xs st count)
      as (out' & h' & Hrun & _); eauto.
Qed.

Lemma Scan_fast_path_allocates_witness :
  Scan_fast Scan_Sum 0 false (vector float32 4 (Some 1%positive))
    (vector float32 4 None) = true
  /\ is_donatable (heap1 1 (map VFloat v1234))
       (vector float32 4 (Some 1%positive)) = true
  /\ exists out' h',
      @Scan_eval_cpu test_common Scan_Sum 0 false false
        [vector float32 4 (Some 1%positive)] (vector float32 4 None)
        (heap1 1 (map VFloat v1234)) = Ok (out', h')
      /\ data out' = Some (fresh (dom (heap1 1 (map VFloat v1234))))
      /\ (fresh (dom (heap1 1 (map VFloat v1234)))
            ∉ dom (heap1 1 (map VFloat v1234)))
      /\ (forall p, data (vector float32 4 (Some 1%positive)) = Some p ->
            p ∈ dom (heap1 1 (map VFloat v1234)) ->
            data out' <> data (vector float32 4 (Some 1%positive)))
      /\ (forall r, r ∈ dom (heap1 1 (map VFloat v1234)) ->
            h' !! r = heap1 1 (map VFloat v1234) !! r)
      /\ dom h' = {[fresh (dom (heap1 1 (map VFloat v1234)))]}
                  ∪ dom (heap1 1 (map VFloat v1234))
      /\ (exists b,
            h' !! fresh (dom (heap1 1 (map VFloat v1234))) = Some b
            /\ owners b = 1%nat
            /\ length (cells b)
               = Z.to_nat (size (vector float32 4 None))).
Proof.
  split; [reflexivity|]. split; [reflexivity|].
  pose proof (@Scan_fast_path_allocates test_math test_common Scan_Sum 0
                false false (vector float32 4 (Some 1%positive))
                (vector float32 4 None) (heap1 1 (map VFloat v1234))
                eq_refl) as [Hframe Hruns].
  destruct (Hruns 1%positive v1234 4%nat 1%nat) as (out' & h' & Hrun).
  - split; [reflexivity|]. split; [|reflexivity].
    eexists. split; reflexivity.
  - repeat constructor.
  - reflexivity.
  - lia.
  - reflexivity.
  - reflexivity.
  - reflexivity.
  - vm_compute. discriminate.
  - exists out', h'. split; [exact Hrun|]. exact (Hframe out' h' Hrun).
Defined.

(** ** Remainder *)

(** C7 (the code diverges): the generic functor [RemainderFn] computes the
    truncating [%] on integers ([7 % 3 = 1], [-7 % 3 = -1]) and [fmod] on
    floats ([fmod(5.5, 2) = 1.5]), but on two dense float32 vectors of equal
    size [Remainder::eval_cpu] runs [vvremainderf], the IEEE remainder, and
    answers [-0.5] for [(5.5, 2)], where the generic evaluation of the same
    inputs answers [1.5]. *)
Theorem Remainder_vector_path_is_not_fmod `{CommonBackend} :
  RemainderFn int32 (VInt int32 7) (VInt int32 3) = Some (VInt int32 1)
  /\ RemainderFn int32 (VInt int32 (-7)) (VInt int32 3)
     = Some (VInt int32 (-1))
  /\ RemainderFn float32 (VFloat (f32 11 (-1))) (VFloat (f32 2 0))
     = Some (VFloat (f32 3 (-1)))
  /\ result_cells
       (Remainder_eval_cpu
          [vector float32 2 (Some 1%positive);
           vector float32 2 (Some 2%positive)]
          (vector float32 2 None) heap_rem)
     = Some [VFloat (f32 (-1) (-1)); VFloat (f32 (-1) (-1))]
  /\ result_cells
       (binary (vector float32 2 (Some 1%positive))
          (vector float32 2 (Some 2%positive)) (vector float32 2 None)
          RemainderFn None None None heap_rem)
     = Some [VFloat (f32 3 (-1)); VFloat (f32 3 (-1))].
Proof. repeat split; vm_compute; reflexivity. Qed.

(** ** Fast paths against the generic evaluation *)

Lemma binary_no_kernel_case `{CommonBackend} a b out op k1 k2 k3 k1' k2' k3'
    (h : Heap) :
  match get_binary_op_type a b with
  | ScalarVector => k1 = k1'
  | VectorScalar => k2 = k2'
  | VectorVector => k3 = k3'
  | General => True
  end ->
  binary a b out op k1 k2 k3 h = binary a b out op k1' k2' k3' h.
Proof.
  unfold binary. destruct (get_binary_op_type a b); intros E;
    try rewrite E; reflexivity.
Qed.

Ltac binary_fallback Hg :=
  apply binary_no_kernel_case;
  destruct (get_binary_op_type _ _); try reflexivity;
  try (vm_compute in Hg; discriminate Hg).

Lemma fallback_selected `{MathLib} `{CommonBackend} p inputs out (h : Heap) :
  well_formed_call p inputs out = true ->
  fast_path_guard p inputs out = false ->
  if floating_only p && negb (is_floating_point (dtype out))
  then throws_invalid_argument p inputs out h
  else selects_fallback p inputs out h.
Proof.
  intros Hwf Hg.
  destruct p; unfold selects_fallback, throws_invalid_argument;
    cbn [eval_cpu floating_only andb]; try reflexivity;
    destruct inputs as [|a [|b [|c l]]]; try discriminate Hwf;
    cbn [fast_path_guard well_formed_call] in Hg, Hwf;
    cbn [generic_evaluation].
  - (* Abs *)
    unfold Abs_eval_cpu.
    destruct (dtype_eqb (dtype a) float32), (dtype_eqb (dtype a) int32),
      (contiguous (flags a)), (is_unsigned (dtype a));
      try discriminate Hg; reflexivity.
  - (* Add *)
    unfold Add_eval_cpu.
    destruct (dtype a); cbn [dtype_eqb bool_decide decide_rel];
      try reflexivity; binary_fallback Hg.
  - unfold ArcCos_eval_cpu, vForce_eval_cpu. by rewrite Hg.
  - unfold ArcCosh_eval_cpu, vForce_eval_cpu. by rewrite Hg.
  - unfold ArcSin_eval_cpu, vForce_eval_cpu. by rewrite Hg.
  - unfold ArcSinh_eval_cpu, vForce_eval_cpu. by rewrite Hg.
  - unfold ArcTan_eval_cpu, vForce_eval_cpu. by rewrite Hg.
  - unfold ArcTanh_eval_cpu, vForce_eval_cpu. by rewrite Hg.
  - (* AsType *)
    exact (AsType_slow a out h Hg).
  - unfold Cos_eval_cpu, vForce_eval_cpu. by rewrite Hg.
  - unfold Cosh_eval_cpu, vForce_eval_cpu. by rewrite Hg.
  - (* Divide *)
    unfold Divide_eval_cpu.
    destruct (dtype a); cbn [dtype_eqb bool_decide decide_rel];
      try reflexivity; binary_fallback Hg.
  - (* Remainder *)
    unfold Remainder_eval_cpu.
    destruct (dtype a); cbn [dtype_eqb bool_decide decide_rel];
      try reflexivity; binary_fallback Hg.
  - (* Exp *)
    unfold Exp_eval_cpu, unary_fp. rewrite Hg.
    destruct (is_floating_point (dtype out)); cbn; [reflexivity|by eexists].
  - (* Full *)
    unfold Full_eval_cpu. by rewrite Hwf, Hg.
  - unfold Log_eval_cpu, vForce_eval_cpu. by rewrite Hg.
  - (* Log1p *)
    unfold Log1p_eval_cpu, unary_fp. rewrite Hg.
    destruct (is_floating_point (dtype out)); cbn; [reflexivity|by eexists].
  - (* Multiply *)
    unfold Multiply_eval_cpu.
    destruct (dtype a); cbn [dtype_eqb bool_decide decide_rel];
      try reflexivity; binary_fallback Hg.
  - unfold Negative_eval_cpu. by rewrite Hg.
  - (* Power *)
    exact (Power_slow a b out h Hg).
  - (* Scan *)
    apply bool_decide_eq_true in Hwf.
    exact (Scan_slow reduce_type_ axis_ reverse_ inclusive_ a out h Hwf Hg).
  - unfold Sin_eval_cpu, vForce_eval_cpu. by rewrite Hg.
  - unfold Sinh_eval_cpu, vForce_eval_cpu. by rewrite Hg.
  - unfold Square_eval_cpu. by rewrite Hg.
  - unfold Sqrt_eval_cpu. by rewrite Hg.
  - (* Subtract *)
    unfold Subtract_eval_cpu.
    destruct (dtype a); cbn [dtype_eqb bool_decide decide_rel];
      try reflexivity; binary_fallback Hg.
  - unfold Tan_eval_cpu, vForce_eval_cpu. by rewrite Hg.
  - unfold Tanh_eval_cpu, vForce_eval_cpu. by rewrite Hg.
Qed.

(** *** Kernels against the generic functor *)

Lemma binary_loop_ext_swap f g A IA B IB C IC (n : nat) :
  (forall x y, f x y = g y x) ->
  forall i (h : Heap),
    binary_loop f A IA B IB C IC i n h = binary_loop g B IB A IA C IC i n h.
Proof.
  intros Hfg. induction n as [|n IH]; intros i h; [done|].
  cbn [binary_loop].
  destruct (load h (ptr_add A (i * IA))) as [x|],
    (load h (ptr_add B (i * IB))) as [y|]; cbn; try done.
  rewrite Hfg. destruct (g y x) as [z|]; cbn; [|done].
  destruct (store h _ z) as [h'|]; cbn; [|done]. apply IH.
Qed.

(** A scalar operand whose block is not the output's can be read once. *)
Lemma binary_loop_scalar_once f g A IA pb ob q c0 IC v w (n : nat) :
  q <> pb -> (forall x, f x v = g x w) ->
  forall i (h : Heap),
    load h (Mem pb ob) = Some v ->
    binary_loop f A IA (Mem pb ob) 0 (Mem q c0) IC i n h
    = binary_loop g A IA (Stack w 0) 0 (Mem q c0) IC i n h.
Proof.
  intros Hq Hfg. induction n as [|n IH]; intros i h Hv; [done|].
  cbn [binary_loop ptr_add].
  destruct (load h (ptr_add A (i * IA))) as [x|]; cbn; [|done].
  replace (ob + i * 0) with ob by lia.
  replace (0 + i * 0) with 0 by lia.
  rewrite Hv. change (load h (Stack w 0)) with (Some w). cbn.
  rewrite Hfg. destruct (g x w) as [z|]; cbn; [|done].
  destruct (store h _ z) as [h'|] eqn:Hst; cbn; [|done].
  apply IH. unfold load in *.
  by rewrite (store_frame _ _ _ _ _ Hst pb) by done.
Qed.

(** *** Commutation of the float32 operations *)

Lemma f32_add_comm x y : f32_add x y = f32_add y x.
Proof.
  destruct x as [[]|[]| |sx mx ex], y as [[]|[]| |sy my ey];
    try reflexivity.
  unfold f32_add, SFadd. by rewrite (Z.min_comm ey ex), Z.add_comm.
Qed.

Lemma f32_mul_comm x y : f32_mul x y = f32_mul y x.
Proof.
  destruct x as [sx|sx| |sx mx ex], y as [sy|sy| |sy my ey];
    unfold f32_mul, SFmul; rewrite ?(xorb_comm sy sx); try reflexivity.
  by rewrite (Pos.mul_comm my mx), (Z.add_comm ey ex).
Qed.

Lemma f32_sub_add_neg x y : f32_sub x y = f32_add x (f32_neg y).
Proof.
  destruct x as [[]|[]| |sx mx ex], y as [[]|[]| |sy my ey];
    try reflexivity.
  unfold f32_sub, f32_add, f32_neg, SFsub, SFadd, SFopp.
  f_equal. destruct sy; cbn [negb cond_Zopp]; lia.
Qed.

Lemma f32_valid_neg x : f32_valid (f32_neg x) = f32_valid x.
Proof. by destruct x. Qed.

Lemma f32_mul_minus_one x :
  f32_valid x = true -> f32_mul x (f32 (-1) 0) = f32_neg x.
Proof.
  rewrite f32_mul_comm.
  destruct x as [[]|[]| |s m e]; try reflexivity.
  intros Hv.
  change (f32_mul (f32 (-1) 0) (S754_finite s m e))
    with (binary_round_aux 24 128 (negb s) (Zpos (8388608 * m)) (-23 + e)
            loc_Exact).
  by apply (round_shifted (negb s) m e).
Qed.

Lemma to_int_add_neg x y : to_int (x + to_int (- y)) = to_int (x - y).
Proof.
  unfold to_int, wrap. rewrite bool_decide_eq_false_2 by discriminate.
  change (is_signed int32) with true. cbv iota.
  change (bits int32) with 32. change (32 - 1) with 31.
  f_equal.
  replace (x + ((- y + 2 ^ 31) mod 2 ^ 32 - 2 ^ 31) + 2 ^ 31)
    with (x + (- y + 2 ^ 31) mod 2 ^ 32) by lia.
  rewrite Zplus_mod_idemp_r. f_equal. lia.
Qed.

Lemma float2_comm f :
  (forall a b, f a b = f b a) -> forall x y, float2 f x y = float2 f y x.
Proof.
  intros Hf x y. unfold float2.
  destruct (as_float x), (as_float y); cbn; try done. by rewrite Hf.
Qed.

Lemma int2_comm d f :
  (forall a b : Z, f a b = f b a) -> forall x y, int2 d f x y = int2 d f y x.
Proof.
  intros Hf x y. unfold int2.
  destruct (as_int d x), (as_int d y); cbn; try done. by rewrite Hf.
Qed.

Lemma dtype_set_unary_output_data in_ out (h : Heap) :
  dtype (set_unary_output_data in_ out h).1 = dtype out.
Proof.
  unfold set_unary_output_data.
  by destruct (is_donatable h in_ && (itemsize in_ =? itemsize out)).
Qed.

Lemma dtype_set_binary_op_output_data a b out bopt (h : Heap) :
  dtype (set_binary_op_output_data a b out bopt h).1 = dtype out.
Proof.
  unfold set_binary_op_output_data.
  destruct bopt; try apply dtype_set_unary_output_data;
    destruct (is_donatable h a && (itemsize a =? itemsize out));
    try done; apply dtype_set_unary_output_data.
Qed.

Lemma data_set_unary_output_data in_ out (h : Heap) :
  data (set_unary_output_data in_ out h).1 = data in_
  \/ data (set_unary_output_data in_ out h).1 = Some (fresh (dom h)).
Proof.
  unfold set_unary_output_data.
  destruct (is_donatable h in_ && (itemsize in_ =? itemsize out));
    [by left|by right].
Qed.

(** The binary engine with kernels is the binary engine without them as
    soon as every supplied kernel does, on the call the engine makes, what
    the per-element application of the functor does. *)
Lemma binary_agree `{CommonBackend} a b out op k1 k2 k3 (h : Heap) :
  (forall out1 h1 A B C,
     set_binary_op_output_data a b out (get_binary_op_type a b) h
     = (out1, h1) ->
     data_ptr a = Some A -> data_ptr b = Some B -> data_ptr out1 = Some C ->
     match get_binary_op_type a b with
     | ScalarVector =>
         forall k, k1 = Some k ->
           k A B C (data_size b) h1
           = binary_loop (op (dtype out)) A 0 B 1 C 1 0
               (Z.to_nat (data_size b)) h1
     | VectorScalar =>
         forall k, k2 = Some k ->
           k A B C (data_size a) h1
           = binary_loop (op (dtype out)) A 1 B 0 C 1 0
               (Z.to_nat (data_size a)) h1
     | VectorVector =>
         forall k, k3 = Some k ->
           k A B C (data_size a) h1
           = binary_loop (op (dtype out)) A 1 B 1 C 1 0
               (Z.to_nat (data_size a)) h1
     | General => True
     end) ->
  binary a b out op k1 k2 k3 h = binary a b out op None None None h.
Proof.
  intros Hk. unfold binary.
  pose proof (dtype_set_binary_op_output_data a b out
                (get_binary_op_type a b) h) as Hdt.
  destruct (get_binary_op_type a b);
    try reflexivity;
    destruct (set_binary_op_output_data _ _ _ _ _) as [out1 h1];
    cbn [fst] in Hdt;
    destruct (data_ptr a) as [A|]; cbn [of_option mbind Result_bind];
    try reflexivity;
    destruct (data_ptr b) as [B|]; cbn [of_option mbind Result_bind];
    try reflexivity;
    destruct (data_ptr out1) as [C|] eqn:HC;
    cbn [of_option mbind Result_bind];
    try reflexivity;
    specialize (Hk out1 h1 A B C eq_refl eq_refl eq_refl HC);
    rewrite Hdt.
  - destruct k1 as [k|]; [|reflexivity]. unfold run. by rewrite (Hk k).
  - destruct k2 as [k|]; [|reflexivity]. unfold run. by rewrite (Hk k).
  - destruct k3 as [k|]; [|reflexivity]. unfold run. by rewrite (Hk k).
Qed.

Ltac by_structural_case :=
  let k := fresh "k" in
  apply binary_agree;
  intros out1 h1 A B C Hs HA HB HC;
  destruct (get_binary_op_type _ _) eqn:Hcase; [| | |exact I];
  intros k [= <-].

Lemma Add_agrees `{CommonBackend} a b out (h : Heap) :
  dtype out = dtype a ->
  Add_eval_cpu [a; b] out h = binary a b out plus None None None h.
Proof.
  intros Hdt. unfold Add_eval_cpu.
  destruct (dtype a) eqn:Ha; cbn [dtype_eqb bool_decide decide_rel];
    try reflexivity; by_structural_case; rewrite Hdt;
    try reflexivity.
  - apply binary_loop_ext_swap, int2_comm, Z.add_comm.
  - apply binary_loop_ext_swap, float2_comm, f32_add_comm.
Qed.

Lemma Multiply_agrees `{CommonBackend} a b out (h : Heap) :
  dtype out = dtype a ->
  Multiply_eval_cpu [a; b] out h = binary a b out times None None None h.
Proof.
  intros Hdt. unfold Multiply_eval_cpu.
  destruct (dtype a) eqn:Ha; cbn [dtype_eqb bool_decide decide_rel];
    try reflexivity; by_structural_case; rewrite Hdt;
    try reflexivity.
  apply binary_loop_ext_swap, float2_comm, f32_mul_comm.
Qed.

Lemma Divide_agrees `{CommonBackend} a b out (h : Heap) :
  dtype out = dtype a ->
  Divide_eval_cpu [a; b] out h = binary a b out divides None None None h.
Proof.
  intros Hdt. unfold Divide_eval_cpu.
  destruct (dtype a) eqn:Ha; cbn [dtype_eqb bool_decide decide_rel];
    try reflexivity; by_structural_case; rewrite Hdt;
    try reflexivity; discriminate.
Qed.

Lemma as_float_Some v x :
  as_float v = Some x -> v = VFloat x /\ f32_valid x = true.
Proof.
  destruct v as [y| | |]; cbn; try discriminate.
  destruct (f32_valid y) eqn:Hv; [|discriminate]. by intros [= <-].
Qed.

(** The scalar-right kernel of the float32 subtraction negates the scalar
    once and adds it to every element. *)
Lemma subtract_scalar_right_float A pb q (n : nat) (h : Heap) :
  q <> pb -> (0 < n)%nat ->
  (s0 ← load_float h (Mem pb 0);
   binary_loop (float2 f32_add) A 1 (Stack (VFloat (f32_neg s0)) 0) 0
     (Mem q 0) 1 0 n h)
  = binary_loop (float2 f32_sub) A 1 (Mem pb 0) 0 (Mem q 0) 1 0 n h.
Proof.
  intros Hq Hn. unfold load_float.
  destruct (load h (Mem pb 0)) as [v|] eqn:Hv; cbn [mbind option_bind].
  - destruct (as_float v) as [s0|] eqn:Hs; cbn [mbind option_bind].
    + symmetry. apply binary_loop_scalar_once with (v := v); [done| |done].
      intros x. unfold float2. rewrite Hs.
      destruct (as_float_Some _ _ Hs) as [_ Hvalid].
      assert (as_float (VFloat (f32_neg s0)) = Some (f32_neg s0)) as ->
        by (unfold as_float; by rewrite f32_valid_neg, Hvalid).
      destruct (as_float x); cbn; [|done].
      by rewrite f32_sub_add_neg.
    + destruct n as [|n]; [lia|]. cbn [binary_loop ptr_add].
      destruct (load h (ptr_add A (0 * 1))) as [x|]; cbn; [|done].
      replace (0 + 0 * 0) with 0 by lia. rewrite Hv. cbn.
      unfold float2. rewrite Hs. by destruct (as_float x).
  - destruct n as [|n]; [lia|]. cbn [binary_loop ptr_add].
    destruct (load h (ptr_add A (0 * 1))) as [x|]; cbn; [|done].
    replace (0 + 0 * 0) with 0 by lia. by rewrite Hv.
Qed.

Lemma subtract_scalar_right_int A pb q (n : nat) (h : Heap) :
  q <> pb -> (0 < n)%nat ->
  (s0 ← load_int int32 h (Mem pb 0);
   binary_loop (int2 int32 Z.add) A 1
     (Stack (VInt int32 (to_int (- s0))) 0) 0 (Mem q 0) 1 0 n h)
  = binary_loop (int2 int32 Z.sub) A 1 (Mem pb 0) 0 (Mem q 0) 1 0 n h.
Proof.
  intros Hq Hn. unfold load_int.
  destruct (load h (Mem pb 0)) as [v|] eqn:Hv; cbn [mbind option_bind].
  - destruct (as_int int32 v) as [s0|] eqn:Hs; cbn [mbind option_bind].
    + symmetry. apply binary_loop_scalar_once with (v := v); [done| |done].
      intros x. unfold int2. rewrite Hs.
      change (as_int int32 (VInt int32 (to_int (- s0))))
        with (Some (to_int (- s0))).
      destruct (as_int int32 x) as [m|]; cbn; [|done].
      do 2 f_equal. symmetry. apply to_int_add_neg.
    + destruct n as [|n]; [lia|]. cbn [binary_loop ptr_add].
      destruct (load h (ptr_add A (0 * 1))) as [x|]; cbn; [|done].
      replace (0 + 0 * 0) with 0 by lia. rewrite Hv. cbn.
      unfold int2. rewrite Hs. by destruct (as_int int32 x).
  - destruct n as [|n]; [lia|]. cbn [binary_loop ptr_add].
    destruct (load h (ptr_add A (0 * 1))) as [x|]; cbn; [|done].
    replace (0 + 0 * 0) with 0 by lia. by rewrite Hv.
Qed.

(** The scalar-left kernel of the float32 subtraction computes
    [vec * (-1) + s]. *)
Lemma subtract_scalar_left_float x y :
  float2 (fun a c => f32_add (f32_mul a (f32 (-1) 0)) c) x y
  = float2 f32_sub y x.
Proof.
  unfold float2.
  destruct (as_float x) as [a|] eqn:Hx, (as_float y) as [c|];
    cbn [mbind option_bind]; try done.
  destruct (as_float_Some _ _ Hx) as [_ Hv].
  by rewrite (f32_mul_minus_one a Hv), f32_add_comm, f32_sub_add_neg.
Qed.

Lemma Subtract_agrees `{CommonBackend} a b out (h : Heap) pb :
  dtype out = dtype a ->
  data b = Some pb -> pb ∈ dom h -> data a <> data b -> 0 < data_size a ->
  Subtract_eval_cpu [a; b] out h = binary a b out minus None None None h.
Proof.
  intros Hdt Hb Hpb Hab Hn. unfold Subtract_eval_cpu.
  assert (Hout : forall out1 h1 C,
            set_unary_output_data a out h = (out1, h1) ->
            data_ptr out1 = Some C -> exists q, C = Mem q 0 /\ q <> pb).
  { intros out1 h1 C Hs HC.
    pose proof (data_set_unary_output_data a out h) as Hd.
    rewrite Hs in Hd. cbn [fst] in Hd. unfold data_ptr in HC.
    destruct (data out1) as [q|]; [|discriminate]. injection HC as <-.
    exists q. split; [done|]. destruct Hd as [Hd|Hd].
    - intros ->. congruence.
    - injection Hd as ->. intros E. apply (is_fresh (dom h)). by rewrite E. }
  destruct (dtype a) eqn:Ha; cbn [dtype_eqb bool_decide decide_rel];
    try reflexivity; by_structural_case; rewrite Hdt; try reflexivity.
  - (* int32, vector - scalar *)
    cbn [set_binary_op_output_data] in Hs.
    destruct (Hout _ _ _ Hs HC) as (q & -> & Hq).
    unfold data_ptr in HB. rewrite Hb in HB. injection HB as <-.
    unfold vDSP_vsaddi.
    apply (subtract_scalar_right_int A pb q); [done|lia].
  - (* float32, scalar - vector *)
    unfold vDSP_vsmsa.
    change (load_float h1 (Stack (VFloat (f32 (-1) 0)) 0))
      with (Some (f32 (-1) 0)).
    cbn [mbind option_bind].
    apply binary_loop_ext_swap, subtract_scalar_left_float.
  - (* float32, vector - scalar *)
    cbn [set_binary_op_output_data] in Hs.
    destruct (Hout _ _ _ Hs HC) as (q & -> & Hq).
    unfold data_ptr in HB. rewrite Hb in HB. injection HB as <-.
    unfold vDSP_vsadd.
    apply (subtract_scalar_right_float A pb q); [done|lia].
Qed.

Lemma Negative_agrees `{CommonBackend} in_ out (h : Heap) :
  dtype out = dtype in_ ->
  Negative_eval_cpu [in_] out h = unary in_ out negate h.
Proof.
  intros Hdt. unfold Negative_eval_cpu, unary.
  destruct (dtype_eqb (dtype in_) float32) eqn:Hf; [|reflexivity].
  apply bool_decide_eq_true in Hf.
  destruct (contiguous (flags in_)); [|reflexivity]. cbn [andb].
  pose proof (dtype_set_unary_output_data in_ out h) as Hd.
  destruct (set_unary_output_data in_ out h) as [out1 h1]. cbn [fst] in Hd.
  by rewrite Hd, Hdt, Hf.
Qed.

Lemma Square_agrees `{CommonBackend} in_ out (h : Heap) :
  dtype out = dtype in_ ->
  Square_eval_cpu [in_] out h = unary in_ out square h.
Proof.
  intros Hdt. unfold Square_eval_cpu, unary.
  destruct (dtype_eqb (dtype in_) float32) eqn:Hf; [|reflexivity].
  apply bool_decide_eq_true in Hf.
  destruct (contiguous (flags in_)); [|reflexivity]. cbn [andb].
  pose proof (dtype_set_unary_output_data in_ out h) as Hd.
  destruct (set_unary_output_data in_ out h) as [out1 h1]. cbn [fst] in Hd.
  by rewrite Hd, Hdt, Hf.
Qed.

(** C1 (the code diverges): for every operation of the optimized CPU
    backend, a well-formed call that does not satisfy the operation's
    fast-path condition is the generic evaluation of the same call; the one
    error among these calls, Exp or Log1p with a non-floating output, is
    the invalid-argument error itself, raised by the entry point and by the
    generic evaluation alike, in the initial state.  Where the translation
    unit gives both the generic functor and a vDSP kernel (Add, Multiply,
    Divide, Subtract, Negative, Square, the output having the operands'
    dtype) the entry point computes on every input what the generic
    evaluation computes.  But Remainder on two dense float32 vectors, where
    the fast-path condition holds and the generic evaluation applies too,
    answers [-0.5] for [(5.5, 2)] where the generic evaluation answers
    [1.5]. *)
Theorem fallback_equivalence `{MathLib} `{CommonBackend} :
  (forall p inputs out (h : Heap),
     well_formed_call p inputs out = true ->
     fast_path_guard p inputs out = false ->
     (floating_only p = true -> is_floating_point (dtype out) = true) ->
     selects_fallback p inputs out h)
  /\ (forall p inputs out (h : Heap),
        well_formed_call p inputs out = true ->
        floating_only p = true ->
        is_floating_point (dtype out) = false ->
        fast_path_guard p inputs out = false
        /\ throws_invalid_argument p inputs out h
        /\ exists msg,
            generic_evaluation p inputs out h
            = Throw (invalid_argument msg) h)
  /\ (forall a b out (h : Heap),
        dtype out = dtype a ->
        Add_eval_cpu [a; b] out h = generic_evaluation Add [a; b] out h
        /\ Multiply_eval_cpu [a; b] out h
           = generic_evaluation Multiply [a; b] out h
        /\ Divide_eval_cpu [a; b] out h
           = generic_evaluation Divide [a; b] out h)
  /\ (forall a b out (h : Heap) pb,
        dtype out = dtype a ->
        data b = Some pb -> pb ∈ dom h -> data a <> data b ->
        0 < data_size a ->
        Subtract_eval_cpu [a; b] out h
        = generic_evaluation Subtract [a; b] out h)
  /\ (forall in_ out (h : Heap),
        dtype out = dtype in_ ->
        Negative_eval_cpu [in_] out h
        = generic_evaluation Negative [in_] out h
        /\ Square_eval_cpu [in_] out h
           = generic_evaluation Square [in_] out h)
  /\ (well_formed_call Remainder
        [vector float32 2 (Some 1%positive);
         vector float32 2 (Some 2%positive)] (vector float32 2 None) = true
      /\ fast_path_guard Remainder
           [vector float32 2 (Some 1%positive);
            vector float32 2 (Some 2%positive)] (vector float32 2 None)
         = true
      /\ result_cells
           (Remainder_eval_cpu
              [vector float32 2 (Some 1%positive);
               vector float32 2 (Some 2%positive)]
              (vector float32 2 None) heap_rem)
         = Some [VFloat (f32 (-1) (-1)); VFloat (f32 (-1) (-1))]
      /\ result_cells
           (generic_evaluation Remainder
              [vector float32 2 (Some 1%positive);
               vector float32 2 (Some 2%positive)]
              (vector float32 2 None) heap_rem)
         = Some [VFloat (f32 3 (-1)); VFloat (f32 3 (-1))]).
Proof.
  split; [|split; [|split; [|split; [|split]]]].
  - intros p inputs out h Hwf Hg Hfp.
    pose proof (fallback_selected p inputs out h Hwf Hg) as Hsel.
    destruct (floating_only p); [|exact Hsel].
    by rewrite (Hfp eq_refl) in Hsel.
  - intros p inputs out h Hwf Hfo Hfp.
    assert (Hg : fast_path_guard p inputs out = false).
    { destruct p; try discriminate Hfo;
        destruct inputs as [|a [|b l]]; try discriminate Hwf;
        cbn [fast_path_guard];
        destruct (dtype out); try discriminate Hfp; reflexivity. }
    split; [exact Hg|].
    pose proof (fallback_selected p inputs out h Hwf Hg) as Hsel.
    rewrite Hfo, Hfp in Hsel. split; [exact Hsel|].
    destruct p; try discriminate Hfo;
      destruct inputs as [|a [|b l]]; try discriminate Hwf;
      cbn [generic_evaluation]; unfold unary_fp; rewrite Hfp; by eexists.
  - intros a b out h Hdt. cbn [generic_evaluation].
    split; [by apply Add_agrees|].
    split; [by apply Multiply_agrees|by apply Divide_agrees].
  - intros a b out h pb Hdt Hb Hpb Hab Hn. cbn [generic_evaluation].
    by apply (Subtract_agrees a b out h pb).
  - intros in_ out h Hdt. cbn [generic_evaluation].
    split; [by apply Negative_agrees|by apply Square_agrees].
  - repeat split; vm_compute; reflexivity.
Qed.

Lemma fallback_equivalence_witness :
  (well_formed_call Add [vector int8 2 (Some 1%positive);
                         vector int8 2 (Some 2%positive)]
     (vector int8 2 None) = true
   /\ fast_path_guard Add [vector int8 2 (Some 1%positive);
                           vector int8 2 (Some 2%positive)]
        (vector int8 2 None) = false
   /\ @selects_fallback test_math test_common Add
        [vector int8 2 (Some 1%positive); vector int8 2 (Some 2%positive)]
        (vector int8 2 None) heap_i8_pair
   /\ result_cells
        (@Add_eval_cpu test_common
           [vector int8 2 (Some 1%positive); vector int8 2 (Some 2%positive)]
           (vector int8 2 None) heap_i8_pair)
      = Some [VInt int8 4; VInt int8 6])
  /\ (well_formed_call Exp [vector int32 2 (Some 1%positive)]
        (vector int32 2 None) = true
      /\ fast_path_guard Exp [vector int32 2 (Some 1%positive)]
           (vector int32 2 None) = false
      /\ @throws_invalid_argument test_math test_common Exp
           [vector int32 2 (Some 1%positive)] (vector int32 2 None) heap_i01
      /\ exists msg,
          @generic_evaluation test_math test_common Exp
            [vector int32 2 (Some 1%positive)] (vector int32 2 None) heap_i01
          = Throw (invalid_argument msg) heap_i01)
  /\ (dtype (vector float32 2 None)
      = dtype (vector float32 2 (Some 1%positive))
      /\ data (vector float32 1 (Some 2%positive)) = Some 2%positive
      /\ 2%positive ∈ dom heap_rem
      /\ data (vector float32 2 (Some 1%positive))
         <> data (vector float32 1 (Some 2%positive))
      /\ 0 < data_size (vector float32 2 (Some 1%positive))
      /\ @Subtract_eval_cpu test_common
           [vector float32 2 (Some 1%positive);
            vector float32 1 (Some 2%positive)] (vector float32 2 None)
           heap_rem
         = @generic_evaluation test_math test_common Subtract
             [vector float32 2 (Some 1%positive);
              vector float32 1 (Some 2%positive)] (vector float32 2 None)
             heap_rem
      /\ result_cells
           (@Subtract_eval_cpu test_common
              [vector float32 2 (Some 1%positive);
               vector float32 1 (Some 2%positive)] (vector float32 2 None)
              heap_rem)
         = Some [VFloat (f32 7 (-1)); VFloat (f32 7 (-1))]).
Proof.
  pose proof (@fallback_equivalence test_math test_common)
    as (Hfall & Hthrow & _ & Hsub & _).
  split; [|split].
  - split; [reflexivity|]. split; [reflexivity|]. split; [|reflexivity].
    apply (Hfall Add [vector int8 2 (Some 1%positive);
                      vector int8 2 (Some 2%positive)]
             (vector int8 2 None) heap_i8_pair eq_refl eq_refl).
    discriminate.
  - split; [reflexivity|].
    exact (Hthrow Exp [vector int32 2 (Some 1%positive)]
             (vector int32 2 None) heap_i01 eq_refl eq_refl eq_refl).
  - assert (Hin : 2%positive ∈ dom heap_rem)
      by (apply elem_of_dom; by eexists).
    assert (Hne : data (vector float32 2 (Some 1%positive))
                  <> data (vector float32 1 (Some 2%positive)))
      by discriminate.
    split; [reflexivity|]. split; [reflexivity|]. split; [exact Hin|].
    split; [exact Hne|]. split; [reflexivity|]. split; [|reflexivity].
    exact (Hsub (vector float32 2 (Some 1%positive))
             (vector float32 1 (Some 2%positive)) (vector float32 2 None)
             heap_rem 2%positive eq_refl eq_refl Hin Hne eq_refl).
Defined.

(** * Values computed by the fast paths *)

(** ** Unary sweeps *)

Ltac holds_here :=
  split; [reflexivity|]; split; [|reflexivity]; eexists; split; reflexivity.

(** The fast path of a unary operation, with the state it returns: the
    output handle has the input's layout and holds the images, and no other
    block of the heap is touched. *)
Lemma fast_unary_run f in_ out h p xs ys :
  holds h in_ p xs ->
  Forall2 (fun x y => f x = Some y) xs ys ->
  exists out1 h1 h2 q,
    set_unary_output_data in_ out h = (out1, h1)
    /\ unary_loop f (Mem p 0) 1 (Mem q 0) 1 0
         (Z.to_nat (data_size in_)) h1 = Some h2
    /\ holds h2 out1 q ys
    /\ dtype out1 = dtype out /\ flags out1 = flags in_
    /\ unchanged_except q h h2
    /\ (q = p \/ q ∉ dom h).
Proof.
  intros (Hdata & (b & Hb & Hcells) & Hlen) Hf.
  assert (Hn : Z.to_nat (data_size in_) = length xs) by lia.
  assert (Hys : length ys = length xs) by (symmetry; eapply Forall2_length, Hf).
  destruct (donates h in_ out) eqn:Hd.
  - rewrite (set_unary_output_data_donate _ _ _ Hd).
    unfold copy_shared_buffer. rewrite Hdata.
    assert (Hp : alter add_owner p h !! p = Some (add_owner b))
      by (by rewrite lookup_alter_eq, Hb).
    eexists _, _, _, p. split; [reflexivity|].
    split.
    { rewrite Hn. apply (unary_loop_spec f p p (length xs) 0 _ _ _ xs ys Hp Hp).
      - cbn. rewrite Hcells, drop_0. by rewrite take_ge by lia.
      - done.
      - cbn. rewrite Hcells. lia.
      - done. }
    split.
    { split; [done|]. split; [|cbn; lia].
      eexists. rewrite lookup_insert_eq. split; [done|]. cbn.
      rewrite Hcells. rewrite drop_ge by lia. by rewrite app_nil_r. }
    split; [done|]. split; [done|]. split; [|by left].
    intros r Hr Hne. rewrite lookup_insert_ne by done.
    by rewrite lookup_alter_ne.
  - rewrite (set_unary_output_data_fresh _ _ _ Hd).
    destruct (fresh_block_new h p b Hb) as [Hne Hnew].
    set (q := fresh (dom h)) in *.
    set (bq := {| owners := 1;
                  cells := replicate (Z.to_nat (data_size in_)) VUninit |}).
    assert (Hp : <[q := bq]> h !! p = Some b)
      by (by rewrite lookup_insert_ne).
    assert (Hq : <[q := bq]> h !! q = Some bq) by apply lookup_insert_eq.
    eexists _, _, _, q. split; [reflexivity|].
    split.
    { rewrite Hn. apply (unary_loop_spec f p q (length xs) 0 _ _ _ xs ys Hp Hq).
      - rewrite Hcells, drop_0. by rewrite take_ge by lia.
      - done.
      - cbn. rewrite length_replicate. lia.
      - done. }
    split.
    { split; [done|]. split; [|cbn; lia].
      eexists. rewrite lookup_insert_eq. split; [done|]. cbn.
      rewrite drop_ge by (rewrite length_replicate; lia).
      by rewrite app_nil_r. }
    split; [done|]. split; [done|]. split; [|by right].
    intros r Hr Hner. by rewrite !lookup_insert_ne.
Qed.

(** The state a float32 fast path returns. *)
Lemma fast_float_run (g : spec_float -> spec_float) in_ out (h : Heap) p fs :
  holds h in_ p (map VFloat fs) ->
  Forall (fun x => f32_valid x = true) fs ->
  exists out1 h1 h2 q,
    set_unary_output_data in_ out h = (out1, h1)
    /\ data_ptr in_ = Some (Mem p 0) /\ data_ptr out1 = Some (Mem q 0)
    /\ unary_loop (float1 g) (Mem p 0) 1 (Mem q 0) 1 0
         (Z.to_nat (data_size in_)) h1 = Some h2
    /\ holds h2 out1 q (map VFloat (map g fs))
    /\ dtype out1 = dtype out /\ flags out1 = flags in_
    /\ unchanged_except q h h2
    /\ (q = p \/ q ∉ dom h).
Proof.
  intros Hholds Hv.
  destruct (fast_unary_run (float1 g) in_ out h p _ _ Hholds
              (float1_images g fs Hv))
    as (out1 & h1 & h2 & q & Hs & Hloop & Hh & Hd & Hfl & Hfr & Hq).
  exists out1, h1, h2, q. rewrite map_map.
  unfold data_ptr. rewrite (proj1 Hholds), (proj1 Hh). done.
Qed.

Ltac run_fast_float g out Hholds Hv :=
  let out1 := fresh "out1" in
  let h1 := fresh "h1" in
  let h2 := fresh "h2" in
  let q := fresh "q" in
  destruct (fast_float_run g _ out _ _ _ Hholds Hv)
    as (out1 & h1 & h2 & q & Hs & HA & HC & Hloop & Hh & Hd & Hfl & Hfr & Hq);
  rewrite Hs, HA, HC; cbn [of_option mbind Result_bind];
  exists out1, h2, q.

(** The three vDSP sweeps guarded by a float32 input. *)
Lemma vDSP_unary_run `{MathLib} `{CommonBackend}
    ev g (in_ out : array) (h : Heap) (p : positive) (fs : list spec_float) :
  (ev, g) ∈ [(Abs_eval_cpu, f32_abs); (Negative_eval_cpu, f32_neg);
             (Square_eval_cpu, fun x => f32_mul x x)] ->
  dtype in_ = float32 -> contiguous (flags in_) = true ->
  holds h in_ p (map VFloat fs) ->
  Forall (fun x => f32_valid x = true) fs ->
  exists out' h' q,
    ev [in_] out h = Ok (out', h')
    /\ holds h' out' q (map VFloat (map g fs))
    /\ dtype out' = dtype out /\ flags out' = flags in_
    /\ unchanged_except q h h'
    /\ (q = p \/ q ∉ dom h).
Proof.
  intros Hev Hdt Hc Hholds Hvalid.
  repeat (apply elem_of_cons in Hev as [[= -> ->]|Hev]);
    [ unfold Abs_eval_cpu | unfold Negative_eval_cpu | unfold Square_eval_cpu
    | by apply elem_of_nil in Hev ];
    unfold dtype_eqb; rewrite Hdt, Hc; cbn [bool_decide decide_rel andb];
    rewrite ?bool_decide_eq_true_2 by done; cbn [andb].
  - run_fast_float f32_abs out Hholds Hvalid.
    unfold run, vDSP_vabs. rewrite Hloop. done.
  - run_fast_float f32_neg out Hholds Hvalid.
    unfold run, vDSP_vneg. rewrite Hloop. done.
  - run_fast_float (fun x => f32_mul x x) out Hholds Hvalid.
    unfold run, vDSP_vsq. rewrite Hloop. done.
Qed.

(** X1: on a contiguous float32 input the fast paths of Abs, Negative,
    Square and Sqrt (plain and reciprocal) return; the output has the
    input's layout and holds the image of every element under the routine's
    function, also when the sweep runs in place on the donated input; no
    other block of the heap changes, and the output's block is the input's
    or one that did not exist before. *)
Theorem float_unary_fast_path_values `{MathLib} `{CommonBackend}
    ev g (in_ out : array) (h : Heap) (p : positive) (fs : list spec_float) :
  (ev, g) ∈ float_unary_ops ->
  dtype in_ = float32 -> contiguous (flags in_) = true ->
  holds h in_ p (map VFloat fs) ->
  Forall (fun x => f32_valid x = true) fs ->
  data_size in_ <= INT_MAX ->
  exists out' h' q,
    ev [in_] out h = Ok (out', h')
    /\ holds h' out' q (map VFloat (map g fs))
    /\ dtype out' = dtype out /\ flags out' = flags in_
    /\ unchanged_except q h h'
    /\ (q = p \/ q ∉ dom h).
Proof.
  intros Hev Hdt Hc Hholds Hvalid Hmax.
  assert (Hsz : to_int (data_size in_) = data_size in_).
  { apply to_int_small. destruct Hholds as (_ & _ & Hlen). lia. }
  unfold float_unary_ops in Hev.
  do 3 (apply elem_of_cons in Hev as [Hev|Hev];
        [apply vDSP_unary_run; try done; rewrite Hev;
         rewrite !elem_of_cons; tauto|]).
  repeat (apply elem_of_cons in Hev as [[= -> ->]|Hev]);
    [ unfold Sqrt_eval_cpu | unfold Sqrt_eval_cpu
    | by apply elem_of_nil in Hev ];
    unfold dtype_eqb; rewrite Hdt, Hc; cbn [bool_decide decide_rel andb];
    rewrite ?bool_decide_eq_true_2 by done; cbn [andb].
  - run_fast_float sqrtf out Hholds Hvalid.
    unfold run, vvsqrtf, vForce1. rewrite Hsz, Hloop. done.
  - run_fast_float rsqrtf out Hholds Hvalid.
    unfold run, vvrsqrtf, vForce1. rewrite Hsz, Hloop. done.
Qed.

Lemma float_unary_fast_path_values_witness :
  exists out' h' q,
    @Square_eval_cpu test_common [vector float32 2 (Some 1%positive)]
      (vector float32 2 None) heap_3_m2 = Ok (out', h')
    /\ holds h' out' q
         (map VFloat (map (fun x => f32_mul x x) [f32 3 0; f32 (-2) 0]))
    /\ dtype out' = dtype (vector float32 2 None)
    /\ flags out' = flags (vector float32 2 (Some 1%positive))
    /\ unchanged_except q heap_3_m2 h'
    /\ (q = 1%positive \/ q ∉ dom heap_3_m2).
Proof.
  apply (@float_unary_fast_path_values test_math test_common Square_eval_cpu
           (fun x => f32_mul x x) (vector float32 2 (Some 1%positive))
           (vector float32 2 None) heap_3_m2 1%positive
           [f32 3 0; f32 (-2) 0]).
  - do 2 apply list_elem_of_further. apply list_elem_of_here.
  - reflexivity.
  - reflexivity.
  - holds_here.
  - repeat constructor.
  - vm_compute. discriminate.
Defined.

(** X2: with a float32 output and a contiguous input that holds floats,
    every vForce-backed operation (ArcCos ... Tanh, Exp, Log in its three
    bases, Log1p) returns an output in the input's layout that holds the
    image of every element under the routine of that operation; [Log]
    takes [logf], [log2f] or [log10f] by its base; no other block
    changes. *)
Theorem vForce_fast_path_values `{MathLib} `{CommonBackend}
    ev g (in_ out : array) (h : Heap) (p : positive) (fs : list spec_float) :
  (ev, g) ∈ vForce_ops ->
  dtype out = float32 -> contiguous (flags in_) = true ->
  holds h in_ p (map VFloat fs) ->
  Forall (fun x => f32_valid x = true) fs ->
  data_size in_ <= INT_MAX ->
  exists out' h' q,
    ev [in_] out h = Ok (out', h')
    /\ holds h' out' q (map VFloat (map g fs))
    /\ dtype out' = dtype out /\ flags out' = flags in_
    /\ unchanged_except q h h'
    /\ (q = p \/ q ∉ dom h).
Proof.
  intros Hev Hdt Hc Hholds Hvalid Hmax.
  assert (Hsz : to_int (data_size in_) = data_size in_).
  { apply to_int_small. destruct Hholds as (_ & _ & Hlen). lia. }
  unfold vForce_ops in Hev.
  repeat (apply elem_of_cons in Hev as [[= -> Eg]|Hev]);
    try (by apply elem_of_nil in Hev);
    unfold ArcCos_eval_cpu, ArcCosh_eval_cpu, ArcSin_eval_cpu,
      ArcSinh_eval_cpu, ArcTan_eval_cpu, ArcTanh_eval_cpu, Cos_eval_cpu,
      Cosh_eval_cpu, Exp_eval_cpu, Log_eval_cpu, Log1p_eval_cpu, Sin_eval_cpu,
      Sinh_eval_cpu, Tan_eval_cpu, Tanh_eval_cpu, vForce_eval_cpu;
    unfold dtype_eqb; rewrite Hdt, Hc; cbn [bool_decide decide_rel andb];
    rewrite ?bool_decide_eq_true_2 by done; cbn [andb];
    run_fast_float g out Hholds Hvalid; subst g;
    unfold run, vvacosf, vvacoshf, vvasinf, vvasinhf, vvatanf, vvatanhf,
      vvcosf, vvcoshf, vvexpf, vvlogf, vvlog2f, vvlog10f, vvlog1pf, vvsinf,
      vvsinhf, vvtanf, vvtanhf, vForce1;
    rewrite Hsz, Hloop;
    (split; [done|]; split; [done|]; split; [congruence|done]).
Qed.

Lemma vForce_fast_path_values_witness :
  exists out' h' q,
    @Exp_eval_cpu test_math test_common [vector float32 2 (Some 1%positive)]
      (vector float32 2 None) heap_3_m2 = Ok (out', h')
    /\ holds h' out' q
         (map VFloat (map (@expf test_math) [f32 3 0; f32 (-2) 0]))
    /\ dtype out' = dtype (vector float32 2 None)
    /\ flags out' = flags (vector float32 2 (Some 1%positive))
    /\ unchanged_except q heap_3_m2 h'
    /\ (q = 1%positive \/ q ∉ dom heap_3_m2).
Proof.
  apply (@vForce_fast_path_values test_math test_common Exp_eval_cpu
           expf (vector float32 2 (Some 1%positive))
           (vector float32 2 None) heap_3_m2 1%positive
           [f32 3 0; f32 (-2) 0]).
  - do 8 apply list_elem_of_further. apply list_elem_of_here.
  - reflexivity.
  - reflexivity.
  - holds_here.
  - repeat constructor.
  - vm_compute. discriminate.
Defined.

Lemma wrap_int32_small n : INT_MIN <= n <= INT_MAX -> wrap int32 n = n.
Proof.
  unfold wrap, INT_MIN, INT_MAX. intros Hn.
  rewrite bool_decide_eq_false_2 by discriminate.
  change (is_signed int32) with true. cbv iota.
  change (bits int32) with 32. change (32 - 1) with 31.
  rewrite Z.mod_small; lia.
Qed.

(** X3: on a contiguous int32 input whose elements are above [INT_MIN],
    Abs returns an output in the input's layout that holds the absolute
    values; no other block changes. *)
Theorem Abs_int32_fast_path_values `{MathLib} `{CommonBackend}
    (in_ out : array) (h : Heap) (p : positive) (ns : list Z) :
  dtype in_ = int32 -> contiguous (flags in_) = true ->
  holds h in_ p (map (VInt int32) ns) ->
  Forall (fun n => INT_MIN < n <= INT_MAX) ns ->
  exists out' h' q,
    Abs_eval_cpu [in_] out h = Ok (out', h')
    /\ holds h' out' q (map (fun n => VInt int32 (Z.abs n)) ns)
    /\ dtype out' = dtype out /\ flags out' = flags in_
    /\ unchanged_except q h h'
    /\ (q = p \/ q ∉ dom h).
Proof.
  intros Hdt Hc Hholds Hr.
  unfold Abs_eval_cpu, dtype_eqb. rewrite Hdt, Hc.
  cbn [bool_decide decide_rel andb].
  rewrite bool_decide_eq_false_2, bool_decide_eq_true_2 by done.
  cbn [andb].
  assert (Himg : Forall2 (fun x y => int1 int32 Z.abs x = Some y)
                   (map (VInt int32) ns)
                   (map (fun n => VInt int32 (Z.abs n)) ns)).
  { clear Hholds. induction Hr as [|n ns Hn _ IH]; cbn; [constructor|].
    constructor; [|done]. unfold int1. cbn.
    rewrite bool_decide_eq_true_2 by done. cbn.
    rewrite wrap_int32_small; [done|]. unfold INT_MIN, INT_MAX in *. lia. }
  destruct (fast_unary_run _ in_ out h p _ _ Hholds Himg)
    as (out1 & h1 & h2 & q & Hs & Hloop & Hh & Hd & Hfl & Hfr & Hq).
  rewrite Hs. unfold data_ptr. rewrite (proj1 Hholds), (proj1 Hh).
  cbn [of_option mbind option_bind Result_bind].
  unfold run, vDSP_vabsi. rewrite Hloop. by exists out1, h2, q.
Qed.

Lemma Abs_int32_fast_path_values_witness :
  exists out' h' q,
    @Abs_eval_cpu test_common [vector int32 2 (Some 1%positive)]
      (vector int32 2 None) (heap1 2 (map (VInt int32) [7; -7]))
    = Ok (out', h')
    /\ holds h' out' q (map (fun n => VInt int32 (Z.abs n)) [7; -7])
    /\ dtype out' = dtype (vector int32 2 None)
    /\ flags out' = flags (vector int32 2 (Some 1%positive))
    /\ unchanged_except q (heap1 2 (map (VInt int32) [7; -7])) h'
    /\ (q = 1%positive \/ q ∉ dom (heap1 2 (map (VInt int32) [7; -7]))).
Proof.
  apply (@Abs_int32_fast_path_values test_math test_common
           (vector int32 2 (Some 1%positive)) (vector int32 2 None)
           (heap1 2 (map (VInt int32) [7; -7])) 1%positive [7; -7]).
  - reflexivity.
  - reflexivity.
  - holds_here.
  - repeat constructor; vm_compute; congruence.
Defined.

(** A dense fill from a one-element source on another block. *)
Lemma fill_loop_spec pa pc v (n : nat) :
  pa <> pc ->
  forall (i : nat) (h : Heap) ba bc,
    h !! pa = Some ba -> h !! pc = Some bc ->
    cells ba !! 0%nat = Some (VFloat v) -> f32_valid v = true ->
    (i + n <= length (cells bc))%nat ->
    unary_loop (float1 (fun x => x)) (Mem pa 0) 0 (Mem pc 0) 1
      (Z.of_nat i) n h
    = Some (<[pc := {| owners := owners bc;
                       cells := take i (cells bc) ++ replicate n (VFloat v)
                                ++ drop (i + n) (cells bc) |}]> h).
Proof.
  intros Hne. induction n as [|n IH]; intros i h ba bc Ha Hc Hv Hvalid Hlen.
  - cbn. rewrite Nat.add_0_r, take_drop, Buffer_eta, insert_id; done.
  - cbn [unary_loop ptr_add].
    replace (0 + Z.of_nat i * 0) with (Z.of_nat 0) by lia.
    replace (0 + Z.of_nat i * 1) with (Z.of_nat i) by lia.
    rewrite (load_Mem _ _ _ _ Ha), Hv. cbn [mbind option_bind].
    assert (E : float1 (fun x => x) (VFloat v) = Some (VFloat v))
      by (unfold float1, as_float; by rewrite Hvalid).
    rewrite E. cbn [mbind option_bind].
    rewrite (store_Mem _ _ _ _ _ Hc) by lia. cbn [mbind option_bind].
    replace (Z.of_nat i + 1) with (Z.of_nat (S i)) by lia.
    set (bc1 := {| owners := owners bc;
                   cells := <[i := VFloat v]> (cells bc) |}).
    rewrite (IH (S i) (<[pc := bc1]> h) ba bc1); cbn.
    + rewrite insert_insert_eq. do 3 f_equal.
      apply loop_result_cells. lia.
    + by rewrite lookup_insert_ne.
    + apply lookup_insert_eq.
    + done.
    + done.
    + rewrite length_insert. lia.
Qed.

(** X4: when the source has exactly one element and the dtype is
    float32, Full returns an output on a block that did not exist before,
    holding [size out] copies of the source's element; the source is never
    donated: every block of the initial heap, the source's included, is
    unchanged in contents and ownership. *)
Theorem Full_fast_path_fills `{MathLib} `{CommonBackend}
    (in_ out : array) (h : Heap) (p : positive) (x : spec_float) :
  dtype in_ = float32 -> dtype out = float32 ->
  holds h in_ p [VFloat x] -> f32_valid x = true ->
  0 <= size out ->
  exists out' h',
    Full_eval_cpu [in_] out h = Ok (out', h')
    /\ holds h' out' (fresh (dom h))
         (replicate (Z.to_nat (size out)) (VFloat x))
    /\ (fresh (dom h) ∉ dom h)
    /\ (forall r, r ∈ dom h -> h' !! r = h !! r).
Proof.
  intros Hdi Hdo (Hdata & (b & Hb & Hcells) & Hlen) Hvalid Hsz.
  unfold Full_eval_cpu, dtype_eqb. rewrite Hdi, Hdo.
  rewrite bool_decide_eq_true_2 by done.
  cbn [length] in Hlen. rewrite <- Hlen.
  cbn [Z.eqb Z.of_nat Pos.of_succ_nat Pos.eqb andb].
  rewrite set_data_fresh_spec by done.
  destruct (fresh_block_new h p b Hb) as [Hne Hnew].
  set (q := fresh (dom h)) in *.
  set (bq := {| owners := 1;
                cells := replicate (Z.to_nat (size out)) VUninit |}).
  unfold data_ptr. rewrite Hdata.
  cbn [data mbind option_bind of_option Result_bind].
  unfold run, vDSP_vfill.
  rewrite (fill_loop_spec p q x (Z.to_nat (size out)) (not_eq_sym Hne) 0
             (<[q := bq]> h) b bq).
  - cbn [of_option mbind Result_bind]. eexists _, _. split; [reflexivity|].
    split.
    { split; [done|]. split.
      - eexists. rewrite lookup_insert_eq. split; [done|]. cbn.
        rewrite drop_ge by (rewrite length_replicate; lia).
        by rewrite app_nil_r.
      - rewrite length_replicate. cbn. lia. }
    split; [done|].
    intros r Hr. assert (r <> q) by (intros ->; done).
    by rewrite !lookup_insert_ne.
  - by rewrite lookup_insert_ne.
  - apply lookup_insert_eq.
  - by rewrite Hcells.
  - done.
  - cbn. rewrite length_replicate. lia.
Qed.

Lemma Full_fast_path_fills_witness :
  exists out' h',
    @Full_eval_cpu test_common [vector float32 1 (Some 1%positive)]
      (vector float32 3 None) (heap1 1 [VFloat (f32 7 0)]) = Ok (out', h')
    /\ holds h' out' (fresh (dom (heap1 1 [VFloat (f32 7 0)])))
         (replicate (Z.to_nat (size (vector float32 3 None)))
            (VFloat (f32 7 0)))
    /\ (fresh (dom (heap1 1 [VFloat (f32 7 0)]))
          ∉ dom (heap1 1 [VFloat (f32 7 0)]))
    /\ (forall r, r ∈ dom (heap1 1 [VFloat (f32 7 0)]) ->
          h' !! r = heap1 1 [VFloat (f32 7 0)] !! r).
Proof.
  apply (@Full_fast_path_fills test_math test_common
           (vector float32 1 (Some 1%positive)) (vector float32 3 None)
           (heap1 1 [VFloat (f32 7 0)]) 1%positive (f32 7 0)).
  - reflexivity.
  - reflexivity.
  - holds_here.
  - reflexivity.
  - vm_compute. discriminate.
Defined.

(** ** Compositions of unary operations *)

Lemma f32_neg_involutive x : f32_neg (f32_neg x) = x.
Proof. destruct x as [s|s| |s m e]; cbn; by rewrite ?negb_involutive. Qed.

Lemma f32_abs_neg x : f32_abs (f32_neg x) = f32_abs x.
Proof. by destruct x. Qed.

Lemma f32_abs_idempotent x : f32_abs (f32_abs x) = f32_abs x.
Proof. by destruct x. Qed.

Lemma f32_valid_abs x : f32_valid (f32_abs x) = f32_valid x.
Proof. by destruct x. Qed.

Lemma Forall_valid_map (g : spec_float -> spec_float) fs :
  (forall x, f32_valid (g x) = f32_valid x) ->
  Forall (fun x => f32_valid x = true) fs ->
  Forall (fun x => f32_valid x = true) (map g fs).
Proof.
  intros Hg Hv. apply Forall_map. eapply Forall_impl; [exact Hv|].
  intros x Hx. cbn. by rewrite Hg.
Qed.

(** X5: Negative is an involution on its fast path: evaluating Negative
    on the result of Negative gives a tensor that holds the original
    elements, bit for bit. *)
Theorem Negative_twice_restores `{MathLib} `{CommonBackend}
    (in_ out1 out2 : array) (h : Heap) (p : positive)
    (fs : list spec_float) :
  dtype in_ = float32 -> dtype out1 = float32 ->
  contiguous (flags in_) = true ->
  holds h in_ p (map VFloat fs) ->
  Forall (fun x => f32_valid x = true) fs ->
  exists o1 h1 o2 h2 q,
    Negative_eval_cpu [in_] out1 h = Ok (o1, h1)
    /\ Negative_eval_cpu [o1] out2 h1 = Ok (o2, h2)
    /\ holds h2 o2 q (map VFloat fs).
Proof.
  intros Hdt Hdo Hc Hholds Hv.
  destruct (vDSP_unary_run Negative_eval_cpu f32_neg in_ out1 h p fs)
    as (o1 & h1 & q1 & Hrun1 & Hh1 & Hd1 & Hf1 & _); try done;
    [apply list_elem_of_further, list_elem_of_here|].
  destruct (vDSP_unary_run Negative_eval_cpu f32_neg o1 out2 h1 q1
              (map f32_neg fs))
    as (o2 & h2 & q2 & Hrun2 & Hh2 & _); try done.
  - apply list_elem_of_further, list_elem_of_here.
  - congruence.
  - by rewrite Hf1.
  - by apply Forall_valid_map; [apply f32_valid_neg|].
  - exists o1, h1, o2, h2, q2. split; [done|]. split; [done|].
    assert (E : map f32_neg (map f32_neg fs) = fs).
    { rewrite map_map. rewrite <- (map_id fs) at 2. apply map_ext.
      intros x. apply f32_neg_involutive. }
    by rewrite E in Hh2.
Qed.

Lemma Negative_twice_restores_witness :
  exists o1 h1 o2 h2 q,
    @Negative_eval_cpu test_common [vector float32 2 (Some 1%positive)]
      (vector float32 2 None) heap_3_m2 = Ok (o1, h1)
    /\ @Negative_eval_cpu test_common [o1] (vector float32 2 None) h1
       = Ok (o2, h2)
    /\ holds h2 o2 q (map VFloat [f32 3 0; f32 (-2) 0]).
Proof.
  apply (@Negative_twice_restores test_math test_common
           (vector float32 2 (Some 1%positive)) (vector float32 2 None)
           (vector float32 2 None) heap_3_m2 1%positive).
  - reflexivity.
  - reflexivity.
  - reflexivity.
  - holds_here.
  - repeat constructor.
Defined.

(** X6: Abs absorbs a preceding Abs or Negative: on the fast paths,
    Abs of the result of either holds [|x|] for every element [x] of the
    original input. *)
Theorem Abs_absorbs_sign `{MathLib} `{CommonBackend}
    ev g (in_ out1 out2 : array) (h : Heap) (p : positive)
    (fs : list spec_float) :
  (ev, g) ∈ [(Abs_eval_cpu, f32_abs); (Negative_eval_cpu, f32_neg)] ->
  dtype in_ = float32 -> dtype out1 = float32 ->
  contiguous (flags in_) = true ->
  holds h in_ p (map VFloat fs) ->
  Forall (fun x => f32_valid x = true) fs ->
  exists o1 h1 o2 h2 q,
    ev [in_] out1 h = Ok (o1, h1)
    /\ Abs_eval_cpu [o1] out2 h1 = Ok (o2, h2)
    /\ holds h2 o2 q (map VFloat (map f32_abs fs)).
Proof.
  intros Hev Hdt Hdo Hc Hholds Hv.
  assert (Hg : (forall x, f32_valid (g x) = f32_valid x)
               /\ forall x, f32_abs (g x) = f32_abs x).
  { repeat (apply elem_of_cons in Hev as [[= -> ->]|Hev]);
      [| |by apply elem_of_nil in Hev]; split;
      auto using f32_valid_abs, f32_valid_neg, f32_abs_idempotent,
        f32_abs_neg. }
  destruct Hg as [Hgv Hga].
  destruct (vDSP_unary_run ev g in_ out1 h p fs)
    as (o1 & h1 & q1 & Hrun1 & Hh1 & Hd1 & Hf1 & _); try done;
    [revert Hev; rewrite !elem_of_cons; tauto|].
  destruct (vDSP_unary_run Abs_eval_cpu f32_abs o1 out2 h1 q1 (map g fs))
    as (o2 & h2 & q2 & Hrun2 & Hh2 & _); try done.
  - apply list_elem_of_here.
  - congruence.
  - by rewrite Hf1.
  - by apply Forall_valid_map.
  - exists o1, h1, o2, h2, q2. split; [done|]. split; [done|].
    assert (E : map f32_abs (map g fs) = map f32_abs fs).
    { rewrite map_map. apply map_ext. intros x. apply Hga. }
    by rewrite E in Hh2.
Qed.

Lemma Abs_absorbs_sign_witness :
  exists o1 h1 o2 h2 q,
    @Negative_eval_cpu test_common [vector float32 2 (Some 1%positive)]
      (vector float32 2 None) heap_3_m2 = Ok (o1, h1)
    /\ @Abs_eval_cpu test_common [o1] (vector float32 2 None) h1
       = Ok (o2, h2)
    /\ holds h2 o2 q (map VFloat (map f32_abs [f32 3 0; f32 (-2) 0])).
Proof.
  apply (@Abs_absorbs_sign test_math test_common Negative_eval_cpu f32_neg
           (vector float32 2 (Some 1%positive)) (vector float32 2 None)
           (vector float32 2 None) heap_3_m2 1%positive).
  - apply list_elem_of_further, list_elem_of_here.
  - reflexivity.
  - reflexivity.
  - reflexivity.
  - holds_here.
  - repeat constructor.
Defined.
(** ** Small integers are float32 numbers *)

Lemma digits2_pos_iter m k :
  digits2_pos (Pos.iter xO m k) = (digits2_pos m + k)%positive.
Proof.
  induction k as [|k IH] using Pos.peano_ind.
  - cbn. lia.
  - rewrite Pos.iter_succ. cbn [digits2_pos]. rewrite IH. lia.
Qed.

Lemma Zpos_iter_xO m k : Zpos (Pos.iter xO m k) = Zpos m * 2 ^ Zpos k.
Proof.
  induction k as [|k IH] using Pos.peano_ind.
  - cbn [Pos.iter]. lia.
  - rewrite Pos.iter_succ, Pos2Z.inj_succ.
    change (Zpos (Pos.iter xO m k)~0) with (2 * Zpos (Pos.iter xO m k)).
    rewrite IH.
    rewrite Z.pow_succ_r by lia. lia.
Qed.

Lemma digits2_pos_bound m :
  2 ^ (Zpos (digits2_pos m) - 1) <= Zpos m < 2 ^ Zpos (digits2_pos m).
Proof.
  induction m as [m IH|m IH|]; cbn [digits2_pos].
  - rewrite Pos2Z.inj_succ.
    replace (Z.succ (Zpos (digits2_pos m)) - 1)
      with (Z.succ (Zpos (digits2_pos m) - 1)) by lia.
    rewrite !Z.pow_succ_r by lia. lia.
  - rewrite Pos2Z.inj_succ.
    replace (Z.succ (Zpos (digits2_pos m)) - 1)
      with (Z.succ (Zpos (digits2_pos m) - 1)) by lia.
    rewrite !Z.pow_succ_r by lia. lia.
  - cbn. lia.
Qed.

Lemma binary_round_aux_exact s mz ez :
  Zpos (digits2_pos mz) = 24 -> -149 <= ez <= 104 ->
  binary_round_aux 24 128 s (Zpos mz) ez loc_Exact = S754_finite s mz ez.
Proof.
  intros Hd He.
  unfold binary_round_aux, shr_fexp, Zdigits2, fexp, emin. rewrite Hd.
  replace (Z.max (24 + ez - 24) (3 - 128 - 24) - ez) with 0 by lia.
  cbn [shr shr_record_of_loc shr_m loc_of_shr_record round_nearest_even
       Zdigits2].
  rewrite Hd.
  replace (Z.max (24 + ez - 24) (3 - 128 - 24) - ez) with 0 by lia.
  cbn [shr shr_record_of_loc shr_m].
  destruct (Z.leb_spec ez (128 - 24)); [done|lia].
Qed.

(** A positive integer below [2^24] is a float32: its mantissa is the
    integer shifted to 24 digits. *)
Lemma binary_round_small s m :
  Zpos m < 2 ^ 24 ->
  exists mz ez,
    binary_round 24 128 s m 0 = S754_finite s mz ez
    /\ -23 <= ez <= 0
    /\ Zpos mz = Zpos m * 2 ^ (- ez)
    /\ Zpos (digits2_pos mz) = 24.
Proof.
  intros Hm.
  pose proof (digits2_pos_bound m) as [Hlo _].
  assert (Hd : Zpos (digits2_pos m) <= 24).
  { destruct (Z.le_gt_cases (Zpos (digits2_pos m)) 24) as [|Hgt]; [done|].
    assert (2 ^ 24 <= 2 ^ (Zpos (digits2_pos m) - 1))
      by (apply Z.pow_le_mono_r; lia).
    lia. }
  unfold binary_round, fexp, emin.
  rewrite Z.max_l by lia.
  unfold shl_align.
  destruct (Z.pos (digits2_pos m) + 0 - 24 - 0) as [|k|k] eqn:E; [|lia|].
  - exists m, 0. rewrite binary_round_aux_exact by lia. 
    split; [done|]. split; [lia|]. split; [cbn; lia|lia].
  - assert (Hk : Zpos k = 24 - Zpos (digits2_pos m)) by lia.
    exists (Pos.iter xO m k), (Zpos (digits2_pos m) + 0 - 24).
    assert (Hdz : Zpos (digits2_pos (Pos.iter xO m k)) = 24)
      by (rewrite digits2_pos_iter; lia).
    rewrite binary_round_aux_exact by lia.
    split; [done|]. split; [lia|]. split; [|done].
    rewrite Zpos_iter_xO. f_equal. f_equal. lia.
Qed.

Lemma f32_small_int n :
  - 2 ^ 24 < n < 2 ^ 24 ->
  f32_valid (f32 n 0) = true /\ f32_trunc (f32 n 0) = Some n.
Proof.
  intros Hn. unfold f32, binary_normalize.
  destruct n as [|m|m]; [done| |].
  - destruct (binary_round_small false m) as (mz & ez & -> & He & Hmz & Hd);
      [lia|].
    split.
    + unfold f32_valid, valid_binary, bounded, canonical_mantissa, fexp, emin.
      rewrite Hd. apply andb_true_iff. split; [apply Z.eqb_eq|apply Z.leb_le];
        lia.
    + unfold f32_trunc. rewrite Hmz. cbn [cond_Zopp].
      destruct (Z.leb_spec 0 ez).
      * replace ez with 0 by lia. cbn. f_equal. lia.
      * rewrite Z.div_mul; [done|]. apply Z.pow_nonzero; lia.
  - destruct (binary_round_small true m) as (mz & ez & -> & He & Hmz & Hd);
      [lia|].
    split.
    + unfold f32_valid, valid_binary, bounded, canonical_mantissa, fexp, emin.
      rewrite Hd. apply andb_true_iff. split; [apply Z.eqb_eq|apply Z.leb_le];
        lia.
    + unfold f32_trunc. rewrite Hmz. cbn [cond_Zopp].
      destruct (Z.leb_spec 0 ez).
      * replace ez with 0 by lia. cbn. f_equal. lia.
      * rewrite Z.div_mul; [done|]. apply Z.pow_nonzero; lia.
Qed.

Lemma f32_trunc_truncates_to x n : f32_trunc x = Some n -> truncates_to x n.
Proof.
  destruct x as [s|s| |s m e]; cbn [truncates_to]; try discriminate.
  - by intros [= <-].
  - destruct (f32_trunc_integer_part s m e) as (k & Hk & Ht).
    rewrite Ht. intros [= <-]. by exists k.
Qed.

(** The state the vectorized path of AsType returns. *)
Lemma AsType_fast_run `{MathLib} `{CommonBackend} (in_ out : array)
    (h : Heap) p xs ys :
  contiguous (flags in_) && AsType_fast_pair (dtype in_) (dtype out) = true ->
  holds h in_ p xs ->
  Forall2 (converts (dtype in_) (dtype out)) xs ys ->
  exists out' h' q,
    AsType_eval_cpu [in_] out h = Ok (out', h')
    /\ holds h' out' q ys
    /\ dtype out' = dtype out /\ flags out' = flags in_
    /\ unchanged_except q h h'
    /\ (q = p \/ q ∉ dom h).
Proof.
  intros Hc Hholds Hconv. apply andb_true_iff in Hc as [Hc Hpair].
  unfold AsType_eval_cpu. rewrite Hc.
  assert (exists f,
    Forall2 (fun x y => f x = Some y) xs ys
    /\ forall A C n,
      (if dtype_eqb (dtype in_) float32 && dtype_eqb (dtype out) uint32
       then vDSP_vfixu32 A 1 C 1 n
       else if dtype_eqb (dtype in_) float32 && dtype_eqb (dtype out) int32
       then vDSP_vfix32 A 1 C 1 n
       else if dtype_eqb (dtype in_) uint32 && dtype_eqb (dtype out) float32
       then vDSP_vfltu32 A 1 C 1 n
       else vDSP_vflt32 A 1 C 1 n)
      = unary_loop f A 1 C 1 0 (Z.to_nat n)) as (f & Himg & Hk).
  { pose proof (fun f Hf =>
        Forall2_impl _ (fun x y => f x = Some y) _ _ Hconv Hf) as Himg.
    destruct (dtype in_) eqn:Hi, (dtype out) eqn:Ho; try discriminate Hpair;
      eexists; (split; [apply Himg; intros x y Hxy;
                        exact (converts_routine _ _ _ _ Hxy)|]);
      intros A C n; reflexivity. }
  destruct (fast_unary_run f in_ out h p _ _ Hholds Himg)
    as (out1 & h1 & h2 & q & Hs & Hloop & Hh & Hd & Hfl & Hfr & Hq).
  assert (Hrun : forall (k : ptr -> Z -> ptr -> Z -> Z -> Heap -> option Heap),
             k (Mem p 0) 1 (Mem q 0) 1 (data_size in_)
             = unary_loop f (Mem p 0) 1 (Mem q 0) 1 0
                 (Z.to_nat (data_size in_)) ->
             (let '(out0, h0) := set_unary_output_data in_ out h in
              A ← of_option (data_ptr in_);
              C ← of_option (data_ptr out0);
              run (k A 1 C 1 (data_size in_)) out0 h0) = Ok (out1, h2)).
  { intros k Hkk. rewrite Hs. unfold data_ptr.
    rewrite (proj1 Hholds), (proj1 Hh).
    cbn [of_option mbind option_bind Result_bind].
    unfold run. by rewrite Hkk, Hloop. }
  exists out1, h2, q. split; [|done].
  specialize (Hk (Mem p 0) (Mem q 0) (data_size in_)).
  destruct (dtype in_) eqn:Hi, (dtype out) eqn:Ho; try discriminate Hpair;
    cbn [dtype_eqb bool_decide decide_rel andb] in Hk |- *;
    rewrite ?bool_decide_eq_true_2, ?bool_decide_eq_false_2 in Hk |- * by done;
    cbn [andb] in Hk |- *; by apply Hrun.
Qed.

(** X7: a round trip through float32 is the identity on small integers:
    for a contiguous int32 (or uint32) tensor whose elements are below
    [2^24] in magnitude, AsType to float32 followed by AsType back returns
    the original elements. *)
Theorem AsType_integer_round_trip `{MathLib} `{CommonBackend}
    d (in_ mid out : array) (h : Heap) (p : positive) (ns : list Z) :
  d ∈ AsType_integer_dtypes ->
  dtype in_ = d -> dtype mid = float32 -> dtype out = d ->
  contiguous (flags in_) = true ->
  holds h in_ p (map (VInt d) ns) ->
  Forall (fun n => (if is_signed d then - 2 ^ 24 else -1) < n < 2 ^ 24) ns ->
  exists o1 h1 q1 o2 h2 q2,
    AsType_eval_cpu [in_] mid h = Ok (o1, h1)
    /\ holds h1 o1 q1 (map (fun n => VFloat (f32 n 0)) ns)
    /\ AsType_eval_cpu [o1] out h1 = Ok (o2, h2)
    /\ holds h2 o2 q2 (map (VInt d) ns).
Proof.
  intros Hd Hdi Hdm Hdo Hc Hholds Hr.
  assert (Hpair1 : AsType_fast_pair d float32 = true
                   /\ AsType_fast_pair float32 d = true).
  { repeat (apply elem_of_cons in Hd as [->|Hd]);
      [done|done|by apply elem_of_nil in Hd]. }
  destruct Hpair1 as [Hp1 Hp2].
  assert (Hto : Forall2 (converts d float32) (map (VInt d) ns)
                  (map (fun n => VFloat (f32 n 0)) ns)).
  { clear Hholds Hr. induction ns as [|n ns IH]; cbn; constructor; [|done].
    repeat (apply elem_of_cons in Hd as [->|Hd]);
      [constructor|constructor|by apply elem_of_nil in Hd]. }
  assert (Hback : Forall2 (converts float32 d)
                    (map (fun n => VFloat (f32 n 0)) ns) (map (VInt d) ns)).
  { clear Hholds Hto. induction Hr as [|n ns Hn _ IH]; cbn; [constructor|].
    constructor; [|done].
    repeat (apply elem_of_cons in Hd as [->|Hd]);
      [| |by apply elem_of_nil in Hd]; cbn [is_signed] in Hn;
      destruct (f32_small_int n ltac:(lia)) as [Hv Ht];
      constructor; try done; try (by apply f32_trunc_truncates_to);
      unfold INT_MIN, INT_MAX, UINT_MAX; lia. }
  destruct (AsType_fast_run in_ mid h p (map (VInt d) ns)
              (map (fun n => VFloat (f32 n 0)) ns))
    as (o1 & h1 & q1 & Hrun1 & Hh1 & Hd1 & Hf1 & _).
  { by rewrite Hc, Hdi, Hdm. }
  { done. }
  { by rewrite Hdi, Hdm. }
  destruct (AsType_fast_run o1 out h1 q1
              (map (fun n => VFloat (f32 n 0)) ns) (map (VInt d) ns))
    as (o2 & h2 & q2 & Hrun2 & Hh2 & _).
  { by rewrite Hf1, Hc, Hd1, Hdm, Hdo. }
  { done. }
  { by rewrite Hd1, Hdm, Hdo. }
  by exists o1, h1, q1, o2, h2, q2.
Qed.

Lemma AsType_integer_round_trip_witness :
  exists o1 h1 q1 o2 h2 q2,
    @AsType_eval_cpu test_common [vector int32 2 (Some 1%positive)]
      (vector float32 2 None) (heap1 1 (map (VInt int32) [7; -7]))
    = Ok (o1, h1)
    /\ holds h1 o1 q1 (map (fun n => VFloat (f32 n 0)) [7; -7])
    /\ @AsType_eval_cpu test_common [o1] (vector int32 2 None) h1
       = Ok (o2, h2)
    /\ holds h2 o2 q2 (map (VInt int32) [7; -7]).
Proof.
  apply (@AsType_integer_round_trip test_math test_common int32
           (vector int32 2 (Some 1%positive)) (vector float32 2 None)
           (vector int32 2 None) (heap1 1 (map (VInt int32) [7; -7]))
           1%positive [7; -7]).
  - apply list_elem_of_here.
  - reflexivity.
  - reflexivity.
  - reflexivity.
  - reflexivity.
  - holds_here.
  - repeat constructor; vm_compute; congruence.
Defined.

(** ** The binary engine on dense operands *)

(** Output storage taken from one source by the donation rule: the output
    block has room for the source's elements, and every block keeps its
    elements. *)
Lemma set_unary_output_data_facts src out (h : Heap) p xs :
  holds h src p xs ->
  exists out1 h1 q bq,
    set_unary_output_data src out h = (out1, h1)
    /\ data out1 = Some q /\ data_size out1 = data_size src
    /\ dtype out1 = dtype out
    /\ h1 !! q = Some bq /\ length (cells bq) = length xs
    /\ (forall r b, h !! r = Some b ->
          exists b', h1 !! r = Some b' /\ cells b' = cells b)
    /\ (forall r, r ∈ dom h -> r <> q -> h1 !! r = h !! r)
    /\ (q = p \/ q ∉ dom h).
Proof.
  intros (Hdata & (b & Hb & Hcells) & Hlen).
  destruct (donates h src out) eqn:Hd.
  - rewrite (set_unary_output_data_donate _ _ _ Hd).
    unfold copy_shared_buffer. rewrite Hdata.
    exists {| dtype := dtype out; shape := shape out; strides := strides src;
              flags := flags src; data_size := data_size src;
              data := Some p |}, (alter add_owner p h), p, (add_owner b).
    split; [done|]. split; [done|]. split; [done|]. split; [done|].
    split; [by rewrite lookup_alter_eq, Hb|].
    split; [by cbn; rewrite Hcells|].
    split; [intros r b0 Hr; by apply lookup_add_owner|].
    split; [|by left].
    intros r _ Hne. by rewrite lookup_alter_ne.
  - rewrite (set_unary_output_data_fresh _ _ _ Hd).
    destruct (fresh_block_new h p b Hb) as [Hne Hnew].
    eexists _, _, (fresh (dom h)), _.
    split; [reflexivity|]. split; [done|]. split; [done|]. split; [done|].
    split; [apply lookup_insert_eq|].
    split; [cbn; rewrite length_replicate; lia|].
    split; [|split; [|by right]].
    + intros r b0 Hr. exists b0. split; [|done].
      rewrite lookup_insert_ne; [done|].
      intros <-. apply Hnew, elem_of_dom. eauto.
    + intros r _ Hner. by rewrite lookup_insert_ne.
Qed.

(** Output storage of the binary engine. *)
Lemma set_binary_op_output_data_facts a b out bopt (h : Heap) pa pb xs ys :
  holds h a pa xs -> holds h b pb ys ->
  exists out1 h1 q bq,
    set_binary_op_output_data a b out bopt h = (out1, h1)
    /\ data out1 = Some q
    /\ data_size out1
       = match bopt with VectorScalar => data_size a
         | ScalarVector => data_size b
         | _ => if donates h a out then data_size a else data_size b end
    /\ dtype out1 = dtype out
    /\ h1 !! q = Some bq
    /\ Z.of_nat (length (cells bq)) = data_size out1
    /\ (forall r b, h !! r = Some b ->
          exists b', h1 !! r = Some b' /\ cells b' = cells b)
    /\ (forall r, r ∈ dom h -> r <> q -> h1 !! r = h !! r)
    /\ match bopt with
       | VectorScalar => q = pa \/ q ∉ dom h
       | ScalarVector => q = pb \/ q ∉ dom h
       | _ => q = pa \/ q = pb \/ q ∉ dom h
       end.
Proof.
  intros Ha Hb.
  destruct (set_unary_output_data_facts a out h pa xs Ha)
    as (oa & ha & qa & bqa & Hsa & Hda & Hza & Hta & Hqa & Hla & Hka & Hfa
        & Hca).
  destruct (set_unary_output_data_facts b out h pb ys Hb)
    as (ob & hb & qb & bqb & Hsb & Hdb & Hzb & Htb & Hqb & Hlb & Hkb & Hfb
        & Hcb).
  pose proof (proj2 (proj2 Ha)) as Hna. pose proof (proj2 (proj2 Hb)) as Hnb.
  assert (HA : exists out1 h1 q bq,
    set_unary_output_data a out h = (out1, h1)
    /\ data out1 = Some q /\ data_size out1 = data_size a
    /\ dtype out1 = dtype out /\ h1 !! q = Some bq
    /\ Z.of_nat (length (cells bq)) = data_size out1
    /\ (forall r b, h !! r = Some b ->
          exists b', h1 !! r = Some b' /\ cells b' = cells b)
    /\ (forall r, r ∈ dom h -> r <> q -> h1 !! r = h !! r)
    /\ (q = pa \/ q ∉ dom h)).
  { exists oa, ha, qa, bqa. repeat (split; [done|]). split; [lia|done]. }
  assert (HB : exists out1 h1 q bq,
    set_unary_output_data b out h = (out1, h1)
    /\ data out1 = Some q /\ data_size out1 = data_size b
    /\ dtype out1 = dtype out /\ h1 !! q = Some bq
    /\ Z.of_nat (length (cells bq)) = data_size out1
    /\ (forall r b, h !! r = Some b ->
          exists b', h1 !! r = Some b' /\ cells b' = cells b)
    /\ (forall r, r ∈ dom h -> r <> q -> h1 !! r = h !! r)
    /\ (q = pb \/ q ∉ dom h)).
  { exists ob, hb, qb, bqb. repeat (split; [done|]). split; [lia|done]. }
  clear Hsa Hda Hza Hta Hqa Hla Hka Hfa Hca Hsb Hdb Hzb Htb Hqb Hlb Hkb Hfb Hcb.
  assert (HV : exists out1 h1 q bq,
    (if is_donatable h a && (itemsize a =? itemsize out)
     then copy_shared_buffer out a h
     else set_unary_output_data b out h) = (out1, h1)
    /\ data out1 = Some q
    /\ data_size out1 = (if donates h a out then data_size a else data_size b)
    /\ dtype out1 = dtype out /\ h1 !! q = Some bq
    /\ Z.of_nat (length (cells bq)) = data_size out1
    /\ (forall r b, h !! r = Some b ->
          exists b', h1 !! r = Some b' /\ cells b' = cells b)
    /\ (forall r, r ∈ dom h -> r <> q -> h1 !! r = h !! r)
    /\ (q = pa \/ q = pb \/ q ∉ dom h)).
  { change (is_donatable h a && (itemsize a =? itemsize out))
      with (donates h a out).
    destruct (donates h a out) eqn:Hd.
    - destruct HA as (o1 & h1 & q & bq & Hs & ? & ? & ? & ? & ? & ? & ? & ?).
      rewrite (set_unary_output_data_donate _ _ _ Hd) in Hs.
      exists o1, h1, q, bq. repeat (split; [done|]). tauto.
    - destruct HB as (o1 & h1 & q & bq & Hs & ? & ? & ? & ? & ? & ? & ? & ?).
      exists o1, h1, q, bq. repeat (split; [done|]). tauto. }
  destruct bopt; cbn [set_binary_op_output_data]; done.
Qed.

(** A sweep of a vector against a one-element operand on another block
    than the output's. *)
Lemma scalar_loop_spec f pv ps q v (n : nat) :
  q <> ps ->
  forall (i : nat) (h : Heap) bv bs bq xs zs,
    h !! pv = Some bv -> h !! ps = Some bs -> h !! q = Some bq ->
    cells bs !! 0%nat = Some v ->
    take n (drop i (cells bv)) = xs ->
    Forall2 (fun x z => f x v = Some z) xs zs ->
    (i + n <= length (cells bq))%nat ->
    length xs = n ->
    binary_loop f (Mem pv 0) 1 (Mem ps 0) 0 (Mem q 0) 1 (Z.of_nat i) n h
    = Some (<[q := {| owners := owners bq;
                      cells := take i (cells bq) ++ zs
                               ++ drop (i + n) (cells bq) |}]> h).
Proof.
  intros Hne.
  induction n as [|n IH]; intros i h bv bs bq xs zs Hv Hs Hq Hs0 Hxs Hf Hlen Hn.
  - destruct xs; [|discriminate]. inversion Hf; subst. cbn.
    rewrite Nat.add_0_r, take_drop, Buffer_eta, insert_id; done.
  - destruct Hf as [|x z xs zs Hxz Hf]; [discriminate|].
    apply take_drop_cons in Hxs as [Hx Hxs].
    cbn [binary_loop ptr_add].
    replace (0 + Z.of_nat i * 1) with (Z.of_nat i) by lia.
    replace (0 + Z.of_nat i * 0) with (Z.of_nat 0) by lia.
    rewrite (load_Mem _ _ _ _ Hv), Hx. cbn [mbind option_bind].
    rewrite (load_Mem _ _ _ _ Hs), Hs0. cbn [mbind option_bind].
    rewrite Hxz. cbn [mbind option_bind].
    rewrite (store_Mem _ _ _ _ _ Hq) by lia. cbn [mbind option_bind].
    destruct (lookup_after_store h q bq i z pv bv Hq Hv) as (bv1 & Hv1 & Hd1).
    set (bq1 := {| owners := owners bq; cells := <[i := z]> (cells bq) |}).
    replace (Z.of_nat i + 1) with (Z.of_nat (S i)) by lia.
    rewrite (IH (S i) (<[q := bq1]> h) bv1 bs bq1 xs zs); cbn.
    + rewrite insert_insert_eq. do 3 f_equal.
      apply loop_result_cells. lia.
    + done.
    + by rewrite lookup_insert_ne.
    + apply lookup_insert_eq.
    + done.
    + by rewrite Hd1.
    + done.
    + rewrite length_insert. lia.
    + cbn in Hn. lia.
Qed.

Lemma get_binary_op_type_vector_vector a b :
  get_binary_op_type a b = VectorVector -> data_size a = data_size b.
Proof.
  unfold get_binary_op_type.
  destruct ((data_size a =? 1) && contiguous (flags b)); [discriminate|].
  destruct ((data_size b =? 1) && contiguous (flags a)); [discriminate|].
  destruct (_ || _); cbn; [|discriminate].
  destruct (Z.eqb_spec (data_size a) (data_size b)); [done|discriminate].
Qed.

Lemma holds_data_ptr (h : Heap) a p xs :
  holds h a p xs -> data_ptr a = Some (Mem p 0).
Proof. intros (Hd & _). unfold data_ptr. by rewrite Hd. Qed.

(** The vector-vector case of the binary engine with a kernel that sweeps
    the element function [f]. *)
Lemma binary_vv_run `{CommonBackend} a b out op sv vs kopt f (h : Heap)
    pa pb xs ys zs :
  get_binary_op_type a b = VectorVector ->
  holds h a pa xs -> holds h b pb ys ->
  Forall3 (fun x y z => f x y = Some z) xs ys zs ->
  (forall A B C n,
     match kopt with
     | Some k => k A B C n
     | None => binary_loop (op (dtype out)) A 1 B 1 C 1 0 (Z.to_nat n)
     end = binary_loop f A 1 B 1 C 1 0 (Z.to_nat n)) ->
  exists out' h' q,
    binary a b out op sv vs kopt h = Ok (out', h')
    /\ holds h' out' q zs
    /\ dtype out' = dtype out
    /\ unchanged_except q h h'
    /\ (q = pa \/ q = pb \/ q ∉ dom h).
Proof.
  intros Ht Ha Hb Hf Hk.
  pose proof (get_binary_op_type_vector_vector _ _ Ht) as Hsz.
  pose proof (Forall3_length_lr _ _ _ _ Hf) as Hlz.
  pose proof (Forall3_length_lm _ _ _ _ Hf) as Hly.
  destruct (set_binary_op_output_data_facts a b out VectorVector h pa pb
              xs ys Ha Hb)
    as (out1 & h1 & q & bq & Hs & Hd & Hds & Hdt & Hq & Hlq & Hkeep & Hfr & Hc).
  assert (Hds' : data_size out1 = data_size a)
    by (by destruct (donates h a out); lia).
  unfold binary. rewrite Ht, Hs.
  rewrite (holds_data_ptr _ _ _ _ Ha), (holds_data_ptr _ _ _ _ Hb).
  unfold data_ptr. rewrite Hd.
  cbn [of_option mbind option_bind Result_bind].
  assert (Hrun : match kopt with
                 | Some k =>
                     run (k (Mem pa 0) (Mem pb 0) (Mem q 0) (data_size a))
                       out1 h1
                 | None =>
                     run (binary_loop (op (dtype out1)) (Mem pa 0) 1
                            (Mem pb 0) 1 (Mem q 0) 1 0
                            (Z.to_nat (data_size a))) out1 h1
                 end
                 = run (binary_loop f (Mem pa 0) 1 (Mem pb 0) 1 (Mem q 0) 1 0
                          (Z.to_nat (data_size a))) out1 h1).
  { specialize (Hk (Mem pa 0) (Mem pb 0) (Mem q 0) (data_size a)).
    destruct kopt; rewrite ?Hdt; by rewrite Hk. }
  enough (exists out' h' q0,
            run (binary_loop f (Mem pa 0) 1 (Mem pb 0) 1 (Mem q 0) 1 0
                   (Z.to_nat (data_size a))) out1 h1 = Ok (out', h')
            /\ holds h' out' q0 zs /\ dtype out' = dtype out
            /\ unchanged_except q0 h h'
            /\ (q0 = pa \/ q0 = pb \/ q0 ∉ dom h))
    as (o & h' & q0 & E & Hrest).
  { exists o, h', q0. split; [exact (eq_trans Hrun E)|done]. }
  clear Hrun. unfold run.
  destruct Ha as (_ & (ba & Hba & Hca) & Hna).
  destruct Hb as (_ & (bb & Hbb & Hcb) & Hnb).
  destruct (Hkeep pa ba Hba) as (ba1 & Hba1 & Hca1).
  destruct (Hkeep pb bb Hbb) as (bb1 & Hbb1 & Hcb1).
  assert (Hn : Z.to_nat (data_size a) = length xs) by lia.
  rewrite Hn.
  assert (E1 : take (length xs) (drop 0 (cells ba1)) = xs)
    by (rewrite Hca1, Hca, drop_0; by rewrite take_ge by lia).
  assert (E2 : take (length xs) (drop 0 (cells bb1)) = ys)
    by (rewrite Hcb1, Hcb, drop_0; by rewrite take_ge by lia).
  pose proof (binary_loop_spec f pa pb q (length xs) 0 h1 ba1 bb1 bq xs ys zs
                Hba1 Hbb1 Hq E1 E2 Hf ltac:(lia) eq_refl) as Hloop.
  change (Z.of_nat 0) with 0 in Hloop. rewrite Hloop.
  cbn [of_option mbind Result_bind]. eexists _, _, q. split; [reflexivity|].
  split.
  { split; [done|]. split; [|lia].
    eexists. rewrite lookup_insert_eq. split; [done|]. cbn.
    rewrite drop_ge by lia. by rewrite app_nil_r. }
  split; [done|]. split; [|done].
  intros r Hr Hne. rewrite lookup_insert_ne by done. by apply Hfr.
Qed.

(** The vector-scalar case with a kernel that sweeps [f] against the
    scalar. *)
Lemma binary_vs_run `{CommonBackend} a b out op sv kopt vv f (h : Heap)
    pa pb xs s zs :
  get_binary_op_type a b = VectorScalar ->
  holds h a pa xs -> holds h b pb [s] -> pa <> pb ->
  Forall2 (fun x z => f x s = Some z) xs zs ->
  (forall A q n (h1 : Heap),
     q <> pb -> load h1 (Mem pb 0) = Some s ->
     match kopt with
     | Some k => k A (Mem pb 0) (Mem q 0) n h1
     | None =>
         binary_loop (op (dtype out)) A 1 (Mem pb 0) 0 (Mem q 0) 1 0
           (Z.to_nat n) h1
     end
     = binary_loop f A 1 (Mem pb 0) 0 (Mem q 0) 1 0 (Z.to_nat n) h1) ->
  exists out' h' q,
    binary a b out op sv kopt vv h = Ok (out', h')
    /\ holds h' out' q zs
    /\ dtype out' = dtype out
    /\ unchanged_except q h h'
    /\ (q = pa \/ q ∉ dom h).
Proof.
  intros Ht Ha Hb Hne Hf Hk.
  pose proof (Forall2_length _ _ _ Hf) as Hlz.
  destruct (set_binary_op_output_data_facts a b out VectorScalar h pa pb
              xs [s] Ha Hb)
    as (out1 & h1 & q & bq & Hs & Hd & Hds & Hdt & Hq & Hlq & Hkeep & Hfr & Hc).
  unfold binary. rewrite Ht, Hs.
  rewrite (holds_data_ptr _ _ _ _ Ha), (holds_data_ptr _ _ _ _ Hb).
  unfold data_ptr. rewrite Hd.
  cbn [of_option mbind option_bind Result_bind].
  destruct Ha as (_ & (ba & Hba & Hca) & Hna).
  destruct Hb as (_ & (bb & Hbb & Hcb) & Hnb).
  destruct (Hkeep pa ba Hba) as (ba1 & Hba1 & Hca1).
  destruct (Hkeep pb bb Hbb) as (bb1 & Hbb1 & Hcb1).
  assert (Hqb : q <> pb).
  { destruct Hc as [->|Hnew]; [done|]. intros ->. apply Hnew, elem_of_dom.
    eauto. }
  assert (Hs0 : cells bb1 !! 0%nat = Some s) by (by rewrite Hcb1, Hcb).
  assert (Hrun : match kopt with
                 | Some k =>
                     run (k (Mem pa 0) (Mem pb 0) (Mem q 0) (data_size a))
                       out1 h1
                 | None =>
                     run (binary_loop (op (dtype out1)) (Mem pa 0) 1
                            (Mem pb 0) 0 (Mem q 0) 1 0
                            (Z.to_nat (data_size a))) out1 h1
                 end
                 = run (binary_loop f (Mem pa 0) 1 (Mem pb 0) 0 (Mem q 0) 1 0
                          (Z.to_nat (data_size a))) out1 h1).
  { specialize (Hk (Mem pa 0) q (data_size a) h1 Hqb
                  (eq_trans (load_Mem h1 pb 0 bb1 Hbb1) Hs0)).
    destruct kopt; rewrite ?Hdt; unfold run; by rewrite Hk. }
  enough (exists out' h' q0,
            run (binary_loop f (Mem pa 0) 1 (Mem pb 0) 0 (Mem q 0) 1 0
                   (Z.to_nat (data_size a))) out1 h1 = Ok (out', h')
            /\ holds h' out' q0 zs /\ dtype out' = dtype out
            /\ unchanged_except q0 h h'
            /\ (q0 = pa \/ q0 ∉ dom h))
    as (o & h' & q0 & E & Hrest).
  { exists o, h', q0. split; [exact (eq_trans Hrun E)|done]. }
  clear Hrun. unfold run.
  assert (Hn : Z.to_nat (data_size a) = length xs) by lia.
  rewrite Hn.
  assert (E1 : take (length xs) (drop 0 (cells ba1)) = xs)
    by (rewrite Hca1, Hca, drop_0; by rewrite take_ge by lia).
  pose proof (scalar_loop_spec f pa pb q s (length xs) Hqb 0 h1 ba1 bb1 bq
                xs zs Hba1 Hbb1 Hq Hs0 E1 Hf ltac:(lia) eq_refl) as Hloop.
  change (Z.of_nat 0) with 0 in Hloop. rewrite Hloop.
  cbn [of_option mbind Result_bind]. eexists _, _, q. split; [reflexivity|].
  split.
  { split; [done|]. split; [|lia].
    eexists. rewrite lookup_insert_eq. split; [done|]. cbn.
    rewrite drop_ge by lia. by rewrite app_nil_r. }
  split; [done|]. split; [|done].
  intros r Hr Hner. rewrite lookup_insert_ne by done. by apply Hfr.
Qed.

(** The scalar-vector case, the kernel sweeping [f] over the second
    operand against the scalar. *)
Lemma binary_sv_run `{CommonBackend} a b out op kopt vs vv f (h : Heap)
    pa pb s ys zs :
  get_binary_op_type a b = ScalarVector ->
  holds h a pa [s] -> holds h b pb ys -> pa <> pb ->
  Forall2 (fun y z => f y s = Some z) ys zs ->
  (forall B q n (h1 : Heap),
     q <> pa -> load h1 (Mem pa 0) = Some s ->
     match kopt with
     | Some k => k (Mem pa 0) B (Mem q 0) n h1
     | None =>
         binary_loop (op (dtype out)) (Mem pa 0) 0 B 1 (Mem q 0) 1 0
           (Z.to_nat n) h1
     end
     = binary_loop f B 1 (Mem pa 0) 0 (Mem q 0) 1 0 (Z.to_nat n) h1) ->
  exists out' h' q,
    binary a b out op kopt vs vv h = Ok (out', h')
    /\ holds h' out' q zs
    /\ dtype out' = dtype out
    /\ unchanged_except q h h'
    /\ (q = pb \/ q ∉ dom h).
Proof.
  intros Ht Ha Hb Hne Hf Hk.
  pose proof (Forall2_length _ _ _ Hf) as Hlz.
  destruct (set_binary_op_output_data_facts a b out ScalarVector h pa pb
              [s] ys Ha Hb)
    as (out1 & h1 & q & bq & Hs & Hd & Hds & Hdt & Hq & Hlq & Hkeep & Hfr & Hc).
  unfold binary. rewrite Ht, Hs.
  rewrite (holds_data_ptr _ _ _ _ Ha), (holds_data_ptr _ _ _ _ Hb).
  unfold data_ptr. rewrite Hd.
  cbn [of_option mbind option_bind Result_bind].
  destruct Ha as (_ & (ba & Hba & Hca) & Hna).
  destruct Hb as (_ & (bb & Hbb & Hcb) & Hnb).
  destruct (Hkeep pa ba Hba) as (ba1 & Hba1 & Hca1).
  destruct (Hkeep pb bb Hbb) as (bb1 & Hbb1 & Hcb1).
  assert (Hqa : q <> pa).
  { destruct Hc as [->|Hnew]; [done|]. intros ->. apply Hnew, elem_of_dom.
    eauto. }
  assert (Hs0 : cells ba1 !! 0%nat = Some s) by (by rewrite Hca1, Hca).
  assert (Hrun : match kopt with
                 | Some k =>
                     run (k (Mem pa 0) (Mem pb 0) (Mem q 0) (data_size b))
                       out1 h1
                 | None =>
                     run (binary_loop (op (dtype out1)) (Mem pa 0) 0
                            (Mem pb 0) 1 (Mem q 0) 1 0
                            (Z.to_nat (data_size b))) out1 h1
                 end
                 = run (binary_loop f (Mem pb 0) 1 (Mem pa 0) 0 (Mem q 0) 1 0
                          (Z.to_nat (data_size b))) out1 h1).
  { specialize (Hk (Mem pb 0) q (data_size b) h1 Hqa
                  (eq_trans (load_Mem h1 pa 0 ba1 Hba1) Hs0)).
    destruct kopt; rewrite ?Hdt; unfold run; by rewrite Hk. }
  enough (exists out' h' q0,
            run (binary_loop f (Mem pb 0) 1 (Mem pa 0) 0 (Mem q 0) 1 0
                   (Z.to_nat (data_size b))) out1 h1 = Ok (out', h')
            /\ holds h' out' q0 zs /\ dtype out' = dtype out
            /\ unchanged_except q0 h h'
            /\ (q0 = pb \/ q0 ∉ dom h))
    as (o & h' & q0 & E & Hrest).
  { exists o, h', q0. split; [exact (eq_trans Hrun E)|done]. }
  clear Hrun. unfold run.
  assert (Hn : Z.to_nat (data_size b) = length ys) by lia.
  rewrite Hn.
  assert (E1 : take (length ys) (drop 0 (cells bb1)) = ys)
    by (rewrite Hcb1, Hcb, drop_0; by rewrite take_ge by lia).
  pose proof (scalar_loop_spec f pb pa q s (length ys) Hqa 0 h1 bb1 ba1 bq
                ys zs Hbb1 Hba1 Hq Hs0 E1 Hf ltac:(lia) eq_refl) as Hloop.
  change (Z.of_nat 0) with 0 in Hloop. rewrite Hloop.
  cbn [of_option mbind Result_bind]. eexists _, _, q. split; [reflexivity|].
  split.
  { split; [done|]. split; [|lia].
    eexists. rewrite lookup_insert_eq. split; [done|]. cbn.
    rewrite drop_ge by lia. by rewrite app_nil_r. }
  split; [done|]. split; [|done].
  intros r Hr Hner. rewrite lookup_insert_ne by done. by apply Hfr.
Qed.

Lemma float2_value g x y :
  f32_valid x = true -> f32_valid y = true ->
  float2 g (VFloat x) (VFloat y) = Some (VFloat (g x y)).
Proof. intros Hx Hy. unfold float2, as_float. by rewrite Hx, Hy. Qed.

Lemma float2_images_scalar (f : scalar -> scalar -> option scalar)
    (g : spec_float -> spec_float) s xs :
  f32_valid s = true ->
  (forall x, f32_valid x = true ->
     f (VFloat x) (VFloat s) = Some (VFloat (g x))) ->
  Forall (fun x => f32_valid x = true) xs ->
  Forall2 (fun x z => f x (VFloat s) = Some z) (map VFloat xs)
    (map (fun x => VFloat (g x)) xs).
Proof.
  intros Hs Hf Hv. induction Hv as [|x xs Hx _ IH]; cbn; [constructor|].
  constructor; [by apply Hf|done].
Qed.

(** X8: on two float32 operands in the vector-vector case, Add,
    Subtract, Multiply and Divide return an output that holds
    [a[i] op b[i]] in this operand order (the kernels of Subtract and
    Divide pass [b] first to routines that compute [B - A] and [B / A]);
    the operands may share storage; no block other than the output's
    changes. *)
Theorem float_binary_vector_vector_values `{CommonBackend}
    ev g (a b out : array) (h : Heap) (pa pb : positive)
    (xs ys : list spec_float) :
  (ev, g) ∈ float_binary_ops ->
  dtype a = float32 ->
  get_binary_op_type a b = VectorVector ->
  holds h a pa (map VFloat xs) -> holds h b pb (map VFloat ys) ->
  Forall (fun x => f32_valid x = true) xs ->
  Forall (fun x => f32_valid x = true) ys ->
  exists out' h' q,
    ev [a; b] out h = Ok (out', h')
    /\ holds h' out' q (zip_with (fun x y => VFloat (g x y)) xs ys)
    /\ dtype out' = dtype out
    /\ unchanged_except q h h'
    /\ (q = pa \/ q = pb \/ q ∉ dom h).
Proof.
  intros Hev Hdt Ht Ha Hb Hvx Hvy.
  assert (Hlen : length xs = length ys).
  { pose proof (get_binary_op_type_vector_vector _ _ Ht).
    destruct Ha as (_ & _ & Hna), Hb as (_ & _ & Hnb).
    rewrite length_map in Hna, Hnb. lia. }
  pose proof (float2_images g xs ys Hvx Hvy Hlen) as Himg.
  unfold float_binary_ops in Hev.
  repeat (apply elem_of_cons in Hev as [[= -> ->]|Hev]);
    [ unfold Add_eval_cpu | unfold Subtract_eval_cpu
    | unfold Multiply_eval_cpu | unfold Divide_eval_cpu
    | by apply elem_of_nil in Hev ];
    unfold dtype_eqb; rewrite Hdt; cbn [bool_decide decide_rel];
    rewrite ?bool_decide_eq_true_2, ?bool_decide_eq_false_2 by done;
    eapply binary_vv_run; eauto.
Qed.

Lemma float_binary_vector_vector_values_witness :
  exists out' h' q,
    @Divide_eval_cpu test_common
      [vector float32 2 (Some 1%positive); vector float32 2 (Some 2%positive)]
      (vector float32 2 None) heap_pow = Ok (out', h')
    /\ holds h' out' q
         (zip_with (fun x y => VFloat (f32_div x y)) [f32 2 0; f32 3 0]
            [f32 3 0; f32 2 0])
    /\ dtype out' = dtype (vector float32 2 None)
    /\ unchanged_except q heap_pow h'
    /\ (q = 1%positive \/ q = 2%positive \/ q ∉ dom heap_pow).
Proof.
  apply (@float_binary_vector_vector_values test_common Divide_eval_cpu
           f32_div (vector float32 2 (Some 1%positive))
           (vector float32 2 (Some 2%positive)) (vector float32 2 None)
           heap_pow 1%positive 2%positive).
  - do 3 apply list_elem_of_further. apply list_elem_of_here.
  - reflexivity.
  - reflexivity.
  - holds_here.
  - holds_here.
  - repeat constructor.
  - repeat constructor.
Defined.

(** X9: broadcasting a one-element float32 operand: with the scalar on
    the left, Add, Subtract, Multiply and Divide give [s op v[i]]; with the
    scalar on the right they give [v[i] op s]; for Subtract the kernels
    compute [v * (-1) + s] and [v + (-s)], which are exactly [s - v] and
    [v - s]. *)
Theorem float_binary_scalar_values `{CommonBackend}
    ev g (v sc out : array) (h : Heap) (pv ps : positive)
    (vs : list spec_float) (s : spec_float) :
  (ev, g) ∈ float_binary_ops ->
  dtype v = float32 -> dtype sc = float32 ->
  holds h v pv (map VFloat vs) -> holds h sc ps [VFloat s] ->
  Forall (fun x => f32_valid x = true) vs -> f32_valid s = true ->
  pv <> ps ->
  (get_binary_op_type sc v = ScalarVector ->
   exists out' h' q,
     ev [sc; v] out h = Ok (out', h')
     /\ holds h' out' q (map (fun x => VFloat (g s x)) vs)
     /\ dtype out' = dtype out
     /\ unchanged_except q h h'
     /\ (q = pv \/ q ∉ dom h))
  /\ (get_binary_op_type v sc = VectorScalar ->
      exists out' h' q,
        ev [v; sc] out h = Ok (out', h')
        /\ holds h' out' q (map (fun x => VFloat (g x s)) vs)
        /\ dtype out' = dtype out
        /\ unchanged_except q h h'
        /\ (q = pv \/ q ∉ dom h)).
Proof.
  intros Hev Hdv Hds Hv Hs Hvv Hvs Hne.
  unfold float_binary_ops in Hev.
  split; intros Ht.
  - (* the scalar on the left *)
    repeat (apply elem_of_cons in Hev as [[= -> ->]|Hev]);
      [ unfold Add_eval_cpu | unfold Subtract_eval_cpu
      | unfold Multiply_eval_cpu | unfold Divide_eval_cpu
      | by apply elem_of_nil in Hev ];
      unfold dtype_eqb; rewrite Hds; cbn [bool_decide decide_rel];
      rewrite ?bool_decide_eq_true_2, ?bool_decide_eq_false_2 by done.
    + eapply (binary_sv_run sc v out _ _ _ _ (float2 f32_add)); eauto.
      apply float2_images_scalar; [done| |done].
      intros x Hx. by rewrite float2_value, f32_add_comm.
    + eapply (binary_sv_run sc v out _ _ _ _
                (float2 (fun a c => f32_add (f32_mul a (f32 (-1) 0)) c)));
        eauto.
      apply float2_images_scalar; [done| |done].
      intros x Hx. by rewrite subtract_scalar_left_float, float2_value.
    + eapply (binary_sv_run sc v out _ _ _ _ (float2 f32_mul)); eauto.
      apply float2_images_scalar; [done| |done].
      intros x Hx. by rewrite float2_value, f32_mul_comm.
    + eapply (binary_sv_run sc v out _ _ _ _
                (fun x y => float2 f32_div y x)); eauto.
      * apply (float2_images_scalar (fun x y => float2 f32_div y x)
                 (fun x => f32_div s x)); [done| |done].
        intros x Hx. by rewrite float2_value.
      * intros B q n h1 _ _. unfold vDSP_svdiv.
        by apply binary_loop_ext_swap.
  - (* the scalar on the right *)
    repeat (apply elem_of_cons in Hev as [[= -> ->]|Hev]);
      [ unfold Add_eval_cpu | unfold Subtract_eval_cpu
      | unfold Multiply_eval_cpu | unfold Divide_eval_cpu
      | by apply elem_of_nil in Hev ];
      unfold dtype_eqb; rewrite Hdv; cbn [bool_decide decide_rel];
      rewrite ?bool_decide_eq_true_2, ?bool_decide_eq_false_2 by done.
    + eapply (binary_vs_run v sc out _ _ _ _ (float2 f32_add)); eauto.
      apply float2_images_scalar; [done| |done].
      intros x Hx. by rewrite float2_value.
    + eapply (binary_vs_run v sc out _ _ _ _ (float2 f32_sub)); eauto.
      * apply float2_images_scalar; [done| |done].
        intros x Hx. by rewrite float2_value.
      * intros A q n h1 Hq Hload. unfold vDSP_vsadd.
        destruct (Z.to_nat n) as [|n'] eqn:En.
        -- unfold load_float. rewrite Hload. cbn [mbind option_bind as_float].
           by rewrite Hvs.
        -- rewrite <- En. apply subtract_scalar_right_float; [done|lia].
    + eapply (binary_vs_run v sc out _ _ _ _ (float2 f32_mul)); eauto.
      apply float2_images_scalar; [done| |done].
      intros x Hx. by rewrite float2_value.
    + eapply (binary_vs_run v sc out _ _ _ _ (float2 f32_div)); eauto.
      apply float2_images_scalar; [done| |done].
      intros x Hx. by rewrite float2_value.
Qed.

Lemma float_binary_scalar_values_witness :
  (exists out' h' q,
     @Subtract_eval_cpu test_common
       [vector float32 1 (Some 2%positive); vector float32 2 (Some 1%positive)]
       (vector float32 2 None) heap_vec_scalar = Ok (out', h')
     /\ holds h' out' q
          (map (fun x => VFloat (f32_sub (f32 2 0) x)) [f32 3 0; f32 5 0])
     /\ dtype out' = dtype (vector float32 2 None)
     /\ unchanged_except q heap_vec_scalar h'
     /\ (q = 1%positive \/ q ∉ dom heap_vec_scalar))
  /\ (exists out' h' q,
        @Subtract_eval_cpu test_common
          [vector float32 2 (Some 1%positive);
           vector float32 1 (Some 2%positive)]
          (vector float32 2 None) heap_vec_scalar = Ok (out', h')
        /\ holds h' out' q
             (map (fun x => VFloat (f32_sub x (f32 2 0))) [f32 3 0; f32 5 0])
        /\ dtype out' = dtype (vector float32 2 None)
        /\ unchanged_except q heap_vec_scalar h'
        /\ (q = 1%positive \/ q ∉ dom heap_vec_scalar)).
Proof.
  destruct (@float_binary_scalar_values test_common
              (@Subtract_eval_cpu test_common) f32_sub
              (vector float32 2 (Some 1%positive))
              (vector float32 1 (Some 2%positive)) (vector float32 2 None)
              heap_vec_scalar 1%positive 2%positive [f32 3 0; f32 5 0]
              (f32 2 0)) as [Hsv Hvs].
  - apply list_elem_of_further, list_elem_of_here.
  - reflexivity.
  - reflexivity.
  - holds_here.
  - holds_here.
  - repeat constructor.
  - reflexivity.
  - discriminate.
  - split; [exact (Hsv eq_refl)|exact (Hvs eq_refl)].
Defined.

Lemma int2_value g x y :
  INT_MIN <= g x y <= INT_MAX ->
  int2 int32 g (VInt int32 x) (VInt int32 y) = Some (VInt int32 (g x y)).
Proof.
  intros Hr. unfold int2. cbn. rewrite bool_decide_eq_true_2 by done. cbn.
  by rewrite wrap_int32_small.
Qed.

Lemma int_div2_value g x y :
  division_defined x y = true -> INT_MIN <= g x y <= INT_MAX ->
  int_div2 int32 g (VInt int32 x) (VInt int32 y) = Some (VInt int32 (g x y)).
Proof.
  intros Hy Hr. unfold int_div2. cbn [as_int mbind option_bind].
  rewrite bool_decide_eq_true_2 by done. cbn [mbind option_bind].
  unfold division_defined in Hy. apply andb_true_iff in Hy as [Hy Hov].
  apply negb_true_iff in Hy, Hov. rewrite Hy.
  assert (quotient_overflows int32 x y = false) as ->.
  { unfold quotient_overflows. cbn [is_signed andb].
    change (bits int32) with 32. change (- 2 ^ (32 - 1)) with INT_MIN.
    replace (32 <=? 32) with true by reflexivity. cbn [andb]. exact Hov. }
  cbn [orb]. by rewrite wrap_int32_small.
Qed.

Lemma int_images2 (f : scalar -> scalar -> option scalar) (g : Z -> Z -> Z)
    (P : Z -> Z -> Prop) xs ys :
  (forall x y, P x y ->
     f (VInt int32 x) (VInt int32 y) = Some (VInt int32 (g x y))) ->
  Forall2 P xs ys ->
  Forall3 (fun x y z => f x y = Some z) (map (VInt int32) xs)
    (map (VInt int32) ys) (zip_with (fun x y => VInt int32 (g x y)) xs ys).
Proof.
  intros Hf Hp. induction Hp as [|x y xs ys Hxy _ IH]; cbn; constructor;
    auto.
Qed.

Lemma int_images1 (f : scalar -> scalar -> option scalar) (g : Z -> Z)
    (P : Z -> Prop) s xs :
  (forall x, P x ->
     f (VInt int32 x) (VInt int32 s) = Some (VInt int32 (g x))) ->
  Forall P xs ->
  Forall2 (fun x z => f x (VInt int32 s) = Some z) (map (VInt int32) xs)
    (map (fun x => VInt int32 (g x)) xs).
Proof.
  intros Hf Hp. induction Hp as [|x xs Hx _ IH]; cbn; constructor; auto.
Qed.

(** X10: on two int32 operands in the vector-vector case and an int32
    output, Add, Subtract, Multiply, Divide and Remainder give
    [a[i] op b[i]] wherever the result fits an [int] and, for Divide and
    Remainder, the division is defined (the divisor is not zero and the
    operands are not [INT_MIN] and [-1]); the division truncates toward
    zero. *)
Theorem int32_binary_vector_vector_values `{CommonBackend}
    ev g ok (a b out : array) (h : Heap) (pa pb : positive)
    (xs ys : list Z) :
  (ev, g, ok) ∈ int32_binary_ops ->
  dtype a = int32 -> dtype out = int32 ->
  get_binary_op_type a b = VectorVector ->
  holds h a pa (map (VInt int32) xs) -> holds h b pb (map (VInt int32) ys) ->
  Forall2 (int32_result g ok) xs ys ->
  exists out' h' q,
    ev [a; b] out h = Ok (out', h')
    /\ holds h' out' q (zip_with (fun x y => VInt int32 (g x y)) xs ys)
    /\ dtype out' = dtype out
    /\ unchanged_except q h h'
    /\ (q = pa \/ q = pb \/ q ∉ dom h).
Proof.
  intros Hev Hdt Hdo Ht Ha Hb Hr.
  unfold int32_binary_ops in Hev.
  repeat (apply elem_of_cons in Hev as [[= -> -> ->]|Hev]);
    [ unfold Add_eval_cpu | unfold Subtract_eval_cpu
    | unfold Multiply_eval_cpu | unfold Divide_eval_cpu
    | unfold Remainder_eval_cpu
    | by apply elem_of_nil in Hev ];
    unfold dtype_eqb; rewrite Hdt; cbn [bool_decide decide_rel];
    rewrite ?bool_decide_eq_true_2, ?bool_decide_eq_false_2 by done.
  - eapply (binary_vv_run a b out _ _ _ _ (int2 int32 Z.add)); eauto.
    eapply int_images2; [|exact Hr]. intros x y [_ Hxy]. by apply int2_value.
  - eapply (binary_vv_run a b out _ _ _ _ (int2 int32 Z.sub)); eauto.
    + eapply int_images2; [|exact Hr]. intros x y [_ Hxy].
      by apply int2_value.
    + intros A B C n. by rewrite Hdo.
  - eapply (binary_vv_run a b out _ _ _ _ (int2 int32 Z.mul)); eauto.
    + eapply int_images2; [|exact Hr]. intros x y [_ Hxy].
      by apply int2_value.
    + intros A B C n. by rewrite Hdo.
  - eapply (binary_vv_run a b out _ _ _ _ (int_div2 int32 Z.quot)); eauto.
    eapply int_images2; [|exact Hr]. intros x y [Hy Hxy].
    by apply int_div2_value.
  - eapply (binary_vv_run a b out _ _ _ _ (int_div2 int32 Z.rem)); eauto.
    + eapply int_images2; [|exact Hr]. intros x y [Hy Hxy].
      by apply int_div2_value.
    + intros A B C n. by rewrite Hdo.
Qed.

Lemma int32_binary_vector_vector_values_witness :
  exists out' h' q,
    @Remainder_eval_cpu test_common
      [vector int32 2 (Some 1%positive); vector int32 2 (Some 2%positive)]
      (vector int32 2 None) heap_int_pair = Ok (out', h')
    /\ holds h' out' q
         (zip_with (fun x y => VInt int32 (Z.rem x y)) [7; -7] [3; 3])
    /\ dtype out' = dtype (vector int32 2 None)
    /\ unchanged_except q heap_int_pair h'
    /\ (q = 1%positive \/ q = 2%positive \/ q ∉ dom heap_int_pair).
Proof.
  apply (@int32_binary_vector_vector_values test_common
           (@Remainder_eval_cpu test_common) Z.rem division_defined
           (vector int32 2 (Some 1%positive))
           (vector int32 2 (Some 2%positive)) (vector int32 2 None)
           heap_int_pair 1%positive 2%positive).
  - do 4 apply list_elem_of_further. apply list_elem_of_here.
  - reflexivity.
  - reflexivity.
  - reflexivity.
  - holds_here.
  - holds_here.
  - repeat constructor; vm_compute; congruence.
Defined.

(** X11: with a one-element int32 operand on the right, Add, Subtract,
    Multiply, Divide and Remainder give [v[i] op s] wherever the result
    fits an [int] and, for Divide and Remainder, the division is defined
    ([s] is not zero and the operands are not [INT_MIN] and [-1]);
    Subtract adds the negated scalar, which needs [s] above [INT_MIN]. *)
Theorem int32_binary_scalar_right_values `{CommonBackend}
    ev g ok (v sc out : array) (h : Heap) (pv ps : positive)
    (vs : list Z) (s : Z) :
  (ev, g, ok) ∈ int32_binary_ops ->
  dtype v = int32 -> dtype out = int32 ->
  get_binary_op_type v sc = VectorScalar ->
  holds h v pv (map (VInt int32) vs) -> holds h sc ps [VInt int32 s] ->
  pv <> ps -> INT_MIN < s ->
  Forall (fun x => int32_result g ok x s) vs ->
  exists out' h' q,
    ev [v; sc] out h = Ok (out', h')
    /\ holds h' out' q (map (fun x => VInt int32 (g x s)) vs)
    /\ dtype out' = dtype out
    /\ unchanged_except q h h'
    /\ (q = pv \/ q ∉ dom h).
Proof.
  intros Hev Hdt Hdo Ht Hv Hs Hne Hmin Hr.
  unfold int32_binary_ops in Hev.
  repeat (apply elem_of_cons in Hev as [[= -> -> ->]|Hev]);
    [ unfold Add_eval_cpu | unfold Subtract_eval_cpu
    | unfold Multiply_eval_cpu | unfold Divide_eval_cpu
    | unfold Remainder_eval_cpu
    | by apply elem_of_nil in Hev ];
    unfold dtype_eqb; rewrite Hdt; cbn [bool_decide decide_rel];
    rewrite ?bool_decide_eq_true_2, ?bool_decide_eq_false_2 by done.
  - eapply (binary_vs_run v sc out _ _ _ _ (int2 int32 Z.add)); eauto.
    eapply (int_images1 _ (fun x => x + s)); [|exact Hr].
    intros x [_ Hx]. by apply int2_value.
  - eapply (binary_vs_run v sc out _ _ _ _ (int2 int32 Z.sub)); eauto.
    + eapply (int_images1 _ (fun x => x - s)); [|exact Hr].
      intros x [_ Hx]. by apply int2_value.
    + intros A q n h1 Hq Hload. unfold vDSP_vsaddi.
      destruct (Z.to_nat n) as [|n'] eqn:En.
      * unfold load_int. rewrite Hload. cbn [mbind option_bind as_int].
        by rewrite bool_decide_eq_true_2.
      * rewrite <- En. apply subtract_scalar_right_int; [done|lia].
  - eapply (binary_vs_run v sc out _ _ _ _ (int2 int32 Z.mul)); eauto.
    + eapply (int_images1 _ (fun x => x * s)); [|exact Hr].
      intros x [_ Hx]. by apply int2_value.
    + intros A q n h1 _ _. by rewrite Hdo.
  - eapply (binary_vs_run v sc out _ _ _ _ (int_div2 int32 Z.quot)); eauto.
    eapply (int_images1 _ (fun x => x ÷ s)); [|exact Hr].
    intros x [Hy Hx]. by apply int_div2_value.
  - eapply (binary_vs_run v sc out _ _ _ _ (int_div2 int32 Z.rem)); eauto.
    + eapply (int_images1 _ (fun x => Z.rem x s)); [|exact Hr].
      intros x [Hy Hx]. by apply int_div2_value.
    + intros A q n h1 _ _. by rewrite Hdo.
Qed.

Lemma int32_binary_scalar_right_values_witness :
  exists out' h' q,
    @Subtract_eval_cpu test_common
      [vector int32 2 (Some 1%positive); vector int32 1 (Some 2%positive)]
      (vector int32 2 None) heap_int_scalar = Ok (out', h')
    /\ holds h' out' q (map (fun x => VInt int32 (x - 3)) [7; -7])
    /\ dtype out' = dtype (vector int32 2 None)
    /\ unchanged_except q heap_int_scalar h'
    /\ (q = 1%positive \/ q ∉ dom heap_int_scalar).
Proof.
  apply (@int32_binary_scalar_right_values test_common Subtract_eval_cpu
           Z.sub (fun _ _ => true) (vector int32 2 (Some 1%positive))
           (vector int32 1 (Some 2%positive)) (vector int32 2 None)
           heap_int_scalar 1%positive 2%positive [7; -7] 3).
  - apply list_elem_of_further, list_elem_of_here.
  - reflexivity.
  - reflexivity.
  - reflexivity.
  - holds_here.
  - holds_here.
  - discriminate.
  - reflexivity.
  - repeat constructor; vm_compute; congruence.
Defined.

(** X18: with a one-element float32 operand, Remainder is [fmod]: the
    scalar-vector and vector-scalar cases pass no kernel and sweep
    [RemainderFn], giving [fmod(s, v[i])] and [fmod(v[i], s)]. *)
Theorem Remainder_scalar_operand_is_fmod `{CommonBackend}
    (v sc out : array) (h : Heap) (pv ps : positive)
    (vs : list spec_float) (s : spec_float) :
  dtype v = float32 -> dtype sc = float32 -> dtype out = float32 ->
  holds h v pv (map VFloat vs) -> holds h sc ps [VFloat s] ->
  Forall (fun x => f32_valid x = true) vs -> f32_valid s = true ->
  pv <> ps ->
  (get_binary_op_type sc v = ScalarVector ->
   exists out' h' q,
     Remainder_eval_cpu [sc; v] out h = Ok (out', h')
     /\ holds h' out' q (map (fun x => VFloat (f32_fmod s x)) vs)
     /\ unchanged_except q h h'
     /\ (q = pv \/ q ∉ dom h))
  /\ (get_binary_op_type v sc = VectorScalar ->
      exists out' h' q,
        Remainder_eval_cpu [v; sc] out h = Ok (out', h')
        /\ holds h' out' q (map (fun x => VFloat (f32_fmod x s)) vs)
        /\ unchanged_except q h h'
        /\ (q = pv \/ q ∉ dom h)).
Proof.
  intros Hdv Hds Hdo Hv Hs Hvv Hvs Hne.
  split; intros Ht; unfold Remainder_eval_cpu, dtype_eqb.
  - rewrite Hds, bool_decide_eq_true_2 by done.
    destruct (binary_sv_run sc v out RemainderFn UseDefaultBinaryOp
                UseDefaultBinaryOp
                (Some (fun a b o n =>
                         let num_el := to_int n in
                         vvremainderf o a b num_el))
                (fun x y => float2 f32_fmod y x) h ps pv (VFloat s)
                (map VFloat vs)
                (map (fun x => VFloat (f32_fmod s x)) vs))
      as (out' & h' & q & Hrun & Hh & _ & Hfr & Hq); try done.
    + apply (float2_images_scalar (fun x y => float2 f32_fmod y x)
               (fun x => f32_fmod s x)); [done| |done].
      intros x Hx. by rewrite float2_value.
    + intros B q n h1 _ _. unfold UseDefaultBinaryOp. rewrite Hdo.
      by apply binary_loop_ext_swap.
    + by exists out', h', q.
  - rewrite Hdv, bool_decide_eq_true_2 by done.
    destruct (binary_vs_run v sc out RemainderFn UseDefaultBinaryOp
                UseDefaultBinaryOp
                (Some (fun a b o n =>
                         let num_el := to_int n in
                         vvremainderf o a b num_el))
                (float2 f32_fmod) h pv ps (map VFloat vs) (VFloat s)
                (map (fun x => VFloat (f32_fmod x s)) vs))
      as (out' & h' & q & Hrun & Hh & _ & Hfr & Hq); try done.
    + apply float2_images_scalar; [done| |done].
      intros x Hx. by rewrite float2_value.
    + intros A q n h1 _ _. unfold UseDefaultBinaryOp. by rewrite Hdo.
    + by exists out', h', q.
Qed.

Lemma Remainder_scalar_operand_is_fmod_witness :
  (exists out' h' q,
     @Remainder_eval_cpu test_common
       [vector float32 1 (Some 2%positive); vector float32 2 (Some 1%positive)]
       (vector float32 2 None) heap_vec_scalar = Ok (out', h')
     /\ holds h' out' q
          (map (fun x => VFloat (f32_fmod (f32 2 0) x)) [f32 3 0; f32 5 0])
     /\ unchanged_except q heap_vec_scalar h'
     /\ (q = 1%positive \/ q ∉ dom heap_vec_scalar))
  /\ (exists out' h' q,
        @Remainder_eval_cpu test_common
          [vector float32 2 (Some 1%positive);
           vector float32 1 (Some 2%positive)]
          (vector float32 2 None) heap_vec_scalar = Ok (out', h')
        /\ holds h' out' q
             (map (fun x => VFloat (f32_fmod x (f32 2 0)))
                [f32 3 0; f32 5 0])
        /\ unchanged_except q heap_vec_scalar h'
        /\ (q = 1%positive \/ q ∉ dom heap_vec_scalar)).
Proof.
  destruct (@Remainder_scalar_operand_is_fmod test_common
              (vector float32 2 (Some 1%positive))
              (vector float32 1 (Some 2%positive)) (vector float32 2 None)
              heap_vec_scalar 1%positive 2%positive [f32 3 0; f32 5 0]
              (f32 2 0)) as [Hsv Hvs].
  - reflexivity.
  - reflexivity.
  - reflexivity.
  - holds_here.
  - holds_here.
  - repeat constructor.
  - reflexivity.
  - discriminate.
  - split; [exact (Hsv eq_refl)|exact (Hvs eq_refl)].
Defined.

(** ** Relations between operations *)

Lemma zip_with_diag {A B} (f : A -> A -> B) (xs : list A) :
  zip_with f xs xs = map (fun x => f x x) xs.
Proof. induction xs as [|x xs IH]; cbn; by rewrite ?IH. Qed.

(** X12: Square computes what Multiply computes on the same tensor
    twice: both outputs hold [x * x] for every element. *)
Theorem Square_is_self_product `{MathLib} `{CommonBackend}
    (a out1 out2 : array) (h : Heap) (p : positive) (xs : list spec_float) :
  dtype a = float32 -> contiguous (flags a) = true ->
  get_binary_op_type a a = VectorVector ->
  holds h a p (map VFloat xs) ->
  Forall (fun x => f32_valid x = true) xs ->
  exists o1 h1 q1 o2 h2 q2 zs,
    Square_eval_cpu [a] out1 h = Ok (o1, h1)
    /\ Multiply_eval_cpu [a; a] out2 h = Ok (o2, h2)
    /\ holds h1 o1 q1 zs /\ holds h2 o2 q2 zs
    /\ zs = map (fun x => VFloat (f32_mul x x)) xs.
Proof.
  intros Hdt Hc Ht Ha Hv.
  destruct (vDSP_unary_run Square_eval_cpu (fun x => f32_mul x x) a out1 h p xs)
    as (o1 & h1 & q1 & Hrun1 & Hh1 & _); try done.
  { do 2 apply list_elem_of_further. apply list_elem_of_here. }
  assert (exists o2 h2 q2,
            Multiply_eval_cpu [a; a] out2 h = Ok (o2, h2)
            /\ holds h2 o2 q2
                 (zip_with (fun x y => VFloat (f32_mul x y)) xs xs))
    as (o2 & h2 & q2 & Hrun2 & Hh2).
  { unfold Multiply_eval_cpu, dtype_eqb. rewrite Hdt.
    rewrite bool_decide_eq_true_2 by done.
    destruct (binary_vv_run a a out2 times
                (Some (fun s vec o n => vDSP_vsmul vec 1 s o 1 n))
                (Some (fun vec s o n => vDSP_vsmul vec 1 s o 1 n))
                (Some (fun a b o n => vDSP_vmul a 1 b 1 o 1 n))
                (float2 f32_mul) h p p (map VFloat xs) (map VFloat xs)
                (zip_with (fun x y => VFloat (f32_mul x y)) xs xs))
      as (o2 & h2 & q2 & Hrun2 & Hh2 & _); try done.
    - by apply float2_images.
    - by exists o2, h2, q2. }
  exists o1, h1, q1, o2, h2, q2, (map (fun x => VFloat (f32_mul x x)) xs).
  rewrite zip_with_diag in Hh2. rewrite map_map in Hh1. done.
Qed.

Lemma Square_is_self_product_witness :
  exists o1 h1 q1 o2 h2 q2 zs,
    @Square_eval_cpu test_common [vector float32 2 (Some 1%positive)]
      (vector float32 2 None) heap_3_m2 = Ok (o1, h1)
    /\ @Multiply_eval_cpu test_common
         [vector float32 2 (Some 1%positive);
          vector float32 2 (Some 1%positive)] (vector float32 2 None)
         heap_3_m2 = Ok (o2, h2)
    /\ holds h1 o1 q1 zs /\ holds h2 o2 q2 zs
    /\ zs = map (fun x => VFloat (f32_mul x x)) [f32 3 0; f32 (-2) 0].
Proof.
  apply (@Square_is_self_product test_math test_common
           (vector float32 2 (Some 1%positive)) (vector float32 2 None)
           (vector float32 2 None) heap_3_m2 1%positive).
  - reflexivity.
  - reflexivity.
  - reflexivity.
  - holds_here.
  - repeat constructor.
Defined.

Lemma zip_with_map_r {A B C D} (f : A -> C -> D) (g : B -> C) xs ys :
  zip_with f xs (map g ys) = zip_with (fun x y => f x (g y)) xs ys.
Proof.
  revert ys. induction xs as [|x xs IH]; intros [|y ys]; cbn; try done.
  by rewrite IH.
Qed.

Lemma holds_unchanged (h h' : Heap) a p xs q :
  holds h a p xs -> unchanged_except q h h' -> p <> q -> holds h' a p xs.
Proof.
  intros (Hd & (b & Hb & Hc) & Hn) Hfr Hne. split; [done|]. split; [|done].
  exists b. split; [|done]. rewrite Hfr; [done| |done].
  apply elem_of_dom. eauto.
Qed.

(** X13: Subtract is Add after Negative: on two float32 operands with
    separate storage in the vector-vector case, [Add(a, Negative(b))] and
    [Subtract(a, b)] hold the same elements, bit for bit. *)
Theorem Subtract_is_Add_of_Negative `{MathLib} `{CommonBackend}
    (a b outn out1 out2 : array) (h : Heap) (pa pb : positive)
    (xs ys : list spec_float) :
  dtype a = float32 -> dtype b = float32 -> contiguous (flags b) = true ->
  get_binary_op_type a b = VectorVector ->
  holds h a pa (map VFloat xs) -> holds h b pb (map VFloat ys) ->
  Forall (fun x => f32_valid x = true) xs ->
  Forall (fun x => f32_valid x = true) ys ->
  pa <> pb ->
  exists nb h1 o1 h2 q1 o2 h3 q2 zs,
    Negative_eval_cpu [b] outn h = Ok (nb, h1)
    /\ Add_eval_cpu [a; nb] out1 h1 = Ok (o1, h2)
    /\ Subtract_eval_cpu [a; b] out2 h = Ok (o2, h3)
    /\ holds h2 o1 q1 zs /\ holds h3 o2 q2 zs
    /\ zs = zip_with (fun x y => VFloat (f32_sub x y)) xs ys.
Proof.
  intros Hda Hdb Hcb Ht Ha Hb Hvx Hvy Hne.
  destruct (vDSP_unary_run Negative_eval_cpu f32_neg b outn h pb ys)
    as (nb & h1 & qn & Hrunn & Hhn & Hdn & Hfn & Hfrn & Hqn); try done.
  { apply list_elem_of_further, list_elem_of_here. }
  assert (Hpaq : pa <> qn).
  { destruct Hqn as [->|Hnew]; [done|]. intros <-. apply Hnew.
    destruct Ha as (_ & (ba & Hba & _) & _). apply elem_of_dom. eauto. }
  pose proof (holds_unchanged h h1 a pa _ qn Ha Hfrn Hpaq) as Ha1.
  assert (Ht1 : get_binary_op_type a nb = VectorVector).
  { unfold get_binary_op_type in *. rewrite Hfn.
    replace (data_size nb) with (data_size b); [done|].
    destruct Hhn as (_ & _ & Hl1), Hb as (_ & _ & Hl2).
    rewrite !length_map in Hl1. rewrite length_map in Hl2. lia. }
  assert (Hvn : Forall (fun x => f32_valid x = true) (map f32_neg ys))
    by (by apply Forall_valid_map; [apply f32_valid_neg|]).
  assert (Hlen : length xs = length ys).
  { pose proof (get_binary_op_type_vector_vector _ _ Ht).
    destruct Ha as (_ & _ & Hna), Hb as (_ & _ & Hnb).
    rewrite length_map in Hna, Hnb. lia. }
  destruct (binary_vv_run a nb out1 plus
              (Some (fun s vec o n => vDSP_vsadd vec 1 s o 1 n))
              (Some (fun vec s o n => vDSP_vsadd vec 1 s o 1 n))
              (Some (fun a b o n => vDSP_vadd a 1 b 1 o 1 n))
              (float2 f32_add) h1 pa qn (map VFloat xs)
              (map VFloat (map f32_neg ys))
              (zip_with (fun x y => VFloat (f32_add x y)) xs (map f32_neg ys)))
    as (o1 & h2 & q1 & Hrun1 & Hh1 & _); try done.
  { apply float2_images; try done. by rewrite length_map. }
  destruct (binary_vv_run a b out2 minus
              (Some (fun s vec o n =>
                       let minus_1 := Stack (VFloat (f32 (-1) 0)) 0 in
                       vDSP_vsmsa vec 1 minus_1 s o 1 n))
              (Some (fun vec s o n h =>
                       s0 ← load_float h s;
                       let val := Stack (VFloat (f32_neg s0)) 0 in
                       vDSP_vsadd vec 1 val o 1 n h))
              (Some (fun a b o n => vDSP_vsub b 1 a 1 o 1 n))
              (float2 f32_sub) h pa pb (map VFloat xs) (map VFloat ys)
              (zip_with (fun x y => VFloat (f32_sub x y)) xs ys))
    as (o2 & h3 & q2 & Hrun2 & Hh2 & _); try done.
  { by apply float2_images. }
  exists nb, h1, o1, h2, q1, o2, h3, q2,
    (zip_with (fun x y => VFloat (f32_sub x y)) xs ys).
  split; [done|].
  split.
  { unfold Add_eval_cpu, dtype_eqb. rewrite Hda.
    by rewrite bool_decide_eq_true_2. }
  split.
  { unfold Subtract_eval_cpu, dtype_eqb. rewrite Hda.
    by rewrite bool_decide_eq_true_2. }
  split; [|done].
  rewrite zip_with_map_r in Hh1.
  erewrite zip_with_ext in Hh1; [exact Hh1| |done|done].
  intros x y. cbn. by rewrite f32_sub_add_neg.
Qed.

Lemma Subtract_is_Add_of_Negative_witness :
  exists nb h1 o1 h2 q1 o2 h3 q2 zs,
    @Negative_eval_cpu test_common [vector float32 2 (Some 2%positive)]
      (vector float32 2 None) heap_pow = Ok (nb, h1)
    /\ @Add_eval_cpu test_common [vector float32 2 (Some 1%positive); nb]
         (vector float32 2 None) h1 = Ok (o1, h2)
    /\ @Subtract_eval_cpu test_common
         [vector float32 2 (Some 1%positive);
          vector float32 2 (Some 2%positive)] (vector float32 2 None)
         heap_pow = Ok (o2, h3)
    /\ holds h2 o1 q1 zs /\ holds h3 o2 q2 zs
    /\ zs = zip_with (fun x y => VFloat (f32_sub x y)) [f32 2 0; f32 3 0]
              [f32 3 0; f32 2 0].
Proof.
  apply (@Subtract_is_Add_of_Negative test_math test_common
           (vector float32 2 (Some 1%positive))
           (vector float32 2 (Some 2%positive)) (vector float32 2 None)
           (vector float32 2 None) (vector float32 2 None) heap_pow
           1%positive 2%positive).
  - reflexivity.
  - reflexivity.
  - reflexivity.
  - reflexivity.
  - holds_here.
  - holds_here.
  - repeat constructor.
  - repeat constructor.
  - discriminate.
Defined.

(** ** Edge cases *)

(** X15: on the fast path of Scan a scanned axis of length zero has no
    defined result: the row count divides by the axis length. *)
Theorem Scan_fast_path_empty_axis `{MathLib} `{CommonBackend}
    rt axis_ reverse_ incl (in_ out : array) (h : Heap) :
  Scan_fast rt axis_ incl in_ out = true ->
  index (shape in_) axis_ = Some 0 ->
  Scan_eval_cpu rt axis_ reverse_ incl [in_] out h = Undefined.
Proof.
  intros Hfast Hshape.
  destruct (Scan_fast_true _ _ _ _ _ Hfast) as (-> & -> & Hdt & Hrc & Hidx).
  unfold Scan_eval_cpu.
  rewrite Hdt, Hrc, Hidx, bool_decide_eq_true_2 by done.
  cbn [andb of_option mbind Result_bind negb Z.eqb Pos.eqb].
  destruct (set_data_fresh out h) as [out1 h1].
  by rewrite Hshape.
Qed.

Lemma Scan_fast_path_empty_axis_witness :
  @Scan_eval_cpu test_common Scan_Sum 0 false false
    [vector float32 0 (Some 1%positive)] (vector float32 0 None)
    (heap1 1 [])
  = Undefined.
Proof.
  apply (@Scan_fast_path_empty_axis test_math test_common Scan_Sum 0 false
           false (vector float32 0 (Some 1%positive)) (vector float32 0 None)
           (heap1 1 [])).
  - reflexivity.
  - reflexivity.
Defined.

Lemma wrap_representable d n :
  is_integral d = true -> representable d n = true -> wrap d n = n.
Proof.
  unfold representable, wrap.
  destruct d; try discriminate; intros _;
    cbn [bool_decide decide_rel is_signed];
    rewrite ?bool_decide_eq_true_2, ?bool_decide_eq_false_2 by done;
    cbv iota; intros Hr; apply andb_true_iff in Hr as [H1 H2];
    apply Z.leb_le in H1;
    try (apply Z.leb_le in H2; destruct (Z.eqb_spec n 0); lia);
    apply Z.ltb_lt in H2;
    match goal with
    | |- context [bits ?d] =>
        let b := eval vm_compute in (bits d) in change (bits d) with b in *
    end;
    rewrite Z.mod_small; lia.
Qed.

Lemma quotient_overflows_representable d n m :
  representable d (n ÷ m) = true -> quotient_overflows d n m = false.
Proof.
  unfold quotient_overflows, representable.
  destruct (is_signed d) eqn:Hs; [|done].
  rewrite bool_decide_eq_false_2 by (intros ->; discriminate).
  intros Hr. apply andb_true_iff in Hr as [_ Hr]. apply Z.ltb_lt in Hr.
  cbn [andb]. destruct (32 <=? bits d); [|done]. cbn [andb].
  destruct (Z.eqb_spec n (- 2 ^ (bits d - 1))) as [->|]; [|done].
  destruct (Z.eqb_spec m (-1)) as [->|]; [|done]. exfalso.
  change (-1) with (Z.opp 1) in Hr.
  rewrite Z.quot_opp_opp in Hr by lia. rewrite Z.quot_1_r in Hr. lia.
Qed.

(** X16: on every integral dtype [RemainderFn] is the truncating
    remainder: a zero divisor has no defined result; otherwise, when the
    quotient is representable, the result [r] is representable, satisfies
    [n = m * (n / m) + r] for the quotient truncated toward zero, is
    smaller than the divisor in magnitude and has the sign of the
    dividend. *)
Theorem RemainderFn_integral_truncates (d : Dtype) (n m : Z) :
  is_integral d = true ->
  representable d n = true -> representable d m = true ->
  (m = 0 -> RemainderFn d (VInt d n) (VInt d m) = None)
  /\ (m <> 0 -> representable d (n ÷ m) = true ->
      exists r,
        RemainderFn d (VInt d n) (VInt d m) = Some (VInt d r)
        /\ representable d r = true
        /\ n = m * (n ÷ m) + r
        /\ Z.abs r < Z.abs m
        /\ 0 <= r * n).
Proof.
  intros Hd Hn Hm.
  assert (Hfn : RemainderFn d (VInt d n) (VInt d m)
                = if (m =? 0) || quotient_overflows d n m then None
                  else Some (VInt d (wrap d (Z.rem n m)))).
  { unfold RemainderFn. rewrite Hd. cbn [negb]. unfold int_div2. cbn.
    by rewrite bool_decide_eq_true_2. }
  rewrite Hfn. split.
  - by intros ->.
  - intros Hne Hquot. destruct (Z.eqb_spec m 0) as [|_]; [done|].
    rewrite (quotient_overflows_representable d n m Hquot). cbn [orb].
    pose proof (Z.rem_bound_abs n m Hne) as Hb.
    pose proof (Z.rem_sign_mul n m Hne) as Hs.
    pose proof (Z.quot_rem' n m) as Hq.
    assert (Hrep : representable d (Z.rem n m) = true).
    { revert Hn Hm. unfold representable.
      destruct (bool_decide (d = bool_)); [|destruct (is_signed d)];
        rewrite !andb_true_iff, ?Z.leb_le, ?Z.ltb_lt; intros [? ?] [? ?];
        (split; [|]); try (apply Z.rem_nonneg; lia);
        destruct (Z.le_gt_cases 0 n), (Z.le_gt_cases 0 (Z.rem n m)); nia. }
    exists (Z.rem n m). rewrite wrap_representable by done.
    repeat split; try done; lia.
Qed.

Lemma RemainderFn_integral_truncates_witness :
  exists r,
    RemainderFn int32 (VInt int32 (-7)) (VInt int32 3) = Some (VInt int32 r)
    /\ representable int32 r = true
    /\ -7 = 3 * (-7 ÷ 3) + r
    /\ Z.abs r < Z.abs 3
    /\ 0 <= r * -7.
Proof.
  apply (proj2 (RemainderFn_integral_truncates int32 (-7) 3
                  eq_refl eq_refl eq_refl)).
  - discriminate.
  - reflexivity.
Defined.

(** ** Messages of the backend without accelerator *)

Lemma string_length_app (s t : string) :
  String.length (s +:+ t) = (String.length s + String.length t)%nat.
Proof.
  induction s as [|c s IH]; [done|].
  change (String c s +:+ t) with (String c (s +:+ t)).
  cbn [String.length]. by rewrite IH.
Qed.

Lemma string_app_inv_tail (s1 s2 t : string) :
  s1 +:+ t = s2 +:+ t -> s1 = s2.
Proof.
  revert s2. induction s1 as [|c s1 IH]; intros [|c2 s2] E.
  - done.
  - apply (f_equal String.length) in E.
    rewrite !string_length_app in E. cbn [String.length] in E. lia.
  - apply (f_equal String.length) in E.
    rewrite !string_length_app in E. cbn [String.length] in E. lia.
  - change (String c (s1 +:+ t) = String c2 (s2 +:+ t)) in E.
    injection E as -> E. f_equal. by apply IH.
Qed.

(** X17: the message of the backend without accelerator identifies the
    operation: two entry points throw the same exception, whatever their
    arguments, exactly when they belong to the same operation class. *)
Theorem no_gpu_message_identifies_operation (p q : Primitive)
    (inputs inputs' : list array) (out out' : array)
    (outputs outputs' : list array) :
  gpu_thrown p inputs out outputs = gpu_thrown q inputs' out' outputs'
  <-> class_name p = class_name q.
Proof.
  assert (Hmsg : forall r i o os,
             gpu_thrown r i o os
             = Some (runtime_error
                       (class_name r +:+ " has no GPU implementation."))).
  { intros r i o os. by destruct r. }
  rewrite !Hmsg. split.
  - intros [= E]. by apply string_app_inv_tail in E.
  - by intros ->.
Qed.
